(** * Sketchpad: the stroke document engine

    A shallow embedding of the drawing editor's core:
    - [src/types.ts]                 the data model,
    - [src/utils/drawingUtils.ts]    path smoothing, bounding boxes, SVG export,
    - [src/hooks/useSketchpad.ts]    the document with its undo/redo history,
    - [src/screens/SketchScreen.tsx] the nearest-stroke hit test,
    - [src/components/SkiaCanvas.tsx] the per-stroke rendering,
    - [src/hooks/useDrawingStorage.ts] the gallery loader.

    JavaScript numbers are IEEE-754 binary64 values and are modelled by Rocq's
    primitive floats, which are the same format with the same rounding.  React
    state cells are modelled by one record; each callback is a function on that
    record, run against the state of the render it was created in (one callback
    per event, as the hook's callers do). *)

From Stdlib Require Import ZArith List String Ascii Bool Lia PeanoNat.
From Stdlib Require Import Floats DecimalString.
Import ListNotations.

Set Warnings "-inexact-float,-register-all".
Open Scope string_scope.

(** ** JavaScript numbers *)

Module JsNumber.

Definition number := float.

(** *** Exact arithmetic on the value of a double

    A finite double is [m * 2^e]; its decimal renderings are computed on
    exact fractions [(numerator, denominator)] with a positive denominator. *)

Definition Frac := (Z * Z)%type.

Definition fracLt (p q : Frac) : bool := (fst p * snd q <? fst q * snd p)%Z.
Definition fracLe (p q : Frac) : bool := (fst p * snd q <=? fst q * snd p)%Z.
Definition fracMul (p q : Frac) : Frac := (fst p * fst q, snd p * snd q)%Z.
Definition fracFloor (p : Frac) : Z := (fst p / snd p)%Z.

Definition pow2Frac (e : Z) : Frac :=
  if (0 <=? e)%Z then (2 ^ e, 1)%Z else (1, 2 ^ (- e))%Z.
Definition pow10Frac (e : Z) : Frac :=
  if (0 <=? e)%Z then (10 ^ e, 1)%Z else (1, 10 ^ (- e))%Z.
Definition dyadic (m e : Z) : Frac := fracMul (m, 1%Z) (pow2Frac e).

Definition digitsOf (n : Z) : string :=
  NilZero.string_of_uint (N.to_uint (Z.to_N n)).

Fixpoint zeros (k : nat) : string :=
  match k with
  | O => EmptyString
  | S k' => String "0" (zeros k')
  end.

Definition strDrop (n : nat) (s : string) : string :=
  substring n (String.length s - n) s.
Definition strTake (n : nat) (s : string) : string := substring 0 n s.

(** *** Number::toString (ECMA-262, radix 10)

    The digits are the shortest decimal [s * 10^(n-k)] that reads back as
    the same double, i.e. that lies in the double's rounding interval; among
    several of that length, the one closest to the value. *)

Definition roundingInterval (m : positive) (e : Z) : Frac * Frac * bool :=
  let M := Zpos m in
  let below := if ((M =? 2 ^ 52) && (-1074 <? e))%Z then 1%Z else 2%Z in
  (dyadic (4 * M - below) (e - 2), dyadic (4 * M + 2) (e - 2), Z.even M).

Definition inInterval (iv : Frac * Frac * bool) (v : Frac) : bool :=
  let '(lo, hi, closed) := iv in
  if closed then fracLe lo v && fracLe v hi else fracLt lo v && fracLt v hi.

Fixpoint decimalExponentFrom (fuel : nat) (v : Frac) (n : Z) : Z :=
  match fuel with
  | O => n
  | S fuel' =>
      if fracLt v (pow10Frac n) then n
      else decimalExponentFrom fuel' v (n + 1)
  end.

(** The [n] with [10^(n-1) <= m * 2^e < 10^n], searched upwards from an
    under-estimate obtained from the binary logarithm. *)
Definition decimalExponent (m : positive) (e : Z) : Z :=
  let bits := (Z.log2 (Zpos m) + e)%Z in
  decimalExponentFrom 8 (dyadic (Zpos m) e) ((bits * 30103) / 100000 - 1).

Definition candidate (v : Frac) (iv : Frac * Frac * bool) (n k : Z)
  : option Z :=
  let scaled := fracMul v (pow10Frac (k - n)) in
  let sLo := fracFloor scaled in
  let sHi := (sLo + 1)%Z in
  let unit := pow10Frac (n - k) in
  let okLo := inInterval iv (fracMul (sLo, 1%Z) unit) in
  let okHi := inInterval iv (fracMul (sHi, 1%Z) unit) in
  match okLo, okHi with
  | false, false => None
  | true, false => Some sLo
  | false, true => Some sHi
  | true, true =>
      let twice := fracMul (2%Z, 1%Z) scaled in
      let mid := ((sLo + sHi)%Z, 1%Z) in
      if fracLt twice mid then Some sLo
      else if fracLt mid twice then Some sHi
      else if Z.even sLo then Some sLo else Some sHi
  end.

Fixpoint shortestFrom (fuel : nat) (v : Frac) (iv : Frac * Frac * bool)
  (n k : Z) : Z * Z :=
  match fuel with
  | O => (fracFloor (fracMul v (pow10Frac (k - n))), k)
  | S fuel' =>
      match candidate v iv n k with
      | Some s => (s, k)
      | None => shortestFrom fuel' v iv n (k + 1)
      end
  end.

Definition shortestDigits (m : positive) (e : Z) : Z * Z * Z :=
  let n := decimalExponent m e in
  let '(s, k) :=
    shortestFrom 17 (dyadic (Zpos m) e) (roundingInterval m e) n 1 in
  if (s =? 10 ^ k)%Z then ((10 ^ (k - 1))%Z, k, (n + 1)%Z) else (s, k, n).

Definition formatDigits (s k n : Z) : string :=
  let ds := digitsOf s in
  if ((k <=? n) && (n <=? 21))%Z then ds ++ zeros (Z.to_nat (n - k))
  else if ((0 <? n) && (n <=? 21))%Z then
    strTake (Z.to_nat n) ds ++ "." ++ strDrop (Z.to_nat n) ds
  else if ((-6 <? n) && (n <=? 0))%Z then
    "0." ++ zeros (Z.to_nat (- n)) ++ ds
  else
    let e := (n - 1)%Z in
    let sign := if (e <? 0)%Z then "-" else "+" in
    let mant :=
      if (k =? 1)%Z then ds else strTake 1 ds ++ "." ++ strDrop 1 ds in
    mant ++ "e" ++ sign ++ digitsOf (Z.abs e).

(** What a template literal [`${v}`] produces for a number. *)
Definition numToString (v : number) : string :=
  match Prim2SF v with
  | S754_nan => "NaN"
  | S754_zero _ => "0"
  | S754_infinity s => if s then "-Infinity" else "Infinity"
  | S754_finite s m e =>
      let '(d, k, n) := shortestDigits m e in
      (if s then "-" else EmptyString) ++ formatDigits d k n
  end.

(** *** Number.prototype.toFixed (ECMA-262)

    [n] is the integer closest to [x * 10^f], the larger one on a tie. *)

Definition roundHalfUp (p : Frac) : Z :=
  ((2 * fst p + snd p) / (2 * snd p))%Z.

Definition fixedDigits (f : nat) (n : Z) : string :=
  let m := digitsOf n in
  match f with
  | O => m
  | S _ =>
      let m := zeros (S f - String.length m) ++ m in
      let k := String.length m in
      strTake (k - f) m ++ "." ++ strDrop (k - f) m
  end.

Definition toFixed (f : nat) (v : number) : string :=
  match Prim2SF v with
  | S754_nan => "NaN"
  | S754_infinity s => if s then "-Infinity" else "Infinity"
  | S754_zero _ => fixedDigits f 0
  | S754_finite s m e =>
      let mag := dyadic (Zpos m) e in
      if fracLe ((10 ^ 21)%Z, 1%Z) mag then numToString v
      else
        (if s then "-" else EmptyString)
        ++ fixedDigits f (roundHalfUp (fracMul mag (pow10Frac (Z.of_nat f))))
  end.

(** A double that [toFixed] renders in positional notation: finite and
    below [10^21] in magnitude. *)
Definition plain (v : number) : bool :=
  match Prim2SF v with
  | S754_nan | S754_infinity _ => false
  | S754_zero _ => true
  | S754_finite _ m e => negb (fracLe ((10 ^ 21)%Z, 1%Z) (dyadic (Zpos m) e))
  end.

(** *** Math *)

Definition Math_max (a b : number) : number :=
  if is_nan a || is_nan b then nan
  else if (a <? b)%float then b
  else if (b <? a)%float then a
  else if get_sign a then b else a.

Definition Math_min (a b : number) : number :=
  if is_nan a || is_nan b then nan
  else if (a <? b)%float then a
  else if (b <? a)%float then b
  else if get_sign a then a else b.

Definition Math_sqrt (a : number) : number := PrimFloat.sqrt a.

(** [a ** 2]: the engines' [pow] returns [a * a] for the exponent 2. *)
Definition square (a : number) : number := (a * a)%float.

(** *** Recognising fixed-precision numerals *)

Definition isDigit (c : ascii) : bool :=
  (48 <=? nat_of_ascii c)%nat && (nat_of_ascii c <=? 57)%nat.

Fixpoint allDigits (s : string) : bool :=
  match s with
  | EmptyString => true
  | String c r => isDigit c && allDigits r
  end.

(** Splits at the first dot. *)
Fixpoint splitDot (s : string) : option (string * string) :=
  match s with
  | EmptyString => None
  | String c r =>
      if Ascii.eqb c "." then Some (EmptyString, r)
      else match splitDot r with
           | Some (a, b) => Some (String c a, b)
           | None => None
           end
  end.

Definition stripMinus (s : string) : string :=
  match s with
  | String c r => if Ascii.eqb c "-" then r else s
  | EmptyString => s
  end.

(** [isFixedDecimal d s]: [s] is an optional minus sign, one or more
    digits, a dot and exactly [d] digits. *)
Definition isFixedDecimal (d : nat) (s : string) : bool :=
  match splitDot (stripMinus s) with
  | Some (a, b) =>
      negb (String.length a =? 0)%nat && allDigits a && allDigits b
      && (String.length b =? d)%nat
  | None => false
  end.

(** *** The order of doubles

    A double that is not NaN has a key in the lexicographic order of integer
    triples; [<] on doubles is the order of the keys (the two zeros share
    one key), and every comparison with NaN is false. *)

Definition sfKey (v : spec_float) : option (Z * Z * Z) :=
  match v with
  | S754_nan => None
  | S754_zero _ => Some (0, 0, 0)%Z
  | S754_infinity s => Some (if s then (-2) else 2, 0, 0)%Z
  | S754_finite s m e =>
      Some (if s then (-1, - e, - Zpos m) else (1, e, Zpos m))%Z
  end.

Definition keyLt (a b : Z * Z * Z) : Prop :=
  let '(a1, a2, a3) := a in
  let '(b1, b2, b3) := b in
  (a1 < b1 \/ (a1 = b1 /\ (a2 < b2 \/ (a2 = b2 /\ a3 < b3))))%Z.

(** A double other than NaN. *)
Definition numeric (v : number) : bool := negb (is_nan v).

(** [Math.abs] *)
Definition Math_abs (a : number) : number := PrimFloat.abs a.

End JsNumber.

Import JsNumber.

(** ** JavaScript arrays *)

(** [arr.slice(-n)]: the last [n] elements (all of them when there are fewer). *)
Definition sliceLast {A} (n : nat) (arr : list A) : list A :=
  skipn (List.length arr - n) arr.

(** [arr.slice(0, -1)]: all but the last element. *)
Definition sliceInit {A} (arr : list A) : list A := removelast arr.

(** [arr.includes(v)] on an array of strings. *)
Definition includes (v : string) (arr : list string) : bool :=
  existsb (String.eqb v) arr.

(** [arr.join(sep)] on an array of strings. *)
Fixpoint join (sep : string) (arr : list string) : string :=
  match arr with
  | [] => EmptyString
  | [s] => s
  | s :: rest => s ++ sep ++ join sep rest
  end.

(** Whether [part] occurs in [text]. *)
Definition occursIn (part text : string) : bool :=
  match String.index 0 part text with
  | Some _ => true
  | None => false
  end.

(** [arr.slice(0, -1).map((pt, i) => f(pt, arr[i + 1]))]: [f] on each pair
    of adjacent elements. *)
Fixpoint mapAdjacent {A B} (f : A -> A -> B) (arr : list A) : list B :=
  match arr with
  | a :: ((b :: _) as rest) => f a b :: mapAdjacent f rest
  | _ => []
  end.

(** ** types.ts *)

Inductive BrushType := pen | marker | calligraphy | eraser | select.

Definition BrushType_eqb (a b : BrushType) : bool :=
  match a, b with
  | pen, pen | marker, marker | calligraphy, calligraphy
  | eraser, eraser | select, select => true
  | _, _ => false
  end.

Module Point.
Record t := mk { x : number; y : number; pressure : number }.
End Point.
Abbreviation Point := Point.t.

Module Stroke.
Record t := mk {
  id : string;
  points : list Point;
  color : string;
  strokeWidth : number;
  brushType : BrushType;
  pathData : string
}.
End Stroke.
Abbreviation Stroke := Stroke.t.

Module SelectionRect.
Record t := mk { x1 : number; y1 : number; x2 : number; y2 : number }.
End SelectionRect.
Abbreviation SelectionRect := SelectionRect.t.

Module BoundingBox.
Record t := mk { minX : number; minY : number; maxX : number; maxY : number }.
End BoundingBox.
Abbreviation BoundingBox := BoundingBox.t.

(** ** utils/drawingUtils.ts *)

Module drawingUtils.

(** The double quote of the emitted markup. *)
Definition dq : string := String (ascii_of_nat 34) EmptyString.
(** The line feed of the emitted markup. *)
Definition nl : string := String (ascii_of_nat 10) EmptyString.

(** The loop [for (i = 1; i < points.length - 1; i++)], run on
    [points.slice(1)]: one quadratic segment per interior point, ending at
    the midpoint to the next point. *)
Fixpoint quadSegments (pts : list Point) : string :=
  match pts with
  | p :: ((q :: _) as rest) =>
      let xc := ((Point.x p + Point.x q) / 2)%float in
      let yc := ((Point.y p + Point.y q) / 2)%float in
      " Q " ++ numToString (Point.x p) ++ " " ++ numToString (Point.y p)
      ++ ", " ++ numToString xc ++ " " ++ numToString yc
      ++ quadSegments rest
  | _ => EmptyString
  end.

Definition getSvgPathFromPoints (points : list Point) : string :=
  match points with
  | [] => EmptyString
  | [p] =>
      "M " ++ numToString (Point.x p) ++ " " ++ numToString (Point.y p)
      ++ " L " ++ numToString (Point.x p) ++ " "
      ++ numToString (Point.y p + 0.1)%float
  | p0 :: rest =>
      let lastPt := List.last rest p0 in
      "M " ++ numToString (Point.x p0) ++ " " ++ numToString (Point.y p0)
      ++ quadSegments rest
      ++ " L " ++ numToString (Point.x lastPt) ++ " "
      ++ numToString (Point.y lastPt)
  end.

(** One iteration of the [for (const pt of stroke.points)] loop. *)
Definition growBox (bb : BoundingBox) (pt : Point) : BoundingBox :=
  BoundingBox.mk
    (if (Point.x pt <? BoundingBox.minX bb)%float
     then Point.x pt else BoundingBox.minX bb)
    (if (Point.y pt <? BoundingBox.minY bb)%float
     then Point.y pt else BoundingBox.minY bb)
    (if (BoundingBox.maxX bb <? Point.x pt)%float
     then Point.x pt else BoundingBox.maxX bb)
    (if (BoundingBox.maxY bb <? Point.y pt)%float
     then Point.y pt else BoundingBox.maxY bb).

Definition getStrokeBoundingBox (stroke : Stroke) : BoundingBox :=
  match Stroke.points stroke with
  | [] => BoundingBox.mk 0%float 0%float 0%float 0%float
  | pts =>
      fold_left growBox pts
        (BoundingBox.mk infinity infinity neg_infinity neg_infinity)
  end.

(** The filter shared by [getStrokesInRect] and the hook's [selectByRect]:
    inclusive overlap of the stroke's box with the normalised rectangle. *)
Definition boxMeetsRect (rect : SelectionRect) (stroke : Stroke) : bool :=
  let minX := Math_min (SelectionRect.x1 rect) (SelectionRect.x2 rect) in
  let maxX := Math_max (SelectionRect.x1 rect) (SelectionRect.x2 rect) in
  let minY := Math_min (SelectionRect.y1 rect) (SelectionRect.y2 rect) in
  let maxY := Math_max (SelectionRect.y1 rect) (SelectionRect.y2 rect) in
  let bb := getStrokeBoundingBox stroke in
  (minX <=? BoundingBox.maxX bb)%float && (BoundingBox.minX bb <=? maxX)%float
  && (minY <=? BoundingBox.maxY bb)%float && (BoundingBox.minY bb <=? maxY)%float.

Definition getStrokesInRect (strokes : list Stroke) (rect : SelectionRect)
  : list string :=
  map Stroke.id (filter (boxMeetsRect rect) strokes).

Definition isMarker (s : Stroke) : bool :=
  BrushType_eqb (Stroke.brushType s) marker.

(** The [<line>] element of one marker segment; [fmt] is the coordinate
    formatter, [toFixed(2)] in the export and [toFixed(1)] in thumbnails. *)
Definition lineElement (fmt : number -> string) (s : Stroke) (pt next : Point)
  : string :=
  "<line x1=" ++ dq ++ fmt (Point.x pt) ++ dq
  ++ " y1=" ++ dq ++ fmt (Point.y pt) ++ dq
  ++ " x2=" ++ dq ++ fmt (Point.x next) ++ dq
  ++ " y2=" ++ dq ++ fmt (Point.y next) ++ dq
  ++ " stroke=" ++ dq ++ Stroke.color s ++ dq
  ++ " stroke-width=" ++ dq ++ numToString (Stroke.strokeWidth s) ++ dq
  ++ " stroke-linecap=" ++ dq ++ "round" ++ dq
  ++ " opacity=" ++ dq ++ "0.5" ++ dq ++ " />".

(** The [<path>] element up to its optional opacity attribute. *)
Definition pathElementOpen (s : Stroke) : string :=
  "<path d=" ++ dq ++ Stroke.pathData s ++ dq
  ++ " stroke=" ++ dq ++ Stroke.color s ++ dq
  ++ " stroke-width=" ++ dq ++ numToString (Stroke.strokeWidth s) ++ dq
  ++ " fill=" ++ dq ++ "none" ++ dq
  ++ " stroke-linecap=" ++ dq ++ "round" ++ dq
  ++ " stroke-linejoin=" ++ dq ++ "round" ++ dq.

Definition opacityAttr : string := "opacity=" ++ dq ++ "0.5" ++ dq.

Module FullExport.
(** [renderStroke] of [generateSvgContent]. *)
Definition renderStroke (s : Stroke) : string :=
  if isMarker s && (1 <? List.length (Stroke.points s))%nat then
    join (nl ++ "    ")
      (mapAdjacent (lineElement (toFixed 2) s) (Stroke.points s))
  else
    let opacity := if isMarker s then " " ++ opacityAttr else EmptyString in
    pathElementOpen s ++ opacity ++ " />".
End FullExport.

Definition generateSvgContent (strokes : list Stroke) (width height : number)
  : string :=
  "<?xml version=" ++ dq ++ "1.0" ++ dq ++ " encoding=" ++ dq ++ "utf-8" ++ dq
  ++ "?>" ++ nl
  ++ "<svg xmlns=" ++ dq ++ "http://www.w3.org/2000/svg" ++ dq
  ++ " viewBox=" ++ dq ++ "0 0 " ++ numToString width ++ " "
  ++ numToString height ++ dq
  ++ " width=" ++ dq ++ numToString width ++ dq
  ++ " height=" ++ dq ++ numToString height ++ dq ++ ">" ++ nl
  ++ "  <rect width=" ++ dq ++ "100%" ++ dq ++ " height=" ++ dq ++ "100%" ++ dq
  ++ " fill=" ++ dq ++ "#ffffff" ++ dq ++ " />" ++ nl
  ++ "  " ++ join (nl ++ "  ") (map FullExport.renderStroke strokes) ++ nl
  ++ "</svg>".

Module Thumbnail.
(** [renderStroke] of [generateThumbnailSvg]. *)
Definition renderStroke (s : Stroke) : string :=
  if isMarker s && (1 <? List.length (Stroke.points s))%nat then
    join " " (mapAdjacent (lineElement (toFixed 1) s) (Stroke.points s))
  else
    pathElementOpen s ++ " "
    ++ (if isMarker s then opacityAttr else EmptyString) ++ " />".

(** The reducer that unions the strokes' bounding boxes. *)
Definition unionBox (acc : BoundingBox) (stroke : Stroke) : BoundingBox :=
  let bb := getStrokeBoundingBox stroke in
  BoundingBox.mk
    (Math_min (BoundingBox.minX acc) (BoundingBox.minX bb))
    (Math_min (BoundingBox.minY acc) (BoundingBox.minY bb))
    (Math_max (BoundingBox.maxX acc) (BoundingBox.maxX bb))
    (Math_max (BoundingBox.maxY acc) (BoundingBox.maxY bb)).

(** [allBB.minX !== Infinity] *)
Definition isPlusInfinity (v : number) : bool :=
  match Prim2SF v with
  | S754_infinity false => true
  | _ => false
  end.

Definition viewBox (topStrokes : list Stroke) (width height : number)
  : string :=
  let allBB :=
    fold_left unionBox topStrokes
      (BoundingBox.mk infinity infinity neg_infinity neg_infinity) in
  if negb (isPlusInfinity (BoundingBox.minX allBB)) then
    let padding := 20%float in
    let vW := Math_max 10%float
      (BoundingBox.maxX allBB - BoundingBox.minX allBB + padding * 2)%float in
    let vH := Math_max 10%float
      (BoundingBox.maxY allBB - BoundingBox.minY allBB + padding * 2)%float in
    toFixed 1 (BoundingBox.minX allBB - padding)%float ++ " "
    ++ toFixed 1 (BoundingBox.minY allBB - padding)%float ++ " "
    ++ toFixed 1 vW ++ " " ++ toFixed 1 vH
  else "0 0 " ++ numToString width ++ " " ++ numToString height.
End Thumbnail.

Definition generateThumbnailSvg (strokes : list Stroke) (width height : number)
  : string :=
  match strokes with
  | [] => EmptyString
  | _ =>
      let topStrokes := firstn 10 strokes in
      "<svg xmlns=" ++ dq ++ "http://www.w3.org/2000/svg" ++ dq
      ++ " viewBox=" ++ dq ++ Thumbnail.viewBox topStrokes width height ++ dq
      ++ " width=" ++ dq ++ "100%" ++ dq ++ " height=" ++ dq ++ "100%" ++ dq
      ++ "><rect width=" ++ dq ++ "100%" ++ dq ++ " height=" ++ dq ++ "100%"
      ++ dq ++ " fill=" ++ dq ++ "#ffffff" ++ dq ++ " />"
      ++ join EmptyString (map Thumbnail.renderStroke topStrokes) ++ "</svg>"
  end.

(** The point with another pressure reading. *)
Definition repressure (f : Point -> number) (pt : Point) : Point :=
  Point.mk (Point.x pt) (Point.y pt) (f pt).

(** *** Vocabulary for the geometry of selection *)

Definition numericPoint (pt : Point) : bool :=
  numeric (Point.x pt) && numeric (Point.y pt).

Definition boxNumeric (bb : BoundingBox) : bool :=
  numeric (BoundingBox.minX bb) && numeric (BoundingBox.minY bb)
  && numeric (BoundingBox.maxX bb) && numeric (BoundingBox.maxY bb).

(** The point lies in the box, borders included. *)
Definition boxCovers (bb : BoundingBox) (pt : Point) : bool :=
  (BoundingBox.minX bb <=? Point.x pt)%float
  && (Point.x pt <=? BoundingBox.maxX bb)%float
  && (BoundingBox.minY bb <=? Point.y pt)%float
  && (Point.y pt <=? BoundingBox.maxY bb)%float.

(** [v] lies between [a] and [b], whichever of the two is the smaller. *)
Definition between (a b v : number) : bool :=
  ((a <=? v)%float && (v <=? b)%float) || ((b <=? v)%float && (v <=? a)%float).

(** The point lies in the rectangle spanned by the two corners. *)
Definition inRect (rect : SelectionRect) (pt : Point) : bool :=
  between (SelectionRect.x1 rect) (SelectionRect.x2 rect) (Point.x pt)
  && between (SelectionRect.y1 rect) (SelectionRect.y2 rect) (Point.y pt).

End drawingUtils.

(** ** The numbers in the emitted SVG

    The amended reading of the formatting claim, written down on its own:
    the text of each generator as a sequence of pieces, every number in it
    marked with the format it is written in.  The generators above are
    compared with it. *)

Module SvgNumbers.
Import drawingUtils.

Inductive Piece :=
| Text (s : string)
| Fixed (digits : nat) (v : number)
| Plain (v : number).

(** A piece of text is copied as it is; [Fixed d v] is [v.toFixed(d)];
    [Plain v] is [v] in the default number format of a template literal. *)
Definition render (p : Piece) : string :=
  match p with
  | Text s => s
  | Fixed digits v => toFixed digits v
  | Plain v => numToString v
  end.

Fixpoint emit (pieces : list Piece) : string :=
  match pieces with
  | [] => EmptyString
  | p :: rest => render p ++ emit rest
  end.

(** Groups of pieces with a separator between them. *)
Fixpoint joinPieces (sep : string) (groups : list (list Piece)) : list Piece :=
  match groups with
  | [] => []
  | [g] => g
  | g :: rest => (g ++ Text sep :: joinPieces sep rest)%list
  end.

(** One segment of a marker stroke: the four coordinates with [digits]
    decimals, the stroke width in the default format. *)
Definition linePieces (digits : nat) (s : Stroke) (pt next : Point)
  : list Piece :=
  [Text ("<line x1=" ++ dq); Fixed digits (Point.x pt);
   Text (dq ++ " y1=" ++ dq); Fixed digits (Point.y pt);
   Text (dq ++ " x2=" ++ dq); Fixed digits (Point.x next);
   Text (dq ++ " y2=" ++ dq); Fixed digits (Point.y next);
   Text (dq ++ " stroke=" ++ dq); Text (Stroke.color s);
   Text (dq ++ " stroke-width=" ++ dq); Plain (Stroke.strokeWidth s);
   Text (dq ++ " stroke-linecap=" ++ dq ++ "round" ++ dq
         ++ " opacity=" ++ dq ++ "0.5" ++ dq ++ " />")].

(** Any other stroke: the cached path data as it is, the stroke width in the
    default format. *)
Definition pathPieces (s : Stroke) (closing : string) : list Piece :=
  [Text ("<path d=" ++ dq); Text (Stroke.pathData s);
   Text (dq ++ " stroke=" ++ dq); Text (Stroke.color s);
   Text (dq ++ " stroke-width=" ++ dq); Plain (Stroke.strokeWidth s);
   Text (dq ++ " fill=" ++ dq ++ "none" ++ dq
         ++ " stroke-linecap=" ++ dq ++ "round" ++ dq
         ++ " stroke-linejoin=" ++ dq ++ "round" ++ dq ++ closing)].

(** A marker stroke of two points or more is written segment by segment. *)
Definition inSegments (s : Stroke) : bool :=
  isMarker s && (1 <? List.length (Stroke.points s))%nat.

Definition exportStroke (s : Stroke) : list Piece :=
  if inSegments s then
    joinPieces (nl ++ "    ") (mapAdjacent (linePieces 2 s) (Stroke.points s))
  else
    pathPieces s
      ((if isMarker s then " opacity=" ++ dq ++ "0.5" ++ dq else EmptyString)
       ++ " />").

Definition exportPieces (strokes : list Stroke) (width height : number)
  : list Piece :=
  Text ("<?xml version=" ++ dq ++ "1.0" ++ dq ++ " encoding=" ++ dq ++ "utf-8"
        ++ dq ++ "?>" ++ nl ++ "<svg xmlns=" ++ dq
        ++ "http://www.w3.org/2000/svg" ++ dq ++ " viewBox=" ++ dq ++ "0 0 ")
  :: Plain width :: Text " " :: Plain height
  :: Text (dq ++ " width=" ++ dq) :: Plain width
  :: Text (dq ++ " height=" ++ dq) :: Plain height
  :: Text (dq ++ ">" ++ nl ++ "  <rect width=" ++ dq ++ "100%" ++ dq
           ++ " height=" ++ dq ++ "100%" ++ dq ++ " fill=" ++ dq ++ "#ffffff"
           ++ dq ++ " />" ++ nl ++ "  ")
  :: (joinPieces (nl ++ "  ") (map exportStroke strokes)
      ++ [Text (nl ++ "</svg>")])%list.

Definition thumbnailStroke (s : Stroke) : list Piece :=
  if inSegments s then
    joinPieces " " (mapAdjacent (linePieces 1 s) (Stroke.points s))
  else
    pathPieces s
      (" " ++ (if isMarker s then "opacity=" ++ dq ++ "0.5" ++ dq
               else EmptyString) ++ " />").

(** The view box of a thumbnail: the padded union of the bounding boxes
    with one decimal, or the canvas size in the default format when there
    is no box to show. *)
Definition viewBoxPieces (topStrokes : list Stroke) (width height : number)
  : list Piece :=
  let allBB :=
    fold_left Thumbnail.unionBox topStrokes
      (BoundingBox.mk infinity infinity neg_infinity neg_infinity) in
  if negb (Thumbnail.isPlusInfinity (BoundingBox.minX allBB)) then
    [Fixed 1 (BoundingBox.minX allBB - 20)%float; Text " ";
     Fixed 1 (BoundingBox.minY allBB - 20)%float; Text " ";
     Fixed 1 (Math_max 10%float
                (BoundingBox.maxX allBB - BoundingBox.minX allBB + 20 * 2)%float);
     Text " ";
     Fixed 1 (Math_max 10%float
                (BoundingBox.maxY allBB - BoundingBox.minY allBB + 20 * 2)%float)]
  else [Text "0 0 "; Plain width; Text " "; Plain height].

Definition thumbnailPieces (strokes : list Stroke) (width height : number)
  : list Piece :=
  match strokes with
  | [] => []
  | _ =>
      (Text ("<svg xmlns=" ++ dq ++ "http://www.w3.org/2000/svg" ++ dq
             ++ " viewBox=" ++ dq)
       :: viewBoxPieces (firstn 10 strokes) width height
       ++ Text (dq ++ " width=" ++ dq ++ "100%" ++ dq ++ " height=" ++ dq
                ++ "100%" ++ dq ++ "><rect width=" ++ dq ++ "100%" ++ dq
                ++ " height=" ++ dq ++ "100%" ++ dq ++ " fill=" ++ dq
                ++ "#ffffff" ++ dq ++ " />")
       :: List.concat (map thumbnailStroke (firstn 10 strokes))
       ++ [Text "</svg>"])%list
  end.

End SvgNumbers.

(** ** hooks/useSketchpad.ts *)

Module useSketchpad.
Import drawingUtils.

(** The hook's [useState] cells. *)
Record State := mkState {
  strokes : list Stroke;
  undoStack : list (list Stroke);
  redoStack : list (list Stroke);
  currentStroke : option Stroke;
  currentTool : BrushType;
  currentColor : string;
  currentWidth : number;
  selection : list string;
  focusedId : option string;
  isDirty : bool
}.

(** The values given to [useState]. *)
Definition initialState : State :=
  mkState [] [] [] None pen "#000000" 5%float [] None false.

(** *** The state setters *)

Definition setStrokes (v : list Stroke) (st : State) : State :=
  mkState v (undoStack st) (redoStack st) (currentStroke st) (currentTool st)
    (currentColor st) (currentWidth st) (selection st) (focusedId st)
    (isDirty st).
Definition setUndoStack (v : list (list Stroke)) (st : State) : State :=
  mkState (strokes st) v (redoStack st) (currentStroke st) (currentTool st)
    (currentColor st) (currentWidth st) (selection st) (focusedId st)
    (isDirty st).
Definition setRedoStack (v : list (list Stroke)) (st : State) : State :=
  mkState (strokes st) (undoStack st) v (currentStroke st) (currentTool st)
    (currentColor st) (currentWidth st) (selection st) (focusedId st)
    (isDirty st).
Definition setCurrentStroke (v : option Stroke) (st : State) : State :=
  mkState (strokes st) (undoStack st) (redoStack st) v (currentTool st)
    (currentColor st) (currentWidth st) (selection st) (focusedId st)
    (isDirty st).
Definition setCurrentTool (v : BrushType) (st : State) : State :=
  mkState (strokes st) (undoStack st) (redoStack st) (currentStroke st) v
    (currentColor st) (currentWidth st) (selection st) (focusedId st)
    (isDirty st).
Definition setCurrentColor (v : string) (st : State) : State :=
  mkState (strokes st) (undoStack st) (redoStack st) (currentStroke st)
    (currentTool st) v (currentWidth st) (selection st) (focusedId st)
    (isDirty st).
Definition setCurrentWidth (v : number) (st : State) : State :=
  mkState (strokes st) (undoStack st) (redoStack st) (currentStroke st)
    (currentTool st) (currentColor st) v (selection st) (focusedId st)
    (isDirty st).
Definition setSelection (v : list string) (st : State) : State :=
  mkState (strokes st) (undoStack st) (redoStack st) (currentStroke st)
    (currentTool st) (currentColor st) (currentWidth st) v (focusedId st)
    (isDirty st).
Definition setFocusedId (v : option string) (st : State) : State :=
  mkState (strokes st) (undoStack st) (redoStack st) (currentStroke st)
    (currentTool st) (currentColor st) (currentWidth st) (selection st) v
    (isDirty st).
Definition setIsDirty (v : bool) (st : State) : State :=
  mkState (strokes st) (undoStack st) (redoStack st) (currentStroke st)
    (currentTool st) (currentColor st) (currentWidth st) (selection st)
    (focusedId st) v.

Definition markClean : State -> State := setIsDirty false.
Definition markDirty : State -> State := setIsDirty true.

(** *** The callbacks *)

Definition loadStrokes (newStrokes : list Stroke) (st : State) : State :=
  setIsDirty false
    (setCurrentStroke None
      (setFocusedId None
        (setSelection []
          (setRedoStack []
            (setUndoStack []
              (setStrokes newStrokes st)))))).

Definition saveStateToUndo (currentStrokes : list Stroke) (st : State) : State :=
  markDirty
    (setRedoStack []
      (setUndoStack (sliceLast 50 (undoStack st ++ [currentStrokes])%list) st)).

(** [nanoid()] is an input: the caller supplies the fresh id. *)
Definition startDrawing (newId : string) (point : Point) (st : State) : State :=
  match currentTool st with
  | eraser | select => st
  | tool =>
      let newStroke :=
        Stroke.mk newId [point] (currentColor st)
          (if BrushType_eqb tool calligraphy
           then (currentWidth st * 1.5)%float else currentWidth st)
          tool
          (getSvgPathFromPoints [point]) in
      setCurrentStroke (Some newStroke) st
  end.

Definition continueDrawing (point : Point) (st : State) : State :=
  match currentStroke st with
  | None => st
  | Some prev =>
      let newPoints := (Stroke.points prev ++ [point])%list in
      setCurrentStroke
        (Some (Stroke.mk (Stroke.id prev) newPoints (Stroke.color prev)
                 (Stroke.strokeWidth prev) (Stroke.brushType prev)
                 (getSvgPathFromPoints newPoints)))
        st
  end.

Definition endDrawing (st : State) : State :=
  match currentStroke st with
  | Some prev =>
      if (0 <? List.length (Stroke.points prev))%nat then
        let s := strokes st in
        let next := (s ++ [prev])%list in
        setCurrentStroke None (setStrokes next (saveStateToUndo s st))
      else setCurrentStroke None st
  | None => setCurrentStroke None st
  end.

Definition undo (st : State) : State :=
  let prev := undoStack st in
  if (List.length prev =? 0)%nat then st
  else
    let previousState := List.last prev [] in
    setUndoStack (sliceInit prev)
      (markDirty
        (setFocusedId None
          (setSelection []
            (setStrokes previousState
              (setRedoStack (redoStack st ++ [strokes st])%list st))))).

Definition redo (st : State) : State :=
  let prev := redoStack st in
  if (List.length prev =? 0)%nat then st
  else
    let nextState := List.last prev [] in
    setRedoStack (sliceInit prev)
      (markDirty
        (setFocusedId None
          (setSelection []
            (setStrokes nextState
              (setUndoStack (undoStack st ++ [strokes st])%list st))))).

Definition clear (st : State) : State :=
  if (List.length (strokes st) =? 0)%nat then st
  else
    setFocusedId None
      (setSelection [] (setStrokes [] (saveStateToUndo (strokes st) st))).

Definition removeStroke (id : string) (st : State) : State :=
  let st1 := saveStateToUndo (strokes st) st in
  let st2 :=
    setStrokes
      (filter (fun s => negb (String.eqb (Stroke.id s) id)) (strokes st1)) st1 in
  let st3 :=
    setSelection
      (filter (fun sId => negb (String.eqb sId id)) (selection st2)) st2 in
  setFocusedId
    (match focusedId st3 with
     | Some prev => if String.eqb prev id then None else Some prev
     | None => None
     end)
    st3.

Definition toggleSelection (id : string) (st : State) : State :=
  let prev := selection st in
  let st1 :=
    setSelection
      (if includes id prev
       then filter (fun sId => negb (String.eqb sId id)) prev
       else (prev ++ [id])%list)
      st in
  setFocusedId
    (match focusedId st1 with
     | Some prev => if String.eqb prev id then None else Some prev
     | None => None
     end)
    st1.

Definition clearSelection (st : State) : State :=
  setFocusedId None (setSelection [] st).

Definition selectAll (st : State) : State :=
  setSelection (map Stroke.id (strokes st)) st.

Definition deleteSelected (st : State) : State :=
  if (List.length (selection st) =? 0)%nat then st
  else
    let st1 := saveStateToUndo (strokes st) st in
    setFocusedId None
      (setSelection []
        (setStrokes
          (filter (fun s => negb (includes (Stroke.id s) (selection st)))
             (strokes st1))
          st1)).

Definition selectByRect (rect : SelectionRect) (st : State) : State :=
  let selectedIds := map Stroke.id (filter (boxMeetsRect rect) (strokes st)) in
  setFocusedId None (setSelection selectedIds st).

Definition toggleFocused (id : string) (st : State) : State :=
  setFocusedId
    (match focusedId st with
     | Some prev => if String.eqb prev id then None else Some id
     | None => Some id
     end)
    st.

Definition canUndo (st : State) : bool := (0 <? List.length (undoStack st))%nat.
Definition canRedo (st : State) : bool := (0 <? List.length (redoStack st))%nat.

(** *** The hook's interface as a transition system *)

Inductive Op :=
| OpSetCurrentTool (tool : BrushType)
| OpSetCurrentColor (c : string)
| OpSetCurrentWidth (w : number)
| OpSetFocusedId (v : option string)
| OpStartDrawing (newId : string) (point : Point)
| OpContinueDrawing (point : Point)
| OpEndDrawing
| OpUndo
| OpRedo
| OpClear
| OpRemoveStroke (id : string)
| OpToggleSelection (id : string)
| OpToggleFocused (id : string)
| OpClearSelection
| OpDeleteSelected
| OpSelectAll
| OpSelectByRect (rect : SelectionRect)
| OpLoadStrokes (newStrokes : list Stroke)
| OpMarkClean.

Definition step (op : Op) (st : State) : State :=
  match op with
  | OpSetCurrentTool tool => setCurrentTool tool st
  | OpSetCurrentColor c => setCurrentColor c st
  | OpSetCurrentWidth w => setCurrentWidth w st
  | OpSetFocusedId v => setFocusedId v st
  | OpStartDrawing newId point => startDrawing newId point st
  | OpContinueDrawing point => continueDrawing point st
  | OpEndDrawing => endDrawing st
  | OpUndo => undo st
  | OpRedo => redo st
  | OpClear => clear st
  | OpRemoveStroke id => removeStroke id st
  | OpToggleSelection id => toggleSelection id st
  | OpToggleFocused id => toggleFocused id st
  | OpClearSelection => clearSelection st
  | OpDeleteSelected => deleteSelected st
  | OpSelectAll => selectAll st
  | OpSelectByRect rect => selectByRect rect st
  | OpLoadStrokes newStrokes => loadStrokes newStrokes st
  | OpMarkClean => markClean st
  end.

(** The state after the operations [ops], applied first to last. *)
Definition run (ops : list Op) (st : State) : State :=
  fold_left (fun s op => step op s) ops st.

(** [n] applications of a callback. *)
Fixpoint times (n : nat) (f : State -> State) (st : State) : State :=
  match n with
  | O => st
  | S n' => times n' f (f st)
  end.

(** One pen-down / move / pen-up gesture: the stroke is started with the
    fresh id [newId] at [first], extended through [rest], and committed. *)
Record Gesture := mkGesture {
  newId : string;
  first : Point;
  rest : list Point
}.

Definition draw (g : Gesture) (st : State) : State :=
  endDrawing
    (fold_left (fun s p => continueDrawing p s) (rest g)
       (startDrawing (newId g) (first g) st)).

Definition drawAll (gs : list Gesture) (st : State) : State :=
  fold_left (fun s g => draw g s) gs st.

(** The test [prev.points.length > 0] of [endDrawing]. *)
Definition hasPoints (s : Stroke) : bool :=
  (0 <? List.length (Stroke.points s))%nat.

(** A commit: [endDrawing] called while the stroke [s] is in progress. *)
Definition commit (s : Stroke) (st : State) : State :=
  endDrawing (setCurrentStroke (Some s) st).

Definition commitAll (ss : list Stroke) (st : State) : State :=
  fold_left (fun a s => commit s a) ss st.

Definition isDrawingTool (tool : BrushType) : bool :=
  match tool with
  | pen | marker | calligraphy => true
  | eraser | select => false
  end.

(** *** The history manager on its own *)

(** [HRecord] is [saveStateToUndo], which the callbacks call before they
    change the strokes. *)
Inductive HistoryOp :=
| HRecord (snapshot : list Stroke)
| HUndo
| HRedo.

Definition historyStep (op : HistoryOp) (st : State) : State :=
  match op with
  | HRecord snapshot => saveStateToUndo snapshot st
  | HUndo => undo st
  | HRedo => redo st
  end.

Definition runHistory (ops : list HistoryOp) (st : State) : State :=
  fold_left (fun s op => historyStep op s) ops st.

(** *** Invariants *)

(** The two stacks together hold at most 50 snapshots. *)
Definition historyBounded (st : State) : Prop :=
  List.length (undoStack st) + List.length (redoStack st) <= 50.

Definition strokeIds (st : State) : list string := map Stroke.id (strokes st).

(** Every selected id and the focused id name a stroke of the document. *)
Definition wellReferenced (st : State) : Prop :=
  (forall id, In id (selection st) -> In id (strokeIds st))
  /\ (forall id, focusedId st = Some id -> In id (strokeIds st)).

(** The ids handed to the selection and focus callbacks name strokes of
    the document, as they do when they come from a hit test on the current
    strokes or from the selection panel. *)
Definition idsPresent (op : Op) (st : State) : Prop :=
  match op with
  | OpToggleSelection id | OpToggleFocused id | OpSetFocusedId (Some id) =>
      In id (strokeIds st)
  | _ => True
  end.

Fixpoint runsOnPresentIds (ops : list Op) (st : State) : Prop :=
  match ops with
  | [] => True
  | op :: rest => idsPresent op st /\ runsOnPresentIds rest (step op st)
  end.

(** *** Well-formed strokes *)

(** A stroke as the drawing callbacks build it: at least one point, the
    brush of a drawing tool, and path data computed from its points. *)
Definition wellFormed (s : Stroke) : Prop :=
  hasPoints s = true
  /\ isDrawingTool (Stroke.brushType s) = true
  /\ Stroke.pathData s = getSvgPathFromPoints (Stroke.points s).

Definition documentWellFormed (st : State) : Prop :=
  Forall wellFormed (strokes st)
  /\ Forall (Forall wellFormed) (undoStack st)
  /\ Forall (Forall wellFormed) (redoStack st)
  /\ (forall s, currentStroke st = Some s -> wellFormed s).

(** The strokes handed to [loadStrokes] are well-formed. *)
Definition loadsWellFormed (op : Op) : Prop :=
  match op with
  | OpLoadStrokes newStrokes => Forall wellFormed newStrokes
  | _ => True
  end.

End useSketchpad.

(** ** screens/SketchScreen.tsx *)

Module SketchScreen.

Definition DRAG_THRESHOLD : number := 5%float.

(** [Math.sqrt((pt.x - x) ** 2 + (pt.y - y) ** 2)] *)
Definition distanceTo (x y : number) (pt : Point) : number :=
  Math_sqrt (square (Point.x pt - x) + square (Point.y pt - y))%float.

(** The loop state: [bestId] and [bestDist]. *)
Definition Best := (option string * number)%type.

(** The body of the inner loop. *)
Definition visitPoint (x y : number) (strokeId : string) (best : Best)
  (pt : Point) : Best :=
  let d := distanceTo x y pt in
  if (d <? snd best)%float then (Some strokeId, d) else best.

(** The inner loop, over the points of one stroke. *)
Definition visitStroke (x y : number) (best : Best) (stroke : Stroke) : Best :=
  fold_left (visitPoint x y (Stroke.id stroke)) (Stroke.points stroke) best.

Definition findNearestStrokeId (x y : number) (strokes : list Stroke)
  (radius : number) : option string :=
  fst (fold_left (visitStroke x y) strokes (None, radius)).

(** Every point of every stroke, in iteration order, with the id of its
    stroke and its computed distance to the query point. *)
Definition candidates (x y : number) (strokes : list Stroke)
  : list (string * number) :=
  flat_map
    (fun s => map (fun pt => (Stroke.id s, distanceTo x y pt)) (Stroke.points s))
    strokes.

(** The two loops as one pass over the candidates. *)
Definition scan (best : Best) (cands : list (string * number)) : Best :=
  fold_left
    (fun b c => if (snd c <? snd b)%float then (Some (fst c), snd c) else b)
    cands best.

(** Every point of every stroke with the id of its stroke, in document
    order: the strokes as they stand in the array, the points of each in
    the order they were drawn. *)
Definition pointsInOrder (strokes : list Stroke) : list (string * Point) :=
  flat_map (fun s => map (fun pt => (Stroke.id s, pt)) (Stroke.points s)) strokes.

(** *** Distances in exact arithmetic

    The value of a finite double as a fraction, and the square of the
    distance between two positions computed on fractions, without any
    rounding. *)

Definition exact (v : number) : option Frac :=
  match Prim2SF v with
  | S754_zero _ => Some (0, 1)%Z
  | S754_finite false m e => Some (dyadic (Zpos m) e)
  | S754_finite true m e => Some (dyadic (Zneg m) e)
  | _ => None
  end.

Definition fracAdd (p q : Frac) : Frac :=
  (fst p * snd q + fst q * snd p, snd p * snd q)%Z.
Definition fracSub (p q : Frac) : Frac :=
  (fst p * snd q - fst q * snd p, snd p * snd q)%Z.

Definition exactSquaredDistance (x y : number) (pt : Point) : option Frac :=
  match exact (Point.x pt), exact (Point.y pt), exact x, exact y with
  | Some px, Some py, Some qx, Some qy =>
      let dx := fracSub px qx in
      let dy := fracSub py qy in
      Some (fracAdd (fracMul dx dx) (fracMul dy dy))
  | _, _, _, _ => None
  end.

End SketchScreen.

(** ** components/SkiaCanvas.tsx *)

Module SkiaCanvas.

Definition SELECTION_COLOR : string := "#FF8C00".
Definition FOCUSED_COLOR : string := "#00CFFF".

(** The Skia elements the stroke components return. *)
Inductive Element :=
| Path (path : string) (strokeWidth : number) (color : string)
    (opacity : option number) (dashIntervals : option (list number))
| Line (p1 p2 : number * number) (color : string) (strokeWidth : number)
| Group (opacity : option number) (children : list Element).

Definition vec (x y : number) : number * number := (x, y).

Definition MarkerStroke (stroke : Stroke) (isSelected isFocused : bool)
  : Element :=
  let highlightColor := if isFocused then FOCUSED_COLOR else SELECTION_COLOR in
  Group None
    ((if isSelected && (1 <? List.length (Stroke.points stroke))%nat
      then [Path (Stroke.pathData stroke) (Stroke.strokeWidth stroke + 6)%float
              highlightColor (Some 0.6%float) (Some [4%float; 4%float])]
      else [])
     ++ [Group (Some 0.5%float)
           [Path (Stroke.pathData stroke) (Stroke.strokeWidth stroke)
              (Stroke.color stroke) None None]])%list.

(** One calligraphy segment: the callback of
    [stroke.points.slice(0, -1).map((pt, i) => ...)]. *)
Definition calligraphySegment (stroke : Stroke) (pt next : Point) : Element :=
  let avgPressure := ((Point.pressure pt + Point.pressure next) / 2)%float in
  let w := Math_max 1%float (Stroke.strokeWidth stroke * avgPressure * 1.5)%float in
  Line (vec (Point.x pt) (Point.y pt)) (vec (Point.x next) (Point.y next))
    (Stroke.color stroke) w.

Definition RegularStroke (stroke : Stroke) (isSelected isFocused : bool)
  : Element :=
  let highlightColor := if isFocused then FOCUSED_COLOR else SELECTION_COLOR in
  let isCalligraphy := BrushType_eqb (Stroke.brushType stroke) calligraphy in
  Group None
    ((if isSelected
      then [Path (Stroke.pathData stroke) (Stroke.strokeWidth stroke + 4)%float
              highlightColor (Some 0.6%float) (Some [4%float; 4%float])]
      else [])
     ++ (if isCalligraphy && (1 <? List.length (Stroke.points stroke))%nat
         then mapAdjacent (calligraphySegment stroke) (Stroke.points stroke)
         else [Path (Stroke.pathData stroke) (Stroke.strokeWidth stroke)
                 (Stroke.color stroke) None None]))%list.

(** [renderStroke] of the [SkiaCanvas] component. *)
Definition renderStroke (selection : list string) (focusedId : option string)
  (stroke : Stroke) (isCurrent : bool) : Element :=
  let isSelected := negb isCurrent && includes (Stroke.id stroke) selection in
  let isFocused :=
    negb isCurrent
    && match focusedId with
       | Some f => String.eqb f (Stroke.id stroke)
       | None => false
       end in
  if BrushType_eqb (Stroke.brushType stroke) marker
  then MarkerStroke stroke isSelected isFocused
  else RegularStroke stroke isSelected isFocused.

Definition onlyLineWidth (c : Element) : list number :=
  match c with
  | Line _ _ _ w => [w]
  | _ => []
  end.

(** The stroke widths of the [Line] segments of an element, in order. *)
Definition lineWidths (e : Element) : list number :=
  match e with
  | Group _ children => flat_map onlyLineWidth children
  | _ => onlyLineWidth e
  end.

(** The segment width as the specification words it: the base width times
    the average pressure of the pair times 1.5, and at least 1. *)
Definition segmentWidth (strokeWidth : number) (pt next : Point) : number :=
  Math_max 1%float
    (strokeWidth * ((Point.pressure pt + Point.pressure next) / 2) * 1.5)%float.

(** The same stroke with other pressure readings at its points. *)
Definition withPressures (f : Point -> number) (stroke : Stroke) : Stroke :=
  Stroke.mk (Stroke.id stroke)
    (map (fun pt => Point.mk (Point.x pt) (Point.y pt) (f pt))
       (Stroke.points stroke))
    (Stroke.color stroke) (Stroke.strokeWidth stroke)
    (Stroke.brushType stroke) (Stroke.pathData stroke).

End SkiaCanvas.

(** ** hooks/useDrawingStorage.ts *)

Module useDrawingStorage.

Module Drawing.
Record t := mk {
  id : string;
  name : string;
  strokes : list Stroke;
  canvasWidth : number;
  canvasHeight : number;
  thumbnailSvg : string;
  createdAt : string;
  updatedAt : string
}.
End Drawing.
Abbreviation Drawing := Drawing.t.

Definition DRAWINGS_INDEX_KEY : string := "drawings_index".
Definition DRAWING_PREFIX : string := "drawing_".

(** The outcome of an awaited call or of [JSON.parse]: a value, or a thrown
    exception (a rejected promise, a [SyntaxError]). *)
Inductive Outcome (A : Type) :=
| Returned (a : A)
| Thrown (e : string).
Arguments Returned {A} a.
Arguments Thrown {A} e.

Definition bind {A B} (c : Outcome A) (k : A -> Outcome B) : Outcome B :=
  match c with
  | Returned a => k a
  | Thrown e => Thrown e
  end.

Notation "x <- c ;; k" := (bind c (fun x => k))
  (at level 61, c at next level, right associativity).

(** The truthiness test [if (json)] on a [string | null]: a missing record
    and an empty one are both skipped. *)
Definition present (json : option string) : option string :=
  match json with
  | Some s => if (String.length s =? 0)%nat then None else Some s
  | None => None
  end.

(** The hook's [useState] cells. *)
Record State := mkState {
  drawings : list Drawing;
  isLoading : bool;
  error : option string
}.

Definition initialState : State := mkState [] false None.

Definition setDrawings (v : list Drawing) (st : State) : State :=
  mkState v (isLoading st) (error st).
Definition setIsLoading (v : bool) (st : State) : State :=
  mkState (drawings st) v (error st).
Definition setError (v : option string) (st : State) : State :=
  mkState (drawings st) (isLoading st) v.

Section Loader.
(** The collaborators of the loader: the key-value store, the JSON decoder
    at the two types it is used at, and the array sort with the
    [updatedAt]-descending comparator. *)
Variable getItem : string -> Outcome (option string).
Variable parseIds : string -> Outcome (list string).
Variable parseDrawing : string -> Outcome Drawing.
Variable sortByUpdatedAtDesc : list Drawing -> list Drawing.

(** [{ ...drawing, strokes: [] }] *)
Definition withoutStrokes (d : Drawing) : Drawing :=
  Drawing.mk (Drawing.id d) (Drawing.name d) [] (Drawing.canvasWidth d)
    (Drawing.canvasHeight d) (Drawing.thumbnailSvg d) (Drawing.createdAt d)
    (Drawing.updatedAt d).

(** The loop [for (const id of ids)]. *)
Fixpoint loadEach (ids : list string) (loadedDrawings : list Drawing)
  : Outcome (list Drawing) :=
  match ids with
  | [] => Returned loadedDrawings
  | id :: rest =>
      drawingJson <- getItem (DRAWING_PREFIX ++ id) ;;
      match present drawingJson with
      | Some json =>
          drawing <- parseDrawing json ;;
          loadEach rest (loadedDrawings ++ [withoutStrokes drawing])%list
      | None => loadEach rest loadedDrawings
      end
  end.

(** The [try] block. *)
Definition tryLoad (st : State) : Outcome State :=
  indexJson <- getItem DRAWINGS_INDEX_KEY ;;
  match present indexJson with
  | None => Returned (setDrawings [] st)
  | Some json =>
      ids <- parseIds json ;;
      loadedDrawings <- loadEach ids [] ;;
      Returned (setDrawings (sortByUpdatedAtDesc loadedDrawings) st)
  end.

Definition loadDrawings (st : State) : State :=
  let st1 := setError None (setIsLoading true st) in
  let st2 :=
    match tryLoad st1 with
    | Returned st' => st'
    | Thrown _ => setError (Some "Erreur lors du chargement des dessins") st1
    end in
  setIsLoading false st2.

End Loader.

(** *** AsyncStorage

    The store of the device: the items it holds, and the outcomes of the
    calls to come.  Every awaited call takes the next outcome off the
    schedule: [None] lets it resolve; [Some e] makes it reject with [e],
    leaving the items as they are.  Once the schedule is used up, calls
    resolve.  [JSON.stringify] and [JSON.parse] are parameters at the two
    types they are used at; [nanoid()] and [new Date().toISOString()] are
    inputs. *)

Record Store := mkStore {
  items : string -> option string;
  schedule : list (option string)
}.

Definition emptyStore : Store := mkStore (fun _ => None) [].

(** The outcome of the next call, and the store once that call is over
    without having changed an item. *)
Definition outcome (store : Store) : option string := hd None (schedule store).
Definition advance (store : Store) : Store :=
  mkStore (items store) (tl (schedule store)).

Definition getItem (key : string) (store : Store)
  : Store * Outcome (option string) :=
  match outcome store with
  | Some e => (advance store, Thrown e)
  | None => (advance store, Returned (items store key))
  end.

Definition setItem (key value : string) (store : Store) : Store * Outcome unit :=
  match outcome store with
  | Some e => (advance store, Thrown e)
  | None =>
      (mkStore (fun k => if String.eqb k key then Some value else items store k)
         (tl (schedule store)),
       Returned tt)
  end.

Definition removeItem (key : string) (store : Store) : Store * Outcome unit :=
  match outcome store with
  | Some e => (advance store, Thrown e)
  | None =>
      (mkStore (fun k => if String.eqb k key then None else items store k)
         (tl (schedule store)),
       Returned tt)
  end.

(** The next [n] calls resolve. *)
Definition resolves (n : nat) (store : Store) : bool :=
  forallb (fun o => match o with
                    | None => true
                    | Some _ => false
                    end)
    (firstn n (schedule store)).

(** *** The hook over the store

    The store together with the hook's state, and the asynchronous
    callbacks as functions of both: a callback ends by returning a value or
    by throwing, which rejects its promise. *)

Record World := mkWorld {
  storage : Store;
  hook : State
}.

Definition Task (A : Type) := World -> World * Outcome A.

Definition ret {A} (a : A) : Task A := fun w => (w, Returned a).

Definition andThen {A B} (c : Task A) (k : A -> Task B) : Task B :=
  fun w =>
    match c w with
    | (w', Returned a) => k a w'
    | (w', Thrown e) => (w', Thrown e)
    end.

Notation "x <~ c ;; k" := (andThen c (fun x => k))
  (at level 61, c at next level, right associativity).

(** [await AsyncStorage.call(...)] *)
Definition await {A} (call : Store -> Store * Outcome A) : Task A :=
  fun w =>
    match call (storage w) with
    | (store, r) => (mkWorld store (hook w), r)
    end.

(** An expression that may throw: [JSON.parse(...)]. *)
Definition evaluate {A} (r : Outcome A) : Task A := fun w => (w, r).

(** A call of a state setter with an updater function. *)
Definition update (f : State -> State) : Task unit :=
  fun w => (mkWorld (storage w) (f (hook w)), Returned tt).

(** [try { ... } catch (e) { console.error(e) }] around a whole callback. *)
Definition swallowing (c : Task unit) (w : World) : World := fst (c w).

Section Persistence.
Variable stringifyDrawing : Drawing -> string.
Variable parseDrawing : string -> Outcome Drawing.
Variable stringifyIds : list string -> string.
Variable parseIds : string -> Outcome (list string).
Variable sortByUpdatedAtDesc : list Drawing -> list Drawing.

(** [indexJson ? JSON.parse(indexJson) : []] *)
Definition idsOf (indexJson : option string) : Outcome (list string) :=
  match present indexJson with
  | Some json => parseIds json
  | None => Returned []
  end.

(** The ids the stored index decodes to. *)
Definition readIndex (store : Store) : Outcome (list string) :=
  idsOf (items store DRAWINGS_INDEX_KEY).

(** The world after the call and the drawing it resolves to, [null] when
    there is no record or when the read or the decoding throws. *)
Definition loadDrawingById (id : string) (w : World) : World * option Drawing :=
  match
    (drawingJson <~ await (getItem (DRAWING_PREFIX ++ id)) ;;
     match present drawingJson with
     | None => ret None
     | Some json =>
         drawing <~ evaluate (parseDrawing json) ;;
         ret (Some drawing)
     end) w
  with
  | (w', Returned r) => (w', r)
  | (w', Thrown _) => (w', None)
  end.

(** The record [saveDrawing] builds before its first [await]. *)
Definition recordToSave (newId now : string) (strokes : list Stroke)
  (canvasWidth canvasHeight : number) (name : string)
  (existingId : option string) (w : World) : Drawing :=
  let id := match present existingId with
            | Some e => e
            | None => newId
            end in
  let createdAt :=
    match present existingId with
    | Some e =>
        match find (fun d => String.eqb (Drawing.id d) e) (drawings (hook w)) with
        | Some d =>
            match present (Some (Drawing.createdAt d)) with
            | Some c => c
            | None => now
            end
        | None => now
        end
    | None => now
    end in
  Drawing.mk id name strokes canvasWidth canvasHeight
    (drawingUtils.generateThumbnailSvg strokes canvasWidth canvasHeight)
    createdAt now.

(** The callback has no handler: a rejected store call or an index that
    does not decode rejects the promise at that point. *)
Definition saveDrawing (newId now : string) (strokes : list Stroke)
  (canvasWidth canvasHeight : number) (name : string)
  (existingId : option string) : Task string :=
  fun w =>
    let drawing :=
      recordToSave newId now strokes canvasWidth canvasHeight name existingId w in
    let id := Drawing.id drawing in
    (_ <~ await (setItem (DRAWING_PREFIX ++ id) (stringifyDrawing drawing)) ;;
     indexJson <~ await (getItem DRAWINGS_INDEX_KEY) ;;
     ids <~ evaluate (idsOf indexJson) ;;
     _ <~ (if includes id ids then ret tt
           else await (setItem DRAWINGS_INDEX_KEY
                         (stringifyIds (ids ++ [id])%list))) ;;
     _ <~ update (fun st =>
                    setDrawings
                      (withoutStrokes drawing
                       :: filter (fun d => negb (String.eqb (Drawing.id d) id))
                            (drawings st))
                      st) ;;
     ret id) w.

Definition deleteDrawing (id : string) : World -> World :=
  swallowing
    (_ <~ await (removeItem (DRAWING_PREFIX ++ id)) ;;
     indexJson <~ await (getItem DRAWINGS_INDEX_KEY) ;;
     ids <~ evaluate (idsOf indexJson) ;;
     _ <~ await (setItem DRAWINGS_INDEX_KEY
                   (stringifyIds
                      (filter (fun i => negb (String.eqb i id)) ids))) ;;
     update (fun st =>
               setDrawings
                 (filter (fun d => negb (String.eqb (Drawing.id d) id))
                    (drawings st))
                 st)).

(** The clock is read after the record has been decoded. *)
Definition renameDrawing (now : string) (id newName : string)
  : World -> World :=
  swallowing
    (drawingJson <~ await (getItem (DRAWING_PREFIX ++ id)) ;;
     match present drawingJson with
     | None => ret tt
     | Some json =>
         drawing <~ evaluate (parseDrawing json) ;;
         _ <~ await (setItem (DRAWING_PREFIX ++ id)
                       (stringifyDrawing
                          (Drawing.mk (Drawing.id drawing) newName
                             (Drawing.strokes drawing)
                             (Drawing.canvasWidth drawing)
                             (Drawing.canvasHeight drawing)
                             (Drawing.thumbnailSvg drawing)
                             (Drawing.createdAt drawing) now))) ;;
         update (fun st =>
                   setDrawings
                     (map (fun d =>
                             if String.eqb (Drawing.id d) id
                             then Drawing.mk (Drawing.id d) newName
                                    (Drawing.strokes d) (Drawing.canvasWidth d)
                                    (Drawing.canvasHeight d)
                                    (Drawing.thumbnailSvg d)
                                    (Drawing.createdAt d) now
                             else d)
                        (drawings st))
                     st)
     end).

(** [loadDrawings] over the store: the loop and the [try] block of the
    loader above, every read taking its outcome off the schedule. *)
Fixpoint loadEachFrom (ids : list string) (loadedDrawings : list Drawing)
  : Task (list Drawing) :=
  match ids with
  | [] => ret loadedDrawings
  | id :: rest =>
      drawingJson <~ await (getItem (DRAWING_PREFIX ++ id)) ;;
      match present drawingJson with
      | Some json =>
          drawing <~ evaluate (parseDrawing json) ;;
          loadEachFrom rest (loadedDrawings ++ [withoutStrokes drawing])%list
      | None => loadEachFrom rest loadedDrawings
      end
  end.

Definition tryLoadFrom : Task unit :=
  indexJson <~ await (getItem DRAWINGS_INDEX_KEY) ;;
  match present indexJson with
  | None => update (setDrawings [])
  | Some json =>
      ids <~ evaluate (parseIds json) ;;
      loadedDrawings <~ loadEachFrom ids [] ;;
      update (setDrawings (sortByUpdatedAtDesc loadedDrawings))
  end.

Definition reload (w : World) : World :=
  let w1 := mkWorld (storage w) (setError None (setIsLoading true (hook w))) in
  let w2 :=
    match tryLoadFrom w1 with
    | (w', Returned _) => w'
    | (w', Thrown _) =>
        mkWorld (storage w')
          (setError (Some "Erreur lors du chargement des dessins") (hook w'))
    end in
  mkWorld (storage w2) (setIsLoading false (hook w2)).

(** The calls of the hook, with the inputs each one takes. *)
Inductive StorageOp :=
| DoLoad
| DoSave (newId now : string) (strokes : list Stroke)
    (canvasWidth canvasHeight : number) (name : string)
    (existingId : option string)
| DoDelete (id : string)
| DoRename (now id newName : string).

Definition perform (op : StorageOp) (w : World) : World :=
  match op with
  | DoLoad => reload w
  | DoSave newId now strokes canvasWidth canvasHeight name existingId =>
      fst (saveDrawing newId now strokes canvasWidth canvasHeight name
             existingId w)
  | DoDelete id => deleteDrawing id w
  | DoRename now id newName => renameDrawing now id newName w
  end.

Definition performAll (ops : list StorageOp) (w : World) : World :=
  fold_left (fun a op => perform op a) ops w.

End Persistence.

(** An entry of the gallery list as [loadDrawings] and [saveDrawing] build
    it: [{ ...drawing, strokes: [] }]. *)
Definition listed (d : Drawing) : Prop := Drawing.strokes d = [].

End useDrawingStorage.

(** ** components/SelectionPanel.tsx *)

Module SelectionPanel.

(** The strokes the panel shows a thumbnail for:
    [strokes.filter(s => selection.includes(s.id))]. *)
Definition selectedStrokes (strokes : list Stroke) (selection : list string)
  : list Stroke :=
  filter (fun s => includes (Stroke.id s) selection) strokes.

(** The panel renders nothing for an empty selection. *)
Definition shown (selection : list string) : bool :=
  negb (List.length selection =? 0)%nat.

End SelectionPanel.

(** ** screens/SketchScreen.tsx: the component *)

Module SketchScreenEvents.
Import useSketchpad SketchScreen.

Record Layout := mkLayout {
  layoutX : number;
  layoutY : number;
  layoutWidth : number;
  layoutHeight : number
}.

Record DragRect := mkDragRect {
  rectX : number;
  rectY : number;
  rectWidth : number;
  rectHeight : number
}.

(** [evt.nativeEvent] *)
Record NativeEvent := mkNativeEvent {
  pageX : number;
  pageY : number;
  force : number
}.

(** The component's state: the hook, the layout of the canvas, and the drag
    state, held both in a ref and in state cells.  The handlers read the
    hook and the layout through refs that every render refreshes; each
    event is taken to find the state the previous event left. *)
Record Screen := mkScreen {
  sketch : State;
  canvasLayout : Layout;
  dragStartRef : option (number * number);
  dragStart : option (number * number);
  dragRect : option DragRect
}.

Definition withSketch (f : State -> State) (scr : Screen) : Screen :=
  mkScreen (f (sketch scr)) (canvasLayout scr) (dragStartRef scr)
    (dragStart scr) (dragRect scr).

Definition withDrag (start : option (number * number)) (rect : option DragRect)
  (scr : Screen) : Screen :=
  mkScreen (sketch scr) (canvasLayout scr) start start rect.

Definition withDragRect (rect : option DragRect) (scr : Screen) : Screen :=
  mkScreen (sketch scr) (canvasLayout scr) (dragStartRef scr) (dragStart scr)
    rect.

(** The truthiness test [if (nearId)] on a [string | null]. *)
Definition truthy (nearId : option string) : option string :=
  match nearId with
  | Some id => if (String.length id =? 0)%nat then None else Some id
  | None => None
  end.

Section Handlers.
(** [Platform.OS === 'android'] *)
Variable android : bool.

Definition localX (evt : NativeEvent) (scr : Screen) : number :=
  (pageX evt - layoutX (canvasLayout scr))%float.
Definition localY (evt : NativeEvent) (scr : Screen) : number :=
  (pageY evt - layoutY (canvasLayout scr))%float.

Definition pressureOf (evt : NativeEvent) : number :=
  if android && (0 <? force evt)%float then force evt else 0.5%float.

(** The point a drawing handler passes to the hook:
    [{ x, y, pressure }] in canvas coordinates. *)
Definition pointOf (evt : NativeEvent) (scr : Screen) : Point :=
  Point.mk (localX evt scr) (localY evt scr) (pressureOf evt).

(** [nanoid()] is an input of the event that starts a stroke. *)
Definition onPanResponderGrant (newId : string) (evt : NativeEvent)
  (scr : Screen) : Screen :=
  let x := localX evt scr in
  let y := localY evt scr in
  let pressure := pressureOf evt in
  match currentTool (sketch scr) with
  | select =>
      withDrag (Some (x, y)) (Some (mkDragRect x y 0%float 0%float)) scr
  | eraser => scr
  | _ => withSketch (startDrawing newId (Point.mk x y pressure)) scr
  end.

Definition onPanResponderMove (evt : NativeEvent) (scr : Screen) : Screen :=
  let x := localX evt scr in
  let y := localY evt scr in
  let pressure := pressureOf evt in
  match currentTool (sketch scr), dragStartRef scr with
  | eraser, _ =>
      match truthy (findNearestStrokeId x y (strokes (sketch scr)) 20%float) with
      | Some nearId => withSketch (removeStroke nearId) scr
      | None => scr
      end
  | select, Some ds =>
      withDragRect
        (Some (mkDragRect (Math_min (fst ds) x) (Math_min (snd ds) y)
                 (Math_abs (x - fst ds)%float) (Math_abs (y - snd ds)%float)))
        scr
  | _, _ => withSketch (continueDrawing (Point.mk x y pressure)) scr
  end.

Definition onPanResponderRelease (evt : NativeEvent) (scr : Screen) : Screen :=
  let x := localX evt scr in
  let y := localY evt scr in
  match currentTool (sketch scr), dragStartRef scr with
  | select, Some ds =>
      let dist :=
        Math_sqrt (square (x - fst ds) + square (y - snd ds))%float in
      let scr' :=
        if (dist <? DRAG_THRESHOLD)%float then
          match truthy (findNearestStrokeId x y (strokes (sketch scr)) 30%float) with
          | Some nearId => withSketch (toggleSelection nearId) scr
          | None => scr
          end
        else
          withSketch
            (selectByRect (SelectionRect.mk (fst ds) (snd ds) x y)) scr in
      withDrag None None scr'
  | _, _ => withSketch endDrawing scr
  end.

Definition onPanResponderTerminate (scr : Screen) : Screen :=
  withSketch endDrawing (withDrag None None scr).

(** The effect run once at mount: the strokes of an opened drawing are
    loaded when there are any. *)
Definition mount (layout : Layout) (initialStrokes : list Stroke) : Screen :=
  mkScreen
    (if (0 <? List.length initialStrokes)%nat
     then loadStrokes initialStrokes initialState
     else initialState)
    layout None None None.

(** What the user and the system can do to the mounted screen.  A panel
    event names the thumbnail by its position in the panel. *)
Inductive UiEvent :=
| PanGrant (newId : string) (evt : NativeEvent)
| PanMove (evt : NativeEvent)
| PanRelease (evt : NativeEvent)
| PanTerminate
| CanvasLayout (layout : Layout)
| PressUndo
| PressRedo
| ConfirmClear
| ToolChange (tool : BrushType)
| ColorChange (c : string)
| WidthChange (w : number)
| PanelToggleFocus (position : nat)
| PanelRemoveFromSelection (position : nat)
| PanelDeleteSelected
| PanelClearSelection
| Saved.

(** A press on the thumbnail at [position] of the selection panel: the
    callback receives the id of the stroke shown there. *)
Definition panelPress (callback : string -> State -> State) (position : nat)
  (scr : Screen) : Screen :=
  let st := sketch scr in
  if SelectionPanel.shown (selection st) then
    match nth_error (SelectionPanel.selectedStrokes (strokes st) (selection st))
            position with
    | Some stroke => withSketch (callback (Stroke.id stroke)) scr
    | None => scr
    end
  else scr.

Definition panelButton (callback : State -> State) (scr : Screen) : Screen :=
  if SelectionPanel.shown (selection (sketch scr))
  then withSketch callback scr else scr.

Definition handle (ev : UiEvent) (scr : Screen) : Screen :=
  match ev with
  | PanGrant newId evt => onPanResponderGrant newId evt scr
  | PanMove evt => onPanResponderMove evt scr
  | PanRelease evt => onPanResponderRelease evt scr
  | PanTerminate => onPanResponderTerminate scr
  | CanvasLayout layout =>
      mkScreen (sketch scr) layout (dragStartRef scr) (dragStart scr)
        (dragRect scr)
  | PressUndo => withSketch undo scr
  | PressRedo => withSketch redo scr
  | ConfirmClear => withSketch clear scr
  | ToolChange tool => withSketch (setCurrentTool tool) scr
  | ColorChange c => withSketch (setCurrentColor c) scr
  | WidthChange w => withSketch (setCurrentWidth w) scr
  | PanelToggleFocus position => panelPress toggleFocused position scr
  | PanelRemoveFromSelection position => panelPress toggleSelection position scr
  | PanelDeleteSelected => panelButton deleteSelected scr
  | PanelClearSelection => panelButton clearSelection scr
  | Saved => withSketch markClean scr
  end.

Definition handleAll (evs : list UiEvent) (scr : Screen) : Screen :=
  fold_left (fun s ev => handle ev s) evs scr.

End Handlers.

End SketchScreenEvents.

(** ** screens/SketchScreen.tsx: saving *)

Module SketchScreenSaving.
Import SketchScreenEvents.

(** The arguments [handleSave] passes to [saveDrawing], with the id and
    the time [saveDrawing] draws before its first [await]. *)
Record SaveCall := mkSaveCall {
  callNewId : string;
  callNow : string;
  callStrokes : list Stroke;
  callWidth : number;
  callHeight : number;
  callName : string;
  callExistingId : option string
}.

(** The component with its two hooks: the drawing surface, the storage hook
    over the store of the device, the name of the drawing, the id of the
    drawing once it has one, the busy flag of the save button, and the save
    that is under way, if any. *)
Record App := mkApp {
  screen : Screen;
  world : useDrawingStorage.World;
  name : string;
  currentDrawingId : option string;
  isSaving : bool;
  saving : option SaveCall
}.

(** The component as it mounts, with the default of [drawingName]: both
    hooks start from their initial state, and the list of the storage hook
    is never loaded on this screen. *)
Definition enter (drawingId drawingName : option string) (layout : Layout)
  (initialStrokes : list Stroke) (store : useDrawingStorage.Store) : App :=
  mkApp (mount layout initialStrokes)
    (useDrawingStorage.mkWorld store useDrawingStorage.initialState)
    (match drawingName with
     | Some n => n
     | None => "Sans titre"
     end)
    drawingId false None.

Section Saving.
Variable stringifyDrawing : useDrawingStorage.Drawing -> string.
Variable stringifyIds : list string -> string.
Variable parseIds : string -> useDrawingStorage.Outcome (list string).
(** [Platform.OS === 'android'] *)
Variable android : bool.

(** [handleSave] up to the first [await] of [saveDrawing]: the guard, the
    busy flag, and the call with the strokes, the canvas size, the name and
    the id the component holds at that moment. *)
Definition handleSaveStart (newId now : string) (app : App) : App :=
  if isSaving app then app
  else
    let st := sketch (screen app) in
    let layout := canvasLayout (screen app) in
    mkApp (screen app) (world app) (name app) (currentDrawingId app) true
      (Some (mkSaveCall newId now (useSketchpad.strokes st)
               (layoutWidth layout) (layoutHeight layout) (name app)
               (currentDrawingId app))).

(** The rest of [handleSave], once the promise of [saveDrawing] settles:
    the store calls and the list update of [saveDrawing], then the id and
    the clean flag when it resolved, nothing but the alert when it
    rejected, and the busy flag either way.  The world is the one the save
    started in: nothing else on this screen touches the storage hook. *)
Definition handleSaveSettle (app : App) : App :=
  match saving app with
  | None => app
  | Some call =>
      match useDrawingStorage.saveDrawing stringifyDrawing stringifyIds parseIds
              (callNewId call) (callNow call) (callStrokes call)
              (callWidth call) (callHeight call) (callName call)
              (callExistingId call) (world app) with
      | (w, useDrawingStorage.Returned savedId) =>
          mkApp (withSketch useSketchpad.markClean (screen app)) w (name app)
            (Some savedId) false None
      | (w, useDrawingStorage.Thrown _) =>
          mkApp (screen app) w (name app) (currentDrawingId app) false None
      end
  end.

(** What the user does on the canvas, the toolbar and the panel while a
    save is under way. *)
Definition during (evs : list UiEvent) (app : App) : App :=
  mkApp (handleAll android evs (screen app)) (world app) (name app)
    (currentDrawingId app) (isSaving app) (saving app).

End Saving.

End SketchScreenSaving.

(** ** app/sketch/[id].tsx *)

Module EditSketch.
Import SketchScreenEvents SketchScreenSaving.

Section Route.
Variable parseDrawing : string -> useDrawingStorage.Outcome useDrawingStorage.Drawing.

(** [drawing?.strokes ?? []] *)
Definition initialStrokesOf (drawing : option useDrawingStorage.Drawing)
  : list Stroke :=
  match drawing with
  | Some d => useDrawingStorage.Drawing.strokes d
  | None => []
  end.

(** [name || 'Sans titre'] *)
Definition drawingNameOf (name : option string) : string :=
  match useDrawingStorage.present name with
  | Some n => n
  | None => "Sans titre"
  end.

(** The sketch screen the route renders once the drawing is read from the
    store; without an id the effect returns early and the loader stays.
    The route reads through a storage hook of its own; the screen it
    renders finds the store as that read left it. *)
Definition open (id name : option string) (layout : Layout)
  (store : useDrawingStorage.Store) : option App :=
  match useDrawingStorage.present id with
  | None => None
  | Some i =>
      match useDrawingStorage.loadDrawingById parseDrawing i
              (useDrawingStorage.mkWorld store useDrawingStorage.initialState)
      with
      | (w, drawing) =>
          Some (enter (Some i) (Some (drawingNameOf name)) layout
                  (initialStrokesOf drawing) (useDrawingStorage.storage w))
      end
  end.

End Route.

End EditSketch.

(** ** Concrete documents used in the examples *)

Module Scenarios.
Import useSketchpad.

Definition tap (id : string) (x y : number) : Gesture :=
  mkGesture id (Point.mk x y 0.5%float) [].

(** The stroke a tap at [(x, y)] commits with the initial pen settings. *)
Definition dot (id : string) (x y : number) : Stroke :=
  Stroke.mk id [Point.mk x y 0.5%float] "#000000" 5%float pen
    (drawingUtils.getSvgPathFromPoints [Point.mk x y 0.5%float]).

(** [n] taps at the origin. *)
Definition taps (n : nat) : list Gesture := repeat (tap "dot" 0%float 0%float) n.

(** One stroke drawn and undone: an empty document whose redo stack holds
    the stroke. *)
Definition undone : State := undo (draw (tap "a" 1%float 2%float) initialState).

(** Two strokes, the first one selected. *)
Definition twoStrokes : State :=
  toggleSelection "a"
    (draw (tap "b" 3%float 4%float) (draw (tap "a" 1%float 2%float) initialState)).

(** Two strokes, the second one undone, the first one selected: both
    stacks are occupied. *)
Definition midHistory : State :=
  toggleSelection "a"
    (undo (draw (tap "b" 3%float 4%float)
             (draw (tap "a" 1%float 2%float) initialState))).

End Scenarios.

Module CanvasScenarios.

(** A calligraphy stroke of stored width 10 through two points of pressure
    0.2 and 0.4. *)
Definition calligraphyLine : Stroke :=
  let pts := [Point.mk 0%float 0%float 0.2%float;
              Point.mk 10%float 10%float 0.4%float] in
  Stroke.mk "c" pts "#000000" 10%float calligraphy
    (drawingUtils.getSvgPathFromPoints pts).

(** The same points drawn with the pen and with the marker. *)
Definition penLine : Stroke :=
  Stroke.mk "p" (Stroke.points calligraphyLine) "#000000" 10%float pen
    (Stroke.pathData calligraphyLine).

Definition markerLine : Stroke :=
  Stroke.mk "m" (Stroke.points calligraphyLine) "#000000" 10%float marker
    (Stroke.pathData calligraphyLine).

End CanvasScenarios.

Module HitTestScenarios.

Definition single (id : string) (x y : number) : Stroke :=
  Stroke.mk id [Point.mk x y 0.5%float] "#000000" 5%float pen
    (drawingUtils.getSvgPathFromPoints [Point.mk x y 0.5%float]).

(** Two strokes at distance 5 from the origin, then one at distance 10. *)
Definition tied : list Stroke :=
  [single "a" 3%float 4%float; single "b" (-4)%float 3%float; single "c" 6%float 8%float].

(** A far stroke first, the nearest one in the middle of the document. *)
Definition nearestSecond : list Stroke :=
  [single "far" 6%float 8%float; single "near" 0%float 1%float; single "mid" 3%float 4%float].

(** Two dots next to each other: the first at (3 + 2^-51, 4), the second at
    (3, 4), which is strictly nearer to the origin. *)
Definition roundingTie : list Stroke :=
  [single "far" 3.0000000000000004%float 4%float; single "near" 3%float 4%float].

End HitTestScenarios.

Module StorageScenarios.
Import useDrawingStorage.

(** A store with three drawings in its index; the record of the second one
    is not JSON. *)
Definition store (key : string) : Outcome (option string) :=
  if String.eqb key "drawings_index" then Returned (Some "[a,b,c]")
  else if String.eqb key "drawing_a" then Returned (Some "ok:first")
  else if String.eqb key "drawing_b" then Returned (Some "{broken")
  else if String.eqb key "drawing_c" then Returned (Some "ok:third")
  else Returned None.

(** The same store with the corrupt record removed. *)
Definition repairedStore (key : string) : Outcome (option string) :=
  if String.eqb key "drawing_b" then Returned None else store key.

(** Stand-ins for [JSON.parse] that decode the texts of these stores. *)
Definition decodeIds (json : string) : Outcome (list string) :=
  if String.eqb json "[a,b,c]" then Returned ["a"; "b"; "c"]
  else Thrown "SyntaxError".

Definition decodeDrawing (json : string) : Outcome Drawing :=
  if String.prefix "ok:" json then
    let name := substring 3 (String.length json - 3) json in
    Returned (Drawing.mk name name [] 100%float 80%float EmptyString
                "2026-01-01" "2026-01-01")
  else Thrown "SyntaxError".

Definition keepOrder (ds : list Drawing) : list Drawing := ds.

End StorageScenarios.

Module ExportScenarios.

Definition zigzag : list Point :=
  [Point.mk 1%float 2.005%float 0.5%float;
   Point.mk 3.14159%float 4%float 0.5%float;
   Point.mk 10%float 0.1%float 0.5%float].

(** The same three points as a marker stroke and as a pen stroke, of
    width 7.5. *)
Definition markerZigzag : Stroke :=
  Stroke.mk "m" zigzag "#ff0000" 7.5%float marker
    (drawingUtils.getSvgPathFromPoints zigzag).

Definition penZigzag : Stroke :=
  Stroke.mk "p" zigzag "#ff0000" 7.5%float pen
    (drawingUtils.getSvgPathFromPoints zigzag).

(** [name="value"] as it stands in the markup. *)
Definition attr (name value : string) : string :=
  name ++ "=" ++ drawingUtils.dq ++ value ++ drawingUtils.dq.

End ExportScenarios.

Module SelectionScenarios.

(** A stroke through (1, 2) and (5, 8), and a rectangle dragged from
    (4, 9) up and left to (0, 0): the first point lies inside. *)
Definition diagonal : Stroke :=
  let pts := [Point.mk 1%float 2%float 0.5%float;
              Point.mk 5%float 8%float 0.5%float] in
  Stroke.mk "d" pts "#000000" 5%float pen
    (drawingUtils.getSvgPathFromPoints pts).

Definition document : useSketchpad.State :=
  useSketchpad.loadStrokes [diagonal] useSketchpad.initialState.

Definition dragged : SelectionRect := SelectionRect.mk 4%float 9%float 0%float 0%float.

End SelectionScenarios.

Module ScreenScenarios.
Import useSketchpad SketchScreenEvents.

(** The canvas sits 100 px below the top of the page. *)
Definition layout : Layout := mkLayout 0%float 100%float 400%float 600%float.

Definition touch (pageX pageY : number) : NativeEvent :=
  mkNativeEvent pageX pageY 0%float.

(** A new drawing, with the pen in hand. *)
Definition blank : Screen := mount layout [].

(** The three strokes of the hit-test scenario opened for editing, with the
    eraser in hand. *)
Definition erasing : Screen :=
  withSketch (setCurrentTool eraser) (mount layout HitTestScenarios.tied).

End ScreenScenarios.

Module PersistenceScenarios.
Import useDrawingStorage.

Definition emptyWorld : World := mkWorld emptyStore initialState.

(** The record a first save of one pen stroke under the name Sketch
    builds, and the same record renamed later. *)
Definition sketchRecord : Drawing :=
  recordToSave "n1" "2026-02-01" [CanvasScenarios.penLine] 100%float 80%float
    "Sketch" None emptyWorld.

Definition renamedRecord : Drawing :=
  Drawing.mk (Drawing.id sketchRecord) "Croquis" (Drawing.strokes sketchRecord)
    (Drawing.canvasWidth sketchRecord) (Drawing.canvasHeight sketchRecord)
    (Drawing.thumbnailSvg sketchRecord) (Drawing.createdAt sketchRecord)
    "2026-03-01".

(** Stand-ins for [JSON.stringify] and [JSON.parse] on the records and
    indexes of these scenarios: a record is written as its name. *)
Definition encodeDrawing (d : Drawing) : string := "ok:" ++ Drawing.name d.

Definition decodeDrawing (json : string) : Outcome Drawing :=
  if String.eqb json "ok:Sketch" then Returned sketchRecord
  else if String.eqb json "ok:Croquis" then Returned renamedRecord
  else Thrown "SyntaxError".

Definition encodeIds (ids : list string) : string := "[" ++ join "," ids ++ "]".

Definition decodeIds (json : string) : Outcome (list string) :=
  if String.eqb json "[]" then Returned []
  else if String.eqb json "[n1]" then Returned ["n1"]
  else if String.eqb json "[n0,n1]" then Returned ["n0"; "n1"]
  else Thrown "SyntaxError".

(** The world after that first save. *)
Definition saved : World :=
  fst (saveDrawing encodeDrawing encodeIds decodeIds "n1" "2026-02-01"
         [CanvasScenarios.penLine] 100%float 80%float "Sketch" None emptyWorld).

(** The same world with the outcomes of its next calls given. *)
Definition scheduled (outcomes : list (option string)) (w : World) : World :=
  mkWorld (mkStore (items (storage w)) outcomes) (hook w).

(** A world whose index is not JSON. *)
Definition corruptIndex : World :=
  mkWorld
    (mkStore (fun k => if String.eqb k DRAWINGS_INDEX_KEY then Some "{broken"
                       else None) [])
    initialState.

(** A session on the gallery: save, reload, rename, save again, delete. *)
Definition session : list StorageOp :=
  [DoSave "n1" "2026-02-01" [CanvasScenarios.penLine] 100%float 80%float
     "Sketch" None;
   DoLoad;
   DoRename "2026-03-01" "n1" "Croquis";
   DoSave "n2" "2026-03-02" [CanvasScenarios.penLine] 100%float 80%float
     "Sketch" (Some "n1");
   DoDelete "n0"].

End PersistenceScenarios.

Module SessionScenarios.
Import SketchScreenEvents SketchScreenSaving.

(** The canvas measures 100 by 80. *)
Definition layout : Layout := mkLayout 0%float 0%float 100%float 80%float.

(** A sketch screen showing one pen stroke, not saved yet. *)
Definition unsaved : App :=
  enter None (Some "Sketch") layout [CanvasScenarios.penLine]
    useDrawingStorage.emptyStore.

(** A touch that draws a dot while the save is under way. *)
Definition dotting : list UiEvent :=
  [PanGrant "s9" (mkNativeEvent 10%float 10%float 0%float);
   PanRelease (mkNativeEvent 10%float 10%float 0%float)].

End SessionScenarios.

(** * Properties *)

(** ** Arrays *)

Lemma sliceLast_length {A} (n : nat) (arr : list A) :
  List.length (sliceLast n arr) = Nat.min n (List.length arr).
Proof.
  unfold sliceLast. rewrite length_skipn. lia.
Qed.

Lemma sliceLast_suffix {A} (n : nat) (arr : list A) :
  exists evicted,
    arr = (evicted ++ sliceLast n arr)%list
    /\ List.length evicted = List.length arr - n.
Proof.
  exists (firstn (List.length arr - n) arr). split.
  - unfold sliceLast. now rewrite firstn_skipn.
  - rewrite length_firstn. lia.
Qed.

Lemma sliceLast_keeps {A} (n : nat) (arr kept : list A) :
  List.length kept <= n ->
  exists pre, sliceLast n (arr ++ kept) = (pre ++ kept)%list.
Proof.
  intros Hk. unfold sliceLast. rewrite length_app, skipn_app.
  exists (skipn (List.length arr + List.length kept - n) arr).
  replace (List.length arr + List.length kept - n - List.length arr) with 0 by lia.
  reflexivity.
Qed.

Lemma snoc_cases {A} (l : list A) :
  l = [] \/ exists front x, l = (front ++ [x])%list.
Proof.
  induction l as [|x l _] using rev_ind; [now left|].
  right. now exists l, x.
Qed.

Lemma In_mapAdjacent {A B} (f : A -> A -> B) (arr : list A) (b : B) :
  In b (mapAdjacent f arr) -> exists a a', In a arr /\ In a' arr /\ b = f a a'.
Proof.
  induction arr as [|a arr IH]; [intros []|].
  destruct arr as [|a' arr]; [intros []|].
  cbn [mapAdjacent]. intros [<- | Hin].
  - exists a, a'. cbn. auto.
  - destruct (IH Hin) as (u & v & Hu & Hv & ->).
    exists u, v. split; [now right|]. split; [now right | reflexivity].
Qed.

(** ** The order of doubles *)

Module JsNumberFacts.

Lemma SFltb_key (x y : spec_float) :
  SFltb x y = true <->
  exists kx ky, sfKey x = Some kx /\ sfKey y = Some ky /\ keyLt kx ky.
Proof.
  unfold SFltb, SFcompare.
  destruct x as [sx|sx| |sx mx ex], y as [sy|sy| |sy my ey]; cbn [sfKey];
    repeat match goal with s : bool |- _ => destruct s end;
    (split; [intros H | intros (kx & ky & Hx & Hy & Hlt)]);
    try discriminate;
    try (do 2 eexists; split; [reflexivity|split; [reflexivity|]]; cbn; lia);
    try (injection Hx as <-; injection Hy as <-; cbn in Hlt;
         try reflexivity; try lia).
  all: try (do 2 eexists; split; [reflexivity|split; [reflexivity|]]; cbn;
            destruct (Z.compare_spec ex ey); try discriminate; try lia;
            rewrite Pos.compare_cont_spec in H; cbn in H;
            destruct (Pos.compare_spec mx my); try discriminate; lia).
  all: try (destruct (Z.compare_spec ex ey); try reflexivity; try lia;
            rewrite Pos.compare_cont_spec; cbn;
            destruct (Pos.compare_spec mx my); try reflexivity; lia).
Qed.

Lemma ltb_key (a b : number) :
  (a <? b)%float = true <->
  exists ka kb,
    sfKey (Prim2SF a) = Some ka /\ sfKey (Prim2SF b) = Some kb /\ keyLt ka kb.
Proof. rewrite ltb_spec. apply SFltb_key. Qed.

Ltac by_keys :=
  repeat match goal with
         | H : (_ <? _)%float = true |- _ =>
             apply ltb_key in H; destruct H as (? & ? & ? & ? & H)
         end;
  repeat match goal with
         | H1 : sfKey ?v = Some ?k1, H2 : sfKey ?v = Some ?k2 |- _ =>
             rewrite H1 in H2; injection H2 as <-
         end.

Lemma ltb_trans (a b c : number) :
  (a <? b)%float = true -> (b <? c)%float = true -> (a <? c)%float = true.
Proof.
  intros Hab Hbc. by_keys. apply ltb_key.
  do 2 eexists. split; [eassumption|]. split; [eassumption|].
  repeat match goal with k : (Z * Z * Z)%type |- _ => destruct k as ((?, ?), ?) end.
  cbn in *. lia.
Qed.

Lemma ltb_irrefl (a : number) : (a <? a)%float = false.
Proof.
  destruct (a <? a)%float eqn:H; [|reflexivity]. by_keys.
  repeat match goal with k : (Z * Z * Z)%type |- _ => destruct k as ((?, ?), ?) end.
  cbn in *. lia.
Qed.

Lemma ltb_asym (a b : number) :
  (a <? b)%float = true -> (b <? a)%float = false.
Proof.
  intros Hab. destruct (b <? a)%float eqn:Hba; [|reflexivity].
  pose proof (ltb_trans _ _ _ Hab Hba) as H. now rewrite ltb_irrefl in H.
Qed.

(** A double [c] that compares below something is not NaN, and then falls
    on one side of any strict inequality [a < b]. *)
Lemma ltb_cotrans (a b c r : number) :
  (a <? b)%float = true -> (c <? r)%float = true ->
  (a <? c)%float = true \/ (c <? b)%float = true.
Proof.
  intros Hab Hcr. by_keys.
  repeat match goal with k : (Z * Z * Z)%type |- _ => destruct k as ((?, ?), ?) end.
  cbn in *.
  match goal with
  | Ha : sfKey (Prim2SF a) = Some (?a1, ?a2, ?a3),
    Hc : sfKey (Prim2SF c) = Some (?c1, ?c2, ?c3) |- _ =>
      assert (Hcase : keyLt (a1, a2, a3) (c1, c2, c3)
                      \/ ~ keyLt (a1, a2, a3) (c1, c2, c3)) by (cbn; lia);
      destruct Hcase as [Hlt | Hge]
  end.
  - left. apply ltb_key. do 2 eexists. eauto.
  - right. apply ltb_key. do 2 eexists.
    split; [eassumption|]. split; [eassumption|]. cbn in *. lia.
Qed.

(** *** The shape of [toFixed] *)

Lemma substring_all (s : string) : substring 0 (String.length s) s = s.
Proof. induction s as [|c s IH]; [reflexivity|]. cbn. now rewrite IH. Qed.

Lemma strTake_0 (s : string) : strTake 0 s = EmptyString.
Proof. now destruct s. Qed.

Lemma strDrop_0 (s : string) : strDrop 0 s = s.
Proof. unfold strDrop. rewrite Nat.sub_0_r. apply substring_all. Qed.

Lemma strTake_drop (s : string) :
  forall j, j <= String.length s ->
    s = strTake j s ++ strDrop j s
    /\ String.length (strTake j s) = j
    /\ String.length (strDrop j s) = String.length s - j.
Proof.
  induction s as [|c s IH]; intros j Hj.
  - cbn in Hj. assert (j = 0) as -> by lia. cbn. auto.
  - destruct j as [|j].
    + rewrite strTake_0, strDrop_0. cbn. auto.
    + cbn [String.length] in Hj.
      destruct (IH j ltac:(lia)) as (H1 & H2 & H3).
      change (strTake (S j) (String c s)) with (String c (strTake j s)).
      change (strDrop (S j) (String c s)) with (strDrop j s).
      cbn [append String.length Nat.sub]. rewrite <- H1, H2, H3. auto.
Qed.

Lemma allDigits_app (a b : string) :
  allDigits (a ++ b) = allDigits a && allDigits b.
Proof.
  induction a as [|c a IH]; [reflexivity|].
  cbn. rewrite IH. now rewrite andb_assoc.
Qed.

Lemma length_append (a b : string) :
  String.length (a ++ b) = String.length a + String.length b.
Proof. induction a as [|c a IH]; [reflexivity|]. cbn. now rewrite IH. Qed.

Lemma allDigits_zeros (k : nat) : allDigits (zeros k) = true.
Proof. induction k; [reflexivity|]. cbn. exact IHk. Qed.

Lemma length_zeros (k : nat) : String.length (zeros k) = k.
Proof. induction k; [reflexivity|]. cbn. now rewrite IHk. Qed.

Lemma allDigits_uint (d : Decimal.uint) :
  allDigits (NilEmpty.string_of_uint d) = true.
Proof. induction d; cbn; auto. Qed.

Lemma allDigits_digitsOf (n : Z) : allDigits (digitsOf n) = true.
Proof.
  unfold digitsOf, NilZero.string_of_uint.
  destruct (N.to_uint (Z.to_N n)) eqn:E; try (rewrite <- E; apply allDigits_uint).
  reflexivity.
Qed.

Lemma splitDot_digits (a b : string) :
  allDigits a = true -> splitDot (a ++ "." ++ b) = Some (a, b).
Proof.
  change ("." ++ b) with (String "." b).
  induction a as [|c a IH]; intros Ha; [reflexivity|].
  cbn in Ha. apply andb_prop in Ha as (Hc & Ha).
  cbn [append splitDot]. rewrite (IH Ha).
  destruct (Ascii.eqb_spec c ".") as [->|Hne]; [discriminate Hc | reflexivity].
Qed.

Lemma fixedDigits_shape (f : nat) (n : Z) :
  1 <= f ->
  exists a b,
    fixedDigits f n = a ++ "." ++ b
    /\ allDigits a = true /\ allDigits b = true
    /\ 1 <= String.length a /\ String.length b = f.
Proof.
  intros Hf. unfold fixedDigits. destruct f as [|f']; [lia|].
  set (f := S f') in *.
  set (m := zeros (S f - String.length (digitsOf n)) ++ digitsOf n).
  assert (Hm : allDigits m = true).
  { subst m. now rewrite allDigits_app, allDigits_zeros, allDigits_digitsOf. }
  assert (Hlen : S f <= String.length m).
  { subst m. rewrite length_append, length_zeros. lia. }
  destruct (strTake_drop m (String.length m - f) ltac:(lia)) as (Hsplit & Ht & Hd).
  rewrite Hsplit, allDigits_app in Hm. apply andb_prop in Hm as (Ha & Hb).
  exists (strTake (String.length m - f) m), (strDrop (String.length m - f) m).
  repeat split; auto; lia.
Qed.

Lemma isFixedDecimal_digits (d : nat) (a b : string) :
  allDigits a = true -> allDigits b = true ->
  1 <= String.length a -> String.length b = d ->
  isFixedDecimal d (a ++ "." ++ b) = true
  /\ isFixedDecimal d ("-" ++ a ++ "." ++ b) = true.
Proof.
  intros Ha Hb Hla Hlb.
  assert (Hbody : match splitDot (a ++ "." ++ b) with
                  | Some (a0, b0) =>
                      negb (String.length a0 =? 0)%nat && allDigits a0
                      && allDigits b0 && (String.length b0 =? d)%nat
                  | None => false
                  end = true).
  { rewrite (splitDot_digits a b Ha), Ha, Hb, Hlb, Nat.eqb_refl.
    destruct (String.length a); [lia | reflexivity]. }
  split; [|exact Hbody].
  unfold isFixedDecimal. destruct a as [|c a]; [cbn in Hla; lia|].
  cbn in Ha. apply andb_prop in Ha as (Hc & _).
  cbn [append stripMinus].
  destruct (Ascii.eqb_spec c "-") as [->|Hne]; [discriminate Hc | exact Hbody].
Qed.

Lemma toFixed_fixed (d : nat) (v : number) :
  1 <= d -> plain v = true -> isFixedDecimal d (toFixed d v) = true.
Proof.
  intros Hd Hp. unfold toFixed, plain in *.
  destruct (Prim2SF v) as [s|s| |s m e]; try discriminate.
  - destruct (fixedDigits_shape d 0 Hd) as (a & b & -> & Ha & Hb & Hla & Hlb).
    now apply isFixedDecimal_digits.
  - apply Bool.negb_true_iff in Hp. rewrite Hp.
    destruct (fixedDigits_shape d
                (roundHalfUp (fracMul (dyadic (Zpos m) e) (pow10Frac (Z.of_nat d))))
                Hd) as (a & b & -> & Ha & Hb & Hla & Hlb).
    destruct s; now apply isFixedDecimal_digits.
Qed.

(** *** The two renderings on known values *)

Example numToString_examples :
  map numToString
    [100; 0.1; 0.1 + 0.2; 1e21; 1e-7; 0.000001; 123456789012345680000;
     (-1.5); 5e-324; 1.7976931348623157e308; 0; (-0); nan; neg_infinity]%float
  = ["100"; "0.1"; "0.30000000000000004"; "1e+21"; "1e-7"; "0.000001";
     "123456789012345680000"; "-1.5"; "5e-324"; "1.7976931348623157e+308";
     "0"; "0"; "NaN"; "-Infinity"].
Proof. vm_compute. reflexivity. Qed.

Example toFixed_examples :
  map (toFixed 2)
    [0.1; 1.005; 2.5; 0.125; (-0.001); (-1.5); 123.456; 0; 1e21; nan]%float
  = ["0.10"; "1.00"; "2.50"; "0.13"; "-0.00"; "-1.50"; "123.46"; "0.00";
     "1e+21"; "NaN"]
  /\ map (toFixed 1) [0.05; 0.25; 20; (-2.55)]%float
     = ["0.1"; "0.3"; "20.0"; "-2.5"].
Proof. vm_compute. split; reflexivity. Qed.

End JsNumberFacts.

(** ** The SVG codec *)

Module drawingUtilsFacts.
Import drawingUtils JsNumberFacts SvgNumbers.

(** C6 (as stated, refuted): the export of the empty 100 x 80 document
    carries the canvas size as [100] and [80]; the export and the thumbnail
    of a stroke of width 7.5 carry [stroke-width="7.5"], and those of a pen
    stroke carry its path data with the numbers as they were printed when the
    stroke was drawn.  None of these numerals has two decimals, or one. *)
Lemma svg_numbers_not_all_fixed :
  occursIn
    (ExportScenarios.attr "viewBox" "0 0 100 80" ++ " "
     ++ ExportScenarios.attr "width" "100" ++ " "
     ++ ExportScenarios.attr "height" "80")
    (generateSvgContent [] 100%float 80%float) = true
  /\ isFixedDecimal 2 (numToString 100%float) = false
  /\ isFixedDecimal 2 (numToString 80%float) = false
  /\ occursIn (ExportScenarios.attr "stroke-width" "7.5")
       (generateSvgContent [ExportScenarios.markerZigzag] 100%float 80%float)
     = true
  /\ occursIn
       (ExportScenarios.attr "d" "M 1 2.005 Q 3.14159 4, 6.570795 2.05 L 10 0.1")
       (generateSvgContent [ExportScenarios.penZigzag] 100%float 80%float)
     = true
  /\ isFixedDecimal 2 (numToString 7.5%float) = false
  /\ occursIn (ExportScenarios.attr "stroke-width" "7.5")
       (generateThumbnailSvg [ExportScenarios.markerZigzag] 100%float 80%float)
     = true
  /\ occursIn
       (ExportScenarios.attr "d" "M 1 2.005 Q 3.14159 4, 6.570795 2.05 L 10 0.1")
       (generateThumbnailSvg [ExportScenarios.penZigzag] 100%float 80%float)
     = true
  /\ isFixedDecimal 1 (numToString 2.005%float) = false.
Proof. vm_compute. repeat split. Qed.

Lemma viewBox_cases (topStrokes : list Stroke) (width height : number) :
  (exists a b c d,
      Thumbnail.viewBox topStrokes width height
      = toFixed 1 a ++ " " ++ toFixed 1 b ++ " " ++ toFixed 1 c ++ " "
        ++ toFixed 1 d)
  \/ Thumbnail.viewBox topStrokes width height
     = "0 0 " ++ numToString width ++ " " ++ numToString height.
Proof.
  unfold Thumbnail.viewBox.
  match goal with
  | |- context [if ?b then _ else _] => destruct b
  end.
  - left. do 4 eexists. reflexivity.
  - right. reflexivity.
Qed.

(** *** The generators against the pieces they are made of *)

Lemma str_app_assoc (a b c : string) : (a ++ b) ++ c = a ++ (b ++ c).
Proof. induction a as [|ch a IH]; [reflexivity|]. cbn. now rewrite IH. Qed.

Lemma str_app_nil_r (a : string) : a ++ EmptyString = a.
Proof. induction a as [|ch a IH]; [reflexivity|]. cbn. now rewrite IH. Qed.

Lemma emit_app (a b : list Piece) : emit (a ++ b) = emit a ++ emit b.
Proof.
  induction a as [|p a IH]; [reflexivity|].
  cbn [app emit]. now rewrite IH, str_app_assoc.
Qed.

Lemma emit_joinPieces (sep : string) (groups : list (list Piece)) :
  emit (joinPieces sep groups) = join sep (map emit groups).
Proof.
  induction groups as [|g groups IH]; [reflexivity|].
  destruct groups as [|g' groups]; [reflexivity|].
  cbn [joinPieces map join] in *. rewrite emit_app. cbn [emit render].
  now rewrite IH.
Qed.

Lemma emit_concat (groups : list (list Piece)) :
  emit (List.concat groups) = join EmptyString (map emit groups).
Proof.
  induction groups as [|g groups IH]; [reflexivity|].
  cbn [List.concat map]. rewrite emit_app, IH.
  destruct groups as [|g' groups]; [apply str_app_nil_r | reflexivity].
Qed.

Lemma emit_linePieces (digits : nat) (s : Stroke) (pt next : Point) :
  emit (linePieces digits s pt next) = lineElement (toFixed digits) s pt next.
Proof. reflexivity. Qed.

Lemma emit_pathPieces (s : Stroke) (closing : string) :
  emit (pathPieces s closing) = pathElementOpen s ++ closing.
Proof.
  unfold pathPieces, pathElementOpen. cbn [emit render].
  rewrite !str_app_assoc, str_app_nil_r. reflexivity.
Qed.

Lemma mapAdjacent_map {A B C} (f : A -> A -> B) (g : B -> C) (arr : list A) :
  map g (mapAdjacent f arr) = mapAdjacent (fun a b => g (f a b)) arr.
Proof.
  induction arr as [|a arr IH]; [reflexivity|].
  destruct arr as [|b arr]; [reflexivity|].
  cbn [mapAdjacent map] in *. now rewrite IH.
Qed.

Lemma emit_exportStroke (s : Stroke) :
  emit (exportStroke s) = FullExport.renderStroke s.
Proof.
  unfold exportStroke, FullExport.renderStroke, inSegments.
  destruct (isMarker s && (1 <? List.length (Stroke.points s))%nat).
  - rewrite emit_joinPieces, mapAdjacent_map. reflexivity.
  - rewrite emit_pathPieces. now destruct (isMarker s).
Qed.

Lemma emit_thumbnailStroke (s : Stroke) :
  emit (thumbnailStroke s) = Thumbnail.renderStroke s.
Proof.
  unfold thumbnailStroke, Thumbnail.renderStroke, inSegments.
  destruct (isMarker s && (1 <? List.length (Stroke.points s))%nat).
  - rewrite emit_joinPieces, mapAdjacent_map. reflexivity.
  - rewrite emit_pathPieces. now destruct (isMarker s).
Qed.

Lemma emit_viewBoxPieces (topStrokes : list Stroke) (width height : number) :
  emit (viewBoxPieces topStrokes width height)
  = Thumbnail.viewBox topStrokes width height.
Proof.
  unfold viewBoxPieces, Thumbnail.viewBox.
  match goal with
  | |- context [if ?b then _ else _] => destruct b
  end.
  - cbn [emit render]. now rewrite str_app_nil_r.
  - cbn [emit render]. now rewrite str_app_nil_r.
Qed.

Lemma generateSvgContent_pieces (strokes : list Stroke) (width height : number) :
  generateSvgContent strokes width height
  = emit (exportPieces strokes width height).
Proof.
  unfold generateSvgContent, exportPieces. cbn [emit render].
  rewrite emit_app, emit_joinPieces, map_map.
  rewrite (map_ext _ _ emit_exportStroke).
  cbn [emit render]. rewrite str_app_nil_r.
  rewrite !str_app_assoc. reflexivity.
Qed.

Lemma generateThumbnailSvg_pieces (strokes : list Stroke)
  (width height : number) :
  generateThumbnailSvg strokes width height
  = emit (thumbnailPieces strokes width height).
Proof.
  unfold generateThumbnailSvg, thumbnailPieces.
  destruct strokes as [|s strokes]; [reflexivity|].
  set (top := firstn 10 (s :: strokes)).
  cbn [emit render app]. rewrite emit_app, emit_viewBoxPieces.
  cbn [emit render]. rewrite emit_app, emit_concat, map_map.
  rewrite (map_ext _ _ emit_thumbnailStroke).
  cbn [emit render]. rewrite str_app_nil_r.
  rewrite !str_app_assoc. reflexivity.
Qed.

(** *** Which numbers are written in which format *)

Lemma In_joinPieces (sep : string) (groups : list (list Piece)) (p : Piece) :
  In p (joinPieces sep groups) ->
  p = Text sep \/ exists g, In g groups /\ In p g.
Proof.
  induction groups as [|g groups IH]; [intros []|].
  destruct groups as [|g' groups].
  - intros Hin. right. exists g. split; [now left | exact Hin].
  - cbn [joinPieces]. intros Hin. apply in_app_or in Hin as [Hin | [<- | Hin]].
    + right. exists g. split; [now left | exact Hin].
    + now left.
    + destruct (IH Hin) as [-> | (g0 & Hg & Hp)]; [now left|].
      right. exists g0. split; [now right | exact Hp].
Qed.

Lemma joinPieces_In (sep : string) (groups : list (list Piece))
  (g : list Piece) (p : Piece) :
  In g groups -> In p g -> In p (joinPieces sep groups).
Proof.
  induction groups as [|g0 groups IH]; [intros []|].
  intros Hg Hp. destruct groups as [|g' groups].
  - destruct Hg as [-> | []]. exact Hp.
  - cbn [joinPieces]. apply in_or_app. destruct Hg as [-> | Hg].
    + now left.
    + right. right. now apply IH.
Qed.

Lemma mapAdjacent_covers {A B} (f : A -> A -> B) (arr : list A) (a : A) :
  In a arr -> 2 <= List.length arr ->
  exists u v, In (f u v) (mapAdjacent f arr) /\ (a = u \/ a = v).
Proof.
  induction arr as [|x arr IH]; [intros []|].
  destruct arr as [|y arr]; [cbn; lia|].
  intros Hin _. cbn [mapAdjacent].
  destruct Hin as [-> | Hin].
  - exists a, y. split; [now left | now left].
  - destruct arr as [|z arr].
    + destruct Hin as [-> | []]. exists x, a. split; [now left | now right].
    + destruct (IH Hin) as (u & v & Huv & Ha); [cbn; lia|].
      exists u, v. split; [now right | exact Ha].
Qed.

Lemma linePieces_numbers (digits : nat) (s : Stroke) (pt next : Point)
  (p : Piece) :
  In p (linePieces digits s pt next) ->
  match p with
  | Text _ => True
  | Fixed d v =>
      d = digits
      /\ (v = Point.x pt \/ v = Point.y pt \/ v = Point.x next
          \/ v = Point.y next)
  | Plain v => v = Stroke.strokeWidth s
  end.
Proof.
  unfold linePieces. cbn [In].
  intros H; repeat (destruct H as [<- | H]; [cbn; auto; tauto|]); destruct H.
Qed.

Lemma strokePieces_numbers (digits : nat) (sep closing : string) (s : Stroke)
  (p : Piece) :
  In p (if inSegments s
        then joinPieces sep (mapAdjacent (linePieces digits s) (Stroke.points s))
        else pathPieces s closing) ->
  match p with
  | Text _ => True
  | Fixed d v =>
      d = digits /\ inSegments s = true
      /\ exists pt, In pt (Stroke.points s) /\ (v = Point.x pt \/ v = Point.y pt)
  | Plain v => v = Stroke.strokeWidth s
  end.
Proof.
  destruct (inSegments s) eqn:Hseg.
  - intros Hin. apply In_joinPieces in Hin as [-> | (g & Hg & Hp)]; [exact I|].
    apply In_mapAdjacent in Hg as (pt & next & Hpt & Hnext & ->).
    apply linePieces_numbers in Hp. destruct p as [t | d v | v]; auto.
    destruct Hp as (-> & Hv). split; [reflexivity|]. split; [reflexivity|].
    destruct Hv as [-> | [-> | [-> | ->]]];
      [exists pt | exists pt | exists next | exists next]; auto.
  - unfold pathPieces. cbn [In].
    intros H; repeat (destruct H as [<- | H]; [cbn; auto|]); destruct H.
Qed.
Lemma inSegments_iff (s : Stroke) :
  inSegments s = true <->
  isMarker s = true /\ 2 <= List.length (Stroke.points s).
Proof.
  unfold inSegments. rewrite Bool.andb_true_iff, Nat.ltb_lt. split.
  - intros (Hm & Hl). split; [exact Hm | lia].
  - intros (Hm & Hl). split; [exact Hm | lia].
Qed.

Lemma strokePieces_coordinates (digits : nat) (sep : string) (s : Stroke)
  (pt : Point) :
  2 <= List.length (Stroke.points s) -> In pt (Stroke.points s) ->
  In (Fixed digits (Point.x pt))
    (joinPieces sep (mapAdjacent (linePieces digits s) (Stroke.points s)))
  /\ In (Fixed digits (Point.y pt))
       (joinPieces sep (mapAdjacent (linePieces digits s) (Stroke.points s))).
Proof.
  intros Hlen Hpt.
  destruct (mapAdjacent_covers (linePieces digits s) _ pt Hpt Hlen)
    as (u & v & Huv & [-> | ->]);
    split; apply (joinPieces_In sep _ _ _ Huv); unfold linePieces; cbn; auto 12.
Qed.

Lemma strokePieces_width (digits : nat) (sep closing : string) (s : Stroke) :
  In (Plain (Stroke.strokeWidth s))
    (if inSegments s
     then joinPieces sep (mapAdjacent (linePieces digits s) (Stroke.points s))
     else pathPieces s closing).
Proof.
  destruct (inSegments s) eqn:Hseg.
  - apply inSegments_iff in Hseg as (_ & Hlen).
    destruct (Stroke.points s) as [|a [|b pts]]; cbn in Hlen; try lia.
    apply (joinPieces_In sep _ (linePieces digits s a b)); [now left|].
    unfold linePieces. cbn. auto 15.
  - unfold pathPieces. cbn. auto 10.
Qed.

Lemma exportPieces_cases (strokes : list Stroke) (width height : number)
  (p : Piece) :
  In p (exportPieces strokes width height) ->
  (exists t, p = Text t) \/ p = Plain width \/ p = Plain height
  \/ exists s, In s strokes /\ In p (exportStroke s).
Proof.
  unfold exportPieces. cbn [In].
  intros H.
  repeat (destruct H as [<- | H]; [eauto|]).
  apply in_app_or in H as [H | [<- | []]]; [|eauto].
  apply In_joinPieces in H as [-> | (g & Hg & Hp)]; [eauto|].
  apply in_map_iff in Hg as (s & <- & Hs).
  right. right. right. now exists s.
Qed.

Lemma exportPieces_stroke (strokes : list Stroke) (width height : number)
  (s : Stroke) (p : Piece) :
  In s strokes -> In p (exportStroke s) ->
  In p (exportPieces strokes width height).
Proof.
  intros Hs Hp. unfold exportPieces. do 9 right.
  apply in_or_app. left.
  apply (joinPieces_In _ _ (exportStroke s)); [|exact Hp].
  now apply in_map.
Qed.

Lemma exportPieces_fixed (strokes : list Stroke) (width height : number)
  (d : nat) (v : number) :
  In (Fixed d v) (exportPieces strokes width height) ->
  d = 2
  /\ exists s pt,
       In s strokes /\ isMarker s = true
       /\ 2 <= List.length (Stroke.points s)
       /\ In pt (Stroke.points s)
       /\ (v = Point.x pt \/ v = Point.y pt).
Proof.
  intros Hin.
  apply exportPieces_cases in Hin
    as [(t & Ht) | [Hw | [Hh | (s & Hs & Hp)]]]; try discriminate.
  apply (strokePieces_numbers 2) in Hp as (-> & Hseg & pt & Hpt & Hv).
  apply inSegments_iff in Hseg as (Hm & Hlen).
  split; [reflexivity|]. now exists s, pt.
Qed.

Lemma exportPieces_coordinates (strokes : list Stroke) (width height : number)
  (s : Stroke) (pt : Point) :
  In s strokes -> isMarker s = true ->
  2 <= List.length (Stroke.points s) -> In pt (Stroke.points s) ->
  In (Fixed 2 (Point.x pt)) (exportPieces strokes width height)
  /\ In (Fixed 2 (Point.y pt)) (exportPieces strokes width height).
Proof.
  intros Hs Hm Hlen Hpt.
  assert (Hseg : inSegments s = true) by now apply inSegments_iff.
  destruct (strokePieces_coordinates 2 (nl ++ "    ") s pt Hlen Hpt) as (Hx & Hy).
  split; apply (exportPieces_stroke _ _ _ s); auto;
    unfold exportStroke; rewrite Hseg; assumption.
Qed.

Lemma exportPieces_plain (strokes : list Stroke) (width height v : number) :
  In (Plain v) (exportPieces strokes width height) <->
  v = width \/ v = height \/ exists s, In s strokes /\ v = Stroke.strokeWidth s.
Proof.
  split.
  - intros Hin.
    apply exportPieces_cases in Hin
      as [(t & Ht) | [Hw | [Hh | (s & Hs & Hp)]]]; try discriminate.
    + left. congruence.
    + right. left. congruence.
    + right. right. exists s. split; [exact Hs|].
      now apply (strokePieces_numbers 2) in Hp.
  - intros [-> | [-> | (s & Hs & ->)]].
    + unfold exportPieces. cbn. auto.
    + unfold exportPieces. cbn. auto.
    + apply (exportPieces_stroke _ _ _ s _ Hs). apply strokePieces_width.
Qed.

Lemma exportPieces_pathData (strokes : list Stroke) (width height : number)
  (s : Stroke) :
  In s strokes -> inSegments s = false ->
  In (Text (Stroke.pathData s)) (exportPieces strokes width height).
Proof.
  intros Hs Hseg. apply (exportPieces_stroke _ _ _ s _ Hs).
  unfold exportStroke. rewrite Hseg. unfold pathPieces. cbn. auto.
Qed.

Lemma thumbnailPieces_cases (strokes : list Stroke) (width height : number)
  (p : Piece) :
  In p (thumbnailPieces strokes width height) ->
  (exists t, p = Text t)
  \/ In p (viewBoxPieces (firstn 10 strokes) width height)
  \/ exists s, In s (firstn 10 strokes) /\ In p (thumbnailStroke s).
Proof.
  unfold thumbnailPieces. destruct strokes as [|s0 strokes]; [intros []|].
  set (top := firstn 10 (s0 :: strokes)).
  intros [<- | H]; [eauto|].
  apply in_app_or in H as [H | [<- | H]]; [auto | eauto |].
  apply in_app_or in H as [H | [<- | []]]; [|eauto].
  apply in_concat in H as (g & Hg & Hp).
  apply in_map_iff in Hg as (s & <- & Hs).
  right. right. now exists s.
Qed.

Lemma thumbnailPieces_stroke (strokes : list Stroke) (width height : number)
  (s : Stroke) (p : Piece) :
  In s (firstn 10 strokes) -> In p (thumbnailStroke s) ->
  In p (thumbnailPieces strokes width height).
Proof.
  intros Hs Hp. unfold thumbnailPieces.
  destruct strokes as [|s0 strokes]; [destruct Hs|].
  set (top := firstn 10 (s0 :: strokes)) in *.
  right. apply in_or_app. right. right. apply in_or_app. left.
  apply in_concat. exists (thumbnailStroke s). split; [|exact Hp].
  now apply in_map.
Qed.

Lemma viewBoxPieces_numbers (topStrokes : list Stroke) (width height : number)
  (p : Piece) :
  In p (viewBoxPieces topStrokes width height) ->
  match p with
  | Text _ => True
  | Fixed d _ => d = 1
  | Plain v => v = width \/ v = height
  end.
Proof.
  unfold viewBoxPieces.
  match goal with
  | |- context [if ?b then _ else _] => destruct b
  end; cbn [In];
    intros H; repeat (destruct H as [<- | H]; [cbn; auto|]); destruct H.
Qed.

Lemma thumbnailPieces_fixed (strokes : list Stroke) (width height : number)
  (d : nat) (v : number) :
  In (Fixed d v) (thumbnailPieces strokes width height) -> d = 1.
Proof.
  intros Hin.
  apply thumbnailPieces_cases in Hin as [(t & Ht) | [Hvb | (s & Hs & Hp)]];
    try discriminate.
  - now apply viewBoxPieces_numbers in Hvb.
  - now apply (strokePieces_numbers 1) in Hp.
Qed.

Lemma thumbnailPieces_coordinates (strokes : list Stroke)
  (width height : number) (s : Stroke) (pt : Point) :
  In s (firstn 10 strokes) -> isMarker s = true ->
  2 <= List.length (Stroke.points s) -> In pt (Stroke.points s) ->
  In (Fixed 1 (Point.x pt)) (thumbnailPieces strokes width height)
  /\ In (Fixed 1 (Point.y pt)) (thumbnailPieces strokes width height).
Proof.
  intros Hs Hm Hlen Hpt.
  assert (Hseg : inSegments s = true) by now apply inSegments_iff.
  destruct (strokePieces_coordinates 1 " " s pt Hlen Hpt) as (Hx & Hy).
  split; apply (thumbnailPieces_stroke _ _ _ s); auto;
    unfold thumbnailStroke; rewrite Hseg; assumption.
Qed.

Lemma thumbnailPieces_plain (strokes : list Stroke) (width height v : number) :
  In (Plain v) (thumbnailPieces strokes width height) ->
  v = width \/ v = height
  \/ exists s, In s (firstn 10 strokes) /\ v = Stroke.strokeWidth s.
Proof.
  intros Hin.
  apply thumbnailPieces_cases in Hin as [(t & Ht) | [Hvb | (s & Hs & Hp)]];
    try discriminate.
  - apply viewBoxPieces_numbers in Hvb. tauto.
  - right. right. exists s. split; [exact Hs|].
    now apply (strokePieces_numbers 1) in Hp.
Qed.

(** C6 (amended).  The text of each generator is the text of its pieces
    ([generateSvgContent] that of [exportPieces], [generateThumbnailSvg]
    that of [thumbnailPieces]), and in those pieces:
    - the numbers written with [toFixed] are, in the export, exactly the
      [x] and [y] coordinates of the points of marker strokes of two points
      or more, with 2 decimals; in the thumbnail they have 1 decimal, and
      are such coordinates or the four values of the computed view box;
    - the numbers written in the default format are the canvas width and
      height and the stroke width of every stroke, and nothing else;
    - the path data of every other stroke is copied as it was cached;
    - [toFixed(d)] of a finite number below [10^21] in magnitude has exactly
      [d] decimals.
    Both generators are functions of their arguments: equal inputs give
    equal text. *)
Theorem svg_marker_coordinates_fixed :
  (forall strokes width height,
      generateSvgContent strokes width height
      = emit (exportPieces strokes width height)
      /\ generateThumbnailSvg strokes width height
         = emit (thumbnailPieces strokes width height))
  /\ (forall strokes width height d v,
        In (Fixed d v) (exportPieces strokes width height) ->
        d = 2
        /\ exists s pt,
             In s strokes /\ isMarker s = true
             /\ 2 <= List.length (Stroke.points s)
             /\ In pt (Stroke.points s)
             /\ (v = Point.x pt \/ v = Point.y pt))
  /\ (forall strokes width height s pt,
        In s strokes -> isMarker s = true ->
        2 <= List.length (Stroke.points s) -> In pt (Stroke.points s) ->
        In (Fixed 2 (Point.x pt)) (exportPieces strokes width height)
        /\ In (Fixed 2 (Point.y pt)) (exportPieces strokes width height))
  /\ (forall strokes width height v,
        In (Plain v) (exportPieces strokes width height) <->
        v = width \/ v = height
        \/ exists s, In s strokes /\ v = Stroke.strokeWidth s)
  /\ (forall strokes width height s,
        In s strokes -> inSegments s = false ->
        In (Text (Stroke.pathData s)) (exportPieces strokes width height))
  /\ (forall strokes width height d v,
        In (Fixed d v) (thumbnailPieces strokes width height) -> d = 1)
  /\ (forall strokes width height s pt,
        In s (firstn 10 strokes) -> isMarker s = true ->
        2 <= List.length (Stroke.points s) -> In pt (Stroke.points s) ->
        In (Fixed 1 (Point.x pt)) (thumbnailPieces strokes width height)
        /\ In (Fixed 1 (Point.y pt)) (thumbnailPieces strokes width height))
  /\ (forall strokes width height v,
        In (Plain v) (thumbnailPieces strokes width height) ->
        v = width \/ v = height
        \/ exists s, In s (firstn 10 strokes) /\ v = Stroke.strokeWidth s)
  /\ (forall d v,
        1 <= d -> plain v = true ->
        isFixedDecimal d (render (Fixed d v)) = true)
  /\ (forall s,
        isMarker s = true -> 2 <= List.length (Stroke.points s) ->
        FullExport.renderStroke s
        = join (nl ++ "    ")
            (mapAdjacent (lineElement (toFixed 2) s) (Stroke.points s))
        /\ Thumbnail.renderStroke s
           = join " " (mapAdjacent (lineElement (toFixed 1) s) (Stroke.points s)))
  /\ (forall fmt s pt next,
        lineElement fmt s pt next
        = "<line x1=" ++ dq ++ fmt (Point.x pt) ++ dq
          ++ " y1=" ++ dq ++ fmt (Point.y pt) ++ dq
          ++ " x2=" ++ dq ++ fmt (Point.x next) ++ dq
          ++ " y2=" ++ dq ++ fmt (Point.y next) ++ dq
          ++ " stroke=" ++ dq ++ Stroke.color s ++ dq
          ++ " stroke-width=" ++ dq ++ numToString (Stroke.strokeWidth s) ++ dq
          ++ " stroke-linecap=" ++ dq ++ "round" ++ dq
          ++ " opacity=" ++ dq ++ "0.5" ++ dq ++ " />")
  /\ (forall topStrokes width height,
        (exists a b c d,
            Thumbnail.viewBox topStrokes width height
            = toFixed 1 a ++ " " ++ toFixed 1 b ++ " " ++ toFixed 1 c ++ " "
              ++ toFixed 1 d)
        \/ Thumbnail.viewBox topStrokes width height
           = "0 0 " ++ numToString width ++ " " ++ numToString height)
  /\ (forall strokes strokes' width width' height height',
        strokes = strokes' -> width = width' -> height = height' ->
        generateSvgContent strokes width height
        = generateSvgContent strokes' width' height'
        /\ generateThumbnailSvg strokes width height
           = generateThumbnailSvg strokes' width' height').
Proof.
  split; [intros; split;
          [apply generateSvgContent_pieces | apply generateThumbnailSvg_pieces]|].
  split; [apply exportPieces_fixed|].
  split; [apply exportPieces_coordinates|].
  split; [apply exportPieces_plain|].
  split; [apply exportPieces_pathData|].
  split; [apply thumbnailPieces_fixed|].
  split; [apply thumbnailPieces_coordinates|].
  split; [apply thumbnailPieces_plain|].
  split; [exact toFixed_fixed|].
  split; [|split; [|split]].
  - intros s Hm Hlen. unfold FullExport.renderStroke, Thumbnail.renderStroke.
    rewrite Hm.
    replace (1 <? List.length (Stroke.points s))%nat with true
      by (symmetry; apply Nat.ltb_lt; lia).
    split; reflexivity.
  - reflexivity.
  - exact viewBox_cases.
  - intros strokes strokes' width width' height height' -> -> ->.
    split; reflexivity.
Qed.

(** On the marker stroke of the scenario, exported on a canvas of 100 by
    80: the text is that of the pieces, the coordinate 2.005 is written
    with two decimals, and the width 100 in the default format. *)
Lemma svg_marker_coordinates_fixed_witness :
  generateSvgContent [ExportScenarios.markerZigzag] 100%float 80%float
  = emit (exportPieces [ExportScenarios.markerZigzag] 100%float 80%float)
  /\ In (Fixed 2 2.005%float)
       (exportPieces [ExportScenarios.markerZigzag] 100%float 80%float)
  /\ In (Plain 100%float)
       (exportPieces [ExportScenarios.markerZigzag] 100%float 80%float)
  /\ isFixedDecimal 2 (render (Fixed 2 2.005%float)) = true
  /\ render (Fixed 2 2.005%float) = "2.00"
  /\ render (Plain 100%float) = "100"
  /\ FullExport.renderStroke ExportScenarios.markerZigzag
     = join (nl ++ "    ")
         (mapAdjacent (lineElement (toFixed 2) ExportScenarios.markerZigzag)
            ExportScenarios.zigzag)
  /\ toFixed 1 3.14159%float = "3.1".
Proof.
  destruct svg_marker_coordinates_fixed
    as (Htext & _ & Hcoord & Hplain & _ & _ & _ & _ & Hfixed & Hlines & _).
  split; [apply (Htext [ExportScenarios.markerZigzag] 100%float 80%float)|].
  split.
  { apply (Hcoord [ExportScenarios.markerZigzag] 100%float 80%float
             ExportScenarios.markerZigzag
             (Point.mk 1%float 2.005%float 0.5%float));
      [now left | reflexivity | cbn; lia | now left]. }
  split.
  { apply (Hplain [ExportScenarios.markerZigzag] 100%float 80%float 100%float).
    now left. }
  split; [apply (Hfixed 2 2.005%float); [lia | vm_compute; reflexivity]|].
  split; [vm_compute; reflexivity|]. split; [vm_compute; reflexivity|].
  split; [apply (Hlines ExportScenarios.markerZigzag); [reflexivity | cbn; lia]|].
  vm_compute. reflexivity.
Defined.

End drawingUtilsFacts.

(** ** The document and its history *)

Module SketchpadFacts.
Import useSketchpad.

(** *** Recording a snapshot *)

Lemma saveStateToUndo_fields (cur : list Stroke) (st : State) :
  undoStack (saveStateToUndo cur st) = sliceLast 50 (undoStack st ++ [cur])
  /\ redoStack (saveStateToUndo cur st) = []
  /\ strokes (saveStateToUndo cur st) = strokes st
  /\ selection (saveStateToUndo cur st) = selection st
  /\ focusedId (saveStateToUndo cur st) = focusedId st
  /\ currentTool (saveStateToUndo cur st) = currentTool st.
Proof. repeat split. Qed.

(** *** Committing a stroke *)

Lemma continueDrawing_keeps (pts : list Point) (st : State) (s : Stroke) :
  currentStroke st = Some s ->
  Stroke.points s <> [] ->
  exists s',
    Stroke.points s' <> []
    /\ Stroke.id s' = Stroke.id s
    /\ fold_left (fun a p => continueDrawing p a) pts st
       = setCurrentStroke (Some s') st.
Proof.
  revert st s. induction pts as [|p pts IH]; intros st s Hcur Hne.
  - exists s. repeat split; auto. destruct st; cbn in *. now subst.
  - cbn [fold_left]. unfold continueDrawing at 2. rewrite Hcur.
    match goal with
    | |- context [setCurrentStroke (Some ?n) st] => set (s1 := n)
    end.
    destruct (IH (setCurrentStroke (Some s1) st) s1) as (s' & Hne' & Hid & Heq).
    + reflexivity.
    + subst s1; cbn. now destruct (Stroke.points s).
    + exists s'. repeat split; auto.
Qed.

Lemma commit_commits (s : Stroke) (st : State) :
  hasPoints s = true ->
  commit s st
  = setCurrentStroke None
      (setStrokes (strokes st ++ [s]) (saveStateToUndo (strokes st) st)).
Proof.
  intros Hp. unfold commit, endDrawing. cbn [currentStroke setCurrentStroke].
  unfold hasPoints in Hp. rewrite Hp. reflexivity.
Qed.

Lemma commit_fields (s : Stroke) (st : State) :
  hasPoints s = true ->
  strokes (commit s st) = (strokes st ++ [s])%list
  /\ undoStack (commit s st) = sliceLast 50 (undoStack st ++ [strokes st])
  /\ redoStack (commit s st) = []
  /\ currentTool (commit s st) = currentTool st.
Proof. intros Hp. rewrite (commit_commits s st Hp). repeat split. Qed.

(** A gesture made with a drawing tool commits one stroke with at least
    one point. *)
Lemma draw_commits (g : Gesture) (st : State) :
  isDrawingTool (currentTool st) = true ->
  exists s,
    hasPoints s = true /\ Stroke.id s = newId g /\ draw g st = commit s st.
Proof.
  intros Htool. unfold draw.
  assert (Hstart : exists s0,
             Stroke.points s0 <> [] /\ Stroke.id s0 = newId g
             /\ startDrawing (newId g) (first g) st
                = setCurrentStroke (Some s0) st).
  { unfold startDrawing.
    destruct (currentTool st); try discriminate Htool;
      eexists; (split; [|split; [|reflexivity]]); cbn; congruence. }
  destruct Hstart as (s0 & Hne0 & Hid0 & ->).
  destruct (continueDrawing_keeps (rest g) (setCurrentStroke (Some s0) st) s0)
    as (s & Hne & Hid & ->); auto.
  exists s. split; [|split; [congruence | reflexivity]].
  unfold hasPoints. now destruct (Stroke.points s).
Qed.

Lemma draw_fields (g : Gesture) (st : State) :
  isDrawingTool (currentTool st) = true ->
  exists s,
    Stroke.id s = newId g
    /\ strokes (draw g st) = (strokes st ++ [s])%list
    /\ undoStack (draw g st) = sliceLast 50 (undoStack st ++ [strokes st])
    /\ redoStack (draw g st) = []
    /\ currentTool (draw g st) = currentTool st.
Proof.
  intros Htool. destruct (draw_commits g st Htool) as (s & Hp & Hid & ->).
  exists s. split; [exact Hid|]. now apply commit_fields.
Qed.

(** Gestures made with a drawing tool are commits. *)
Lemma drawAll_commitAll (gs : list Gesture) :
  forall st,
    isDrawingTool (currentTool st) = true ->
    exists ss,
      List.length ss = List.length gs
      /\ forallb hasPoints ss = true
      /\ drawAll gs st = commitAll ss st.
Proof.
  induction gs as [|g gs IH]; intros st Htool.
  - now exists [].
  - destruct (draw_commits g st Htool) as (s & Hp & _ & Hd).
    destruct (IH (draw g st)) as (ss & Hl & Hall & Heq).
    { destruct (draw_fields g st Htool) as (? & _ & _ & _ & _ & ->). exact Htool. }
    exists (s :: ss). cbn [List.length forallb drawAll commitAll fold_left].
    rewrite Hl, Hp, Hall. repeat split.
    unfold drawAll, commitAll in Heq. now rewrite <- Hd.
Qed.

(** *** Undo *)

Lemma undo_pops (st : State) (older : list (list Stroke)) (snap : list Stroke) :
  undoStack st = (older ++ [snap])%list ->
  strokes (undo st) = snap
  /\ undoStack (undo st) = older
  /\ redoStack (undo st) = (redoStack st ++ [strokes st])%list.
Proof.
  intros Hu. unfold undo. rewrite Hu, length_app. cbn [List.length].
  replace (List.length older + 1 =? 0)%nat with false
    by (symmetry; apply Nat.eqb_neq; lia).
  cbn. unfold sliceInit. now rewrite last_last, removelast_last.
Qed.

Lemma undo_empty (st : State) : undoStack st = [] -> undo st = st.
Proof. intros Hu. unfold undo. now rewrite Hu. Qed.

(** Undoing as many times as there are snapshots on top of the stack
    restores the oldest of them. *)
Lemma undo_times (snaps : list (list Stroke)) :
  forall (st : State) (older : list (list Stroke)),
    undoStack st = (older ++ snaps)%list ->
    snaps <> [] ->
    strokes (times (List.length snaps) undo st) = hd [] snaps.
Proof.
  induction snaps as [|snap snaps IH] using rev_ind; intros st older Hu Hne.
  - congruence.
  - rewrite length_app, Nat.add_comm. cbn [List.length Nat.add times].
    rewrite app_assoc in Hu.
    destruct (undo_pops st _ _ Hu) as (Hs & Hu' & _).
    destruct snaps as [|first snaps].
    + cbn. exact Hs.
    + rewrite (IH (undo st) older Hu') by discriminate. reflexivity.
Qed.

(** The snapshots recorded by at most 50 commits are all on top of the undo
    stack afterwards, the oldest being the strokes before the first commit. *)
Lemma commitAll_history (ss : list Stroke) :
  forall st,
    forallb hasPoints ss = true ->
    List.length ss <= 50 ->
    exists older snaps,
      undoStack (commitAll ss st) = (older ++ snaps)%list
      /\ List.length snaps = List.length ss
      /\ hd (strokes st) snaps = strokes st.
Proof.
  induction ss as [|s ss IH] using rev_ind; intros st Hall Hlen.
  - exists (undoStack st), []. cbn. now rewrite app_nil_r.
  - rewrite length_app in Hlen. cbn in Hlen.
    rewrite forallb_app in Hall. apply andb_prop in Hall as (Hall & Hs).
    cbn in Hs. rewrite andb_true_r in Hs.
    destruct (IH st Hall ltac:(lia)) as (older & snaps & Hu & Hl & Hh).
    unfold commitAll in *. rewrite fold_left_app. cbn [fold_left].
    set (mid := fold_left (fun a s0 => commit s0 a) ss st) in *.
    destruct (commit_fields s mid Hs) as (_ & Hu' & _).
    destruct (sliceLast_keeps 50 older (snaps ++ [strokes mid]))
      as (pre & Hpre).
    { rewrite length_app. cbn. lia. }
    exists pre, (snaps ++ [strokes mid])%list. repeat split.
    + rewrite Hu', Hu, <- app_assoc. exact Hpre.
    + rewrite !length_app. cbn. lia.
    + destruct snaps as [|s0 snaps']; cbn in *.
      * destruct ss; [reflexivity | discriminate].
      * exact Hh.
Qed.

(** *** The scenario of the specification *)

(** Stroke A, then stroke B; undo leaves [A]; redo gives [A, B] back. *)
Example draw_undo_redo :
  let a := mkGesture "A" (Point.mk 0%float 0%float 0.5%float)
             [Point.mk 10%float 10%float 0.5%float] in
  let b := mkGesture "B" (Point.mk 20%float 20%float 0.5%float)
             [Point.mk 30%float 30%float 0.5%float] in
  let drawn := draw b (draw a initialState) in
  map Stroke.id (strokes drawn) = ["A"; "B"]
  /\ map Stroke.pathData (strokes drawn) = ["M 0 0 L 10 10"; "M 20 20 L 30 30"]
  /\ map Stroke.id (strokes (undo drawn)) = ["A"]
  /\ strokes (redo (undo drawn)) = strokes drawn.
Proof. vm_compute. repeat split. Qed.

(** *** C10 *)

(** C10: [loadStrokes] replaces the committed strokes by the given list and
    resets all other document state: both history stacks are empty, so that
    neither undo nor redo is available (and both are no-ops), the selection
    is empty, the focus is cleared and the in-progress stroke is dropped. *)
Theorem loadStrokes_resets_document (newStrokes : list Stroke) (st : State) :
  let st' := loadStrokes newStrokes st in
  strokes st' = newStrokes
  /\ undoStack st' = [] /\ redoStack st' = []
  /\ canUndo st' = false /\ canRedo st' = false
  /\ undo st' = st' /\ redo st' = st'
  /\ selection st' = [] /\ focusedId st' = None
  /\ currentStroke st' = None.
Proof. cbn. repeat split. Qed.

(** *** C3 *)

(** C3: whatever the undo stack holds before, after [saveStateToUndo] it
    holds at most 50 entries ([min 50 (n + 1)] of them); it is the old stack
    with the new snapshot on top, minus the entries [evicted] from the old
    end, which are as many as exceed the cap. *)
Theorem saveStateToUndo_caps_past (cur : list Stroke) (st : State) :
  let past := undoStack (saveStateToUndo cur st) in
  List.length past <= 50
  /\ List.length past = Nat.min 50 (S (List.length (undoStack st)))
  /\ List.last past [] = cur
  /\ exists evicted,
       (undoStack st ++ [cur] = evicted ++ past)%list
       /\ List.length evicted = S (List.length (undoStack st)) - 50.
Proof.
  cbn zeta. destruct (saveStateToUndo_fields cur st) as (-> & _).
  assert (Hlen : List.length (sliceLast 50 (undoStack st ++ [cur]))
                 = Nat.min 50 (S (List.length (undoStack st)))).
  { rewrite sliceLast_length, length_app. cbn [List.length]. lia. }
  split; [lia|]. split; [exact Hlen|].
  destruct (sliceLast_keeps 50 (undoStack st) [cur]) as (pre & Hpre);
    [cbn; lia|].
  split; [rewrite Hpre; apply last_last|].
  destruct (sliceLast_suffix 50 (undoStack st ++ [cur])) as (ev & Hev & Hevl).
  exists ev. split; [exact Hev|]. rewrite Hevl, length_app. cbn. lia.
Qed.

(** *** C1 *)

(** C1 (as stated, refuted): 51 strokes committed on the initial, empty
    document (51 taps of the pen) and then 51 undos do not give back the
    empty document: the 51st record evicted the snapshot of the empty
    document, so the undos stop at the document holding the first stroke. *)
Lemma fifty_one_commits_not_undone :
  let dots := repeat (Scenarios.dot "dot" 0%float 0%float) 51 in
  let st := times 51 undo (commitAll dots initialState) in
  drawAll (Scenarios.taps 51) initialState = commitAll dots initialState
  /\ forallb hasPoints dots = true
  /\ strokes st = [Scenarios.dot "dot" 0%float 0%float]
  /\ strokes st <> strokes initialState
  /\ canUndo st = false.
Proof. vm_compute. repeat split; discriminate. Qed.

(** C1 (amended): for every document state and every [N <= 50], [N]
    commits, each of a stroke with at least one point, followed by [N] undos
    leave [strokes] as it was before the sequence. *)
Theorem commits_then_undos_restore (ss : list Stroke) (st : State) :
  forallb hasPoints ss = true ->
  List.length ss <= 50 ->
  strokes (times (List.length ss) undo (commitAll ss st)) = strokes st.
Proof.
  intros Hall Hlen.
  destruct (commitAll_history ss st Hall Hlen) as (older & snaps & Hu & Hl & Hh).
  destruct snaps as [|snap snaps].
  - destruct ss; [reflexivity | discriminate].
  - rewrite <- Hl, (undo_times _ _ _ Hu) by discriminate. exact Hh.
Qed.

Lemma commits_then_undos_restore_witness :
  let dots := repeat (Scenarios.dot "dot" 0%float 0%float) 50 in
  forallb hasPoints dots = true
  /\ List.length dots <= 50
  /\ strokes (times 50 undo (commitAll dots Scenarios.midHistory))
     = strokes Scenarios.midHistory.
Proof.
  cbn zeta. split; [reflexivity|]. split; [vm_compute; lia|].
  apply (commits_then_undos_restore
           (repeat (Scenarios.dot "dot" 0%float 0%float) 50)
           Scenarios.midHistory).
  - reflexivity.
  - vm_compute; lia.
Defined.

(** The same for gestures: at most 50 strokes drawn with a drawing tool and
    as many undos. *)
Corollary gestures_then_undos_restore (gs : list Gesture) (st : State) :
  isDrawingTool (currentTool st) = true ->
  List.length gs <= 50 ->
  strokes (times (List.length gs) undo (drawAll gs st)) = strokes st.
Proof.
  intros Htool Hlen.
  destruct (drawAll_commitAll gs st Htool) as (ss & Hl & Hall & ->).
  destruct (commitAll_history ss st Hall ltac:(lia)) as (older & snaps & Hu & Hl' & Hh).
  destruct snaps as [|snap snaps].
  - destruct ss; [destruct gs; [reflexivity | discriminate] | discriminate].
  - rewrite <- Hl, <- Hl', (undo_times _ _ _ Hu) by discriminate. exact Hh.
Qed.

(** *** C2 *)

(** C2 (as stated, refuted): on an empty document [clear] returns early,
    and with an empty selection [deleteSelected] returns early; neither
    touches the redo stack, which here still holds the undone stroke. *)
Lemma guarded_calls_keep_redo :
  strokes Scenarios.undone = []
  /\ selection Scenarios.undone = []
  /\ redoStack Scenarios.undone = [[Scenarios.dot "a" 1%float 2%float]]
  /\ redoStack (clear Scenarios.undone)
     = [[Scenarios.dot "a" 1%float 2%float]]
  /\ redoStack (deleteSelected Scenarios.undone)
     = [[Scenarios.dot "a" 1%float 2%float]].
Proof. vm_compute. repeat split. Qed.

(** C2 (amended): a committed stroke and [removeStroke] always leave the
    redo stack empty; [clear] does so on a non-empty document and
    [deleteSelected] with a non-empty selection; on an empty document
    [clear], and with an empty selection [deleteSelected], change nothing. *)
Theorem mutations_clear_redo (st : State) (g : Gesture) (id : string) :
  (isDrawingTool (currentTool st) = true -> redoStack (draw g st) = [])
  /\ (forall s, hasPoints s = true -> redoStack (commit s st) = [])
  /\ redoStack (removeStroke id st) = []
  /\ (strokes st <> [] -> redoStack (clear st) = [])
  /\ (selection st <> [] -> redoStack (deleteSelected st) = [])
  /\ (strokes st = [] -> clear st = st)
  /\ (selection st = [] -> deleteSelected st = st).
Proof.
  repeat split.
  - intros Htool.
    destruct (draw_fields g st Htool) as (s & _ & _ & _ & Hr & _).
    exact Hr.
  - intros s Hp. now apply commit_fields.
  - intros Hs. unfold clear. destruct (strokes st); [congruence | reflexivity].
  - intros Hsel. unfold deleteSelected.
    destruct (selection st); [congruence | reflexivity].
  - intros H0. unfold clear. now rewrite H0.
  - intros H0. unfold deleteSelected. now rewrite H0.
Qed.

Lemma mutations_clear_redo_witness :
  redoStack Scenarios.midHistory <> []
  /\ redoStack (draw (Scenarios.tap "c" 5%float 6%float) Scenarios.midHistory) = []
  /\ redoStack (removeStroke "a" Scenarios.midHistory) = []
  /\ redoStack (clear Scenarios.midHistory) = []
  /\ redoStack (deleteSelected Scenarios.midHistory) = [].
Proof.
  split; [vm_compute; discriminate|].
  destruct (mutations_clear_redo Scenarios.midHistory
              (Scenarios.tap "c" 5%float 6%float) "a")
    as (Hdraw & _ & Hrem & Hclear & Hdel & _).
  split; [apply Hdraw; reflexivity|].
  split; [exact Hrem|].
  split; [apply Hclear; vm_compute; discriminate|].
  apply Hdel; vm_compute; discriminate.
Defined.

(** *** C4 *)

Lemma undo_bounded (st : State) : historyBounded st -> historyBounded (undo st).
Proof.
  unfold historyBounded. intros Hb.
  destruct (snoc_cases (undoStack st)) as [Hu | (us & u & Hu)].
  - now rewrite (undo_empty st Hu).
  - destruct (undo_pops st _ _ Hu) as (_ & Hu' & Hr').
    rewrite Hu', Hr'. rewrite Hu in Hb.
    rewrite length_app in *. cbn [List.length] in *. lia.
Qed.

Lemma redo_pushes (st : State) (newer : list (list Stroke)) (snap : list Stroke) :
  redoStack st = (newer ++ [snap])%list ->
  strokes (redo st) = snap
  /\ redoStack (redo st) = newer
  /\ undoStack (redo st) = (undoStack st ++ [strokes st])%list.
Proof.
  intros Hr. unfold redo. rewrite Hr, length_app. cbn [List.length].
  replace (List.length newer + 1 =? 0)%nat with false
    by (symmetry; apply Nat.eqb_neq; lia).
  cbn. unfold sliceInit. now rewrite last_last, removelast_last.
Qed.

Lemma redo_empty (st : State) : redoStack st = [] -> redo st = st.
Proof. intros Hr. unfold redo. now rewrite Hr. Qed.

Lemma redo_bounded (st : State) : historyBounded st -> historyBounded (redo st).
Proof.
  unfold historyBounded. intros Hb.
  destruct (snoc_cases (redoStack st)) as [Hr | (rs & r & Hr)].
  - now rewrite (redo_empty st Hr).
  - destruct (redo_pushes st _ _ Hr) as (_ & Hr' & Hu').
    rewrite Hu', Hr'. rewrite Hr in Hb.
    rewrite length_app in *. cbn [List.length] in *. lia.
Qed.

Lemma saveStateToUndo_bounded (cur : list Stroke) (st : State) :
  historyBounded (saveStateToUndo cur st).
Proof.
  unfold historyBounded. cbn [saveStateToUndo undoStack redoStack markDirty
    setIsDirty setRedoStack setUndoStack List.length].
  rewrite sliceLast_length. lia.
Qed.

Lemma historyStep_bounded (op : HistoryOp) (st : State) :
  historyBounded st -> historyBounded (historyStep op st).
Proof.
  destruct op; cbn [historyStep]; intros Hb.
  - apply saveStateToUndo_bounded.
  - now apply undo_bounded.
  - now apply redo_bounded.
Qed.

Lemma step_bounded (op : Op) (st : State) :
  historyBounded st -> historyBounded (step op st).
Proof.
  intros Hb. destruct op; cbn [step]; try exact Hb.
  - unfold startDrawing. destruct (currentTool st); exact Hb.
  - unfold continueDrawing. destruct (currentStroke st); exact Hb.
  - unfold endDrawing. destruct (currentStroke st) as [prev|]; [|exact Hb].
    destruct (0 <? List.length (Stroke.points prev))%nat; [|exact Hb].
    apply (saveStateToUndo_bounded (strokes st) st).
  - now apply undo_bounded.
  - now apply redo_bounded.
  - unfold clear. destruct (List.length (strokes st) =? 0)%nat; [exact Hb|].
    apply (saveStateToUndo_bounded (strokes st) st).
  - apply (saveStateToUndo_bounded (strokes st) st).
  - unfold deleteSelected.
    destruct (List.length (selection st) =? 0)%nat; [exact Hb|].
    apply (saveStateToUndo_bounded (strokes st) st).
  - unfold historyBounded. cbn. lia.
Qed.

Lemma runHistory_bounded (ops : list HistoryOp) :
  forall st, historyBounded st -> historyBounded (runHistory ops st).
Proof.
  induction ops as [|op ops IH]; intros st Hb; [exact Hb|].
  apply IH. now apply historyStep_bounded.
Qed.

Lemma run_bounded (ops : list Op) :
  forall st, historyBounded st -> historyBounded (run ops st).
Proof.
  induction ops as [|op ops IH]; intros st Hb; [exact Hb|].
  apply IH. now apply step_bounded.
Qed.

Lemma initialState_bounded : historyBounded initialState.
Proof. unfold historyBounded. cbn. lia. Qed.

(** C4 (as stated, refuted): no sequence of record, undo and redo
    operations, and no sequence of calls of the hook's callbacks, leads
    from the initial state to an undo stack of more than 50 entries. *)
Lemma past_never_exceeds_cap :
  ~ (exists ops, 50 < List.length (undoStack (runHistory ops initialState)))
  /\ ~ (exists ops, 50 < List.length (undoStack (run ops initialState))).
Proof.
  split; intros (ops & Hlt).
  - pose proof (runHistory_bounded ops _ initialState_bounded) as Hb.
    unfold historyBounded in Hb. lia.
  - pose proof (run_bounded ops _ initialState_bounded) as Hb.
    unfold historyBounded in Hb. lia.
Qed.

(** C4 (amended): [redo] pushes the current strokes onto the undo stack
    without applying the cap, so the stack grows by one whatever its size;
    yet in every state reached from the initial one the undo and redo
    stacks together hold at most 50 snapshots, because [redo] only gives
    back what an [undo] took, and so the undo stack never exceeds 50. *)
Theorem redo_uncapped_history_bounded :
  (forall st newer snap,
      redoStack st = (newer ++ [snap])%list ->
      undoStack (redo st) = (undoStack st ++ [strokes st])%list
      /\ List.length (undoStack (redo st)) = S (List.length (undoStack st)))
  /\ (forall ops,
        let st := runHistory ops initialState in
        List.length (undoStack st) + List.length (redoStack st) <= 50
        /\ List.length (undoStack st) <= 50)
  /\ (forall ops,
        let st := run ops initialState in
        List.length (undoStack st) + List.length (redoStack st) <= 50
        /\ List.length (undoStack st) <= 50).
Proof.
  split; [|split].
  - intros st newer snap Hr. destruct (redo_pushes st _ _ Hr) as (_ & _ & ->).
    split; [reflexivity|]. rewrite length_app. cbn. lia.
  - intros ops st.
    pose proof (runHistory_bounded ops _ initialState_bounded) as Hb.
    unfold historyBounded in Hb. subst st. lia.
  - intros ops st.
    pose proof (run_bounded ops _ initialState_bounded) as Hb.
    unfold historyBounded in Hb. subst st. lia.
Qed.

Lemma redo_uncapped_history_bounded_witness :
  redoStack Scenarios.undone
  = ([] ++ [[Scenarios.dot "a" 1%float 2%float]])%list
  /\ undoStack (redo Scenarios.undone)
     = (undoStack Scenarios.undone ++ [strokes Scenarios.undone])%list.
Proof.
  destruct redo_uncapped_history_bounded as (Hpush & _).
  split; [vm_compute; reflexivity|].
  apply (Hpush Scenarios.undone [] [Scenarios.dot "a" 1%float 2%float]).
  vm_compute; reflexivity.
Defined.

(** *** C5 *)

Lemma filter_other_id (id other : string) (ids : list string) :
  In id (filter (fun sId => negb (String.eqb sId other)) ids) ->
  In id ids /\ id <> other.
Proof.
  rewrite filter_In. intros (Hin & Hneq). split; [exact Hin|].
  intros ->. now rewrite String.eqb_refl in Hneq.
Qed.

Lemma strokeIds_filter (keep : Stroke -> bool) (id : string) (ss : list Stroke) :
  In id (map Stroke.id ss) ->
  (forall s, Stroke.id s = id -> keep s = true) ->
  In id (map Stroke.id (filter keep ss)).
Proof.
  rewrite !in_map_iff. intros (s & Hid & Hin) Hkeep.
  exists s. split; [exact Hid|]. apply filter_In. auto.
Qed.

Lemma strokeIds_of_filter (keep : Stroke -> bool) (id : string) (ss : list Stroke) :
  In id (map Stroke.id (filter keep ss)) -> In id (map Stroke.id ss).
Proof.
  rewrite !in_map_iff. intros (s & Hid & Hin).
  exists s. split; [exact Hid|]. now apply filter_In in Hin.
Qed.

Ltac vacuous :=
  split; [intros ? []| intros ? ?; discriminate].

Lemma step_wellReferenced (op : Op) (st : State) :
  wellReferenced st -> idsPresent op st -> wellReferenced (step op st).
Proof.
  intros Hw Hid. pose proof Hw as (Hsel & Hfoc).
  destruct op; cbn [step]; try exact Hw.
  - (* setFocusedId *)
    split; [exact Hsel|]. cbn. intros id ->. exact Hid.
  - unfold startDrawing. destruct (currentTool st); exact Hw.
  - unfold continueDrawing. destruct (currentStroke st); exact Hw.
  - (* endDrawing *)
    unfold endDrawing. destruct (currentStroke st) as [prev|]; [|exact Hw].
    destruct (0 <? List.length (Stroke.points prev))%nat; [|exact Hw].
    unfold wellReferenced, strokeIds. cbn.
    split; intros id H; rewrite map_app; apply in_or_app; left; auto.
  - (* undo *)
    unfold undo. destruct (List.length (undoStack st) =? 0)%nat; [exact Hw|].
    vacuous.
  - unfold redo. destruct (List.length (redoStack st) =? 0)%nat; [exact Hw|].
    vacuous.
  - unfold clear. destruct (List.length (strokes st) =? 0)%nat; [exact Hw|].
    vacuous.
  - (* removeStroke *)
    unfold wellReferenced, strokeIds, removeStroke. cbn. split.
    + intros id' Hin. apply filter_other_id in Hin as (Hin & Hneq).
      apply strokeIds_filter; [now apply Hsel|].
      intros s <-. apply Bool.negb_true_iff, String.eqb_neq. exact Hneq.
    + intros id' Hf. destruct (focusedId st) as [f|] eqn:Ef; [|discriminate].
      destruct (String.eqb_spec f id) as [->|Hneq]; [discriminate|].
      injection Hf as <-.
      apply strokeIds_filter; [now apply Hfoc|].
      intros s Hs. apply Bool.negb_true_iff, String.eqb_neq. congruence.
  - (* toggleSelection *)
    cbn in Hid. unfold wellReferenced, strokeIds, toggleSelection. cbn. split.
    + intros id' Hin. destruct (includes id (selection st)).
      * apply filter_other_id in Hin as (Hin & _). now apply Hsel.
      * apply in_app_or in Hin as [Hin | [<- | []]]; [now apply Hsel | exact Hid].
    + intros id' Hf. destruct (focusedId st) as [f|] eqn:Ef; [|discriminate].
      destruct (String.eqb f id); [discriminate|].
      injection Hf as <-. now apply Hfoc.
  - (* toggleFocused *)
    cbn in Hid. split; [exact Hsel|]. unfold toggleFocused. cbn.
    intros id' Hf. replace id' with id; [exact Hid|].
    destruct (focusedId st) as [f|]; [|congruence].
    destruct (String.eqb f id); [discriminate | congruence].
  - vacuous.
  - unfold deleteSelected.
    destruct (List.length (selection st) =? 0)%nat; [exact Hw|]. vacuous.
  - (* selectAll *)
    split; [|exact Hfoc]. cbn. auto.
  - (* selectByRect *)
    split; [|intros ? ?; discriminate]. cbn. intros id' Hin.
    now apply strokeIds_of_filter in Hin.
  - vacuous.
Qed.

Lemma run_wellReferenced (ops : list Op) :
  forall st,
    wellReferenced st -> runsOnPresentIds ops st -> wellReferenced (run ops st).
Proof.
  induction ops as [|op ops IH]; intros st Hw Hp; [exact Hw|].
  destruct Hp as (Hop & Hrest). apply IH; [|exact Hrest].
  now apply step_wellReferenced.
Qed.

(** C5 (as stated, refuted): [toggleSelection] and [toggleFocused] take any
    id; called on the initial, empty document they leave a selection and a
    focus that name no stroke. *)
Lemma dangling_ids_reachable :
  let st := run [OpToggleSelection "ghost"; OpToggleFocused "ghost"] initialState in
  strokes st = []
  /\ selection st = ["ghost"]
  /\ focusedId st = Some "ghost"
  /\ ~ wellReferenced st.
Proof.
  cbn. repeat split. intros (Hsel & _). exact (Hsel "ghost" (or_introl eq_refl)).
Qed.

(** C5 (amended): in every state reached from the initial one by the hook's
    callbacks, provided each id given to [toggleSelection], [toggleFocused]
    or [setFocusedId] names a stroke of the document at the time of the
    call, every selected id and the focused id name a stroke of the
    document. *)
Theorem selection_and_focus_name_strokes (ops : list Op) :
  runsOnPresentIds ops initialState ->
  wellReferenced (run ops initialState).
Proof.
  apply run_wellReferenced. vacuous.
Qed.

Lemma selection_and_focus_name_strokes_witness :
  let ops := [OpStartDrawing "a" (Point.mk 1%float 2%float 0.5%float);
              OpEndDrawing;
              OpStartDrawing "b" (Point.mk 3%float 4%float 0.5%float);
              OpEndDrawing;
              OpToggleSelection "a"; OpToggleFocused "b"; OpToggleSelection "b";
              OpRemoveStroke "b"; OpUndo; OpSelectAll; OpDeleteSelected] in
  runsOnPresentIds ops initialState /\ wellReferenced (run ops initialState).
Proof.
  cbn zeta.
  assert (Hp : runsOnPresentIds
                 [OpStartDrawing "a" (Point.mk 1%float 2%float 0.5%float);
                  OpEndDrawing;
                  OpStartDrawing "b" (Point.mk 3%float 4%float 0.5%float);
                  OpEndDrawing;
                  OpToggleSelection "a"; OpToggleFocused "b";
                  OpToggleSelection "b";
                  OpRemoveStroke "b"; OpUndo; OpSelectAll; OpDeleteSelected]
                 initialState).
  { cbn. repeat split; auto. }
  split; [exact Hp|].
  exact (selection_and_focus_name_strokes _ Hp).
Defined.

End SketchpadFacts.


(** ** Rendering *)

Module SkiaCanvasFacts.
Import SkiaCanvas.

Lemma calligraphySegment_widths (stroke : Stroke) (pts : list Point) :
  flat_map onlyLineWidth (mapAdjacent (calligraphySegment stroke) pts)
  = mapAdjacent (segmentWidth (Stroke.strokeWidth stroke)) pts.
Proof.
  induction pts as [|pt pts IH]; [reflexivity|].
  destruct pts as [|next pts]; [reflexivity|].
  cbn [mapAdjacent flat_map] in *. rewrite IH. reflexivity.
Qed.

Lemma mapAdjacent_length {A B} (f : A -> A -> B) (arr : list A) :
  List.length (mapAdjacent f arr) = List.length arr - 1.
Proof.
  induction arr as [|a arr IH]; [reflexivity|].
  destruct arr as [|b arr]; [reflexivity|].
  cbn [mapAdjacent List.length] in *. rewrite IH. lia.
Qed.

Lemma calligraphy_lineWidths (stroke : Stroke) (sel : list string)
  (foc : option string) (cur : bool) :
  Stroke.brushType stroke = calligraphy ->
  2 <= List.length (Stroke.points stroke) ->
  lineWidths (renderStroke sel foc stroke cur)
  = mapAdjacent (segmentWidth (Stroke.strokeWidth stroke)) (Stroke.points stroke).
Proof.
  intros Hb Hlen. unfold renderStroke, RegularStroke. rewrite Hb.
  cbn [BrushType_eqb andb].
  replace (1 <? List.length (Stroke.points stroke))%nat with true
    by (symmetry; apply Nat.ltb_lt; lia).
  cbn [lineWidths]. rewrite flat_map_app, calligraphySegment_widths.
  now destruct (negb cur && includes (Stroke.id stroke) sel).
Qed.

Lemma pressure_unused (stroke : Stroke) (f : Point -> number)
  (sel : list string) (foc : option string) (cur : bool) :
  Stroke.brushType stroke <> calligraphy ->
  renderStroke sel foc (withPressures f stroke) cur
  = renderStroke sel foc stroke cur.
Proof.
  intros Hb. unfold renderStroke, RegularStroke, MarkerStroke, withPressures.
  cbn [Stroke.id Stroke.points Stroke.color Stroke.strokeWidth
       Stroke.brushType Stroke.pathData].
  rewrite length_map.
  destruct (Stroke.brushType stroke); try reflexivity. congruence.
Qed.

(** C8 (as stated, refuted): the stroke of the scenario renders its one
    segment at width 4.500000000000001, not 4.5: in double arithmetic
    [0.2 + 0.4] is 0.6000000000000001, half of it 0.30000000000000004, ten
    times that 3.0000000000000004, and the product with 1.5 rounds up. *)
Lemma scenario_width_is_not_4_5 :
  lineWidths (renderStroke [] None CanvasScenarios.calligraphyLine false)
  = [4.500000000000001%float]
  /\ numToString (0.2 + 0.4)%float = "0.6000000000000001"
  /\ numToString (10 * ((0.2 + 0.4) / 2) * 1.5)%float = "4.500000000000001"
  /\ (4.500000000000001 =? 4.5)%float = false
  /\ lineWidths (renderStroke [] None CanvasScenarios.calligraphyLine false)
     <> [4.5%float].
Proof.
  repeat split; try (vm_compute; reflexivity).
  intros H.
  apply (f_equal (fun ws => match ws with
                            | [w] => PrimFloat.eqb w 4.5%float
                            | _ => true
                            end)) in H.
  vm_compute in H. discriminate.
Qed.

(** C8 (amended): a calligraphy stroke with at least two points is rendered
    as one line per pair of adjacent points, of width
    [Math.max(1, strokeWidth * averagePressureOfThePair * 1.5)] evaluated in
    double arithmetic; the scenario stroke (stored width 10, pressures 0.2
    and 0.4) has its one segment at width 4.500000000000001; the rendering
    of a stroke of any other brush type, pen and marker among them, does not
    depend on the pressure of its points. *)
Theorem calligraphy_widths_follow_pressure :
  (forall stroke sel foc cur,
      Stroke.brushType stroke = calligraphy ->
      2 <= List.length (Stroke.points stroke) ->
      lineWidths (renderStroke sel foc stroke cur)
      = mapAdjacent
          (fun pt next =>
             Math_max 1%float
               (Stroke.strokeWidth stroke
                * ((Point.pressure pt + Point.pressure next) / 2) * 1.5)%float)
          (Stroke.points stroke)
      /\ List.length (lineWidths (renderStroke sel foc stroke cur))
         = List.length (Stroke.points stroke) - 1)
  /\ lineWidths (renderStroke [] None CanvasScenarios.calligraphyLine false)
     = [4.500000000000001%float]
  /\ (forall stroke f sel foc cur,
        Stroke.brushType stroke = pen \/ Stroke.brushType stroke = marker ->
        renderStroke sel foc (withPressures f stroke) cur
        = renderStroke sel foc stroke cur
        /\ lineWidths (renderStroke sel foc stroke cur) = []).
Proof.
  split; [|split].
  - intros stroke sel foc cur Hb Hlen.
    rewrite (calligraphy_lineWidths stroke sel foc cur Hb Hlen).
    split; [reflexivity | apply mapAdjacent_length].
  - vm_compute. reflexivity.
  - intros stroke f sel foc cur Hb. split.
    + apply pressure_unused. destruct Hb as [-> | ->]; discriminate.
    + unfold renderStroke, RegularStroke, MarkerStroke.
      destruct Hb as [-> | ->]; cbn [BrushType_eqb andb lineWidths].
      * now destruct (negb cur && includes (Stroke.id stroke) sel).
      * now destruct (negb cur && includes (Stroke.id stroke) sel
                      && (1 <? List.length (Stroke.points stroke))%nat).
Qed.

Lemma calligraphy_widths_follow_pressure_witness :
  Stroke.brushType CanvasScenarios.calligraphyLine = calligraphy
  /\ 2 <= List.length (Stroke.points CanvasScenarios.calligraphyLine)
  /\ List.length
       (lineWidths (renderStroke [] None CanvasScenarios.calligraphyLine false))
     = 1
  /\ Stroke.brushType CanvasScenarios.penLine = pen
  /\ renderStroke [] None
       (withPressures (fun _ => 1%float) CanvasScenarios.penLine) false
     = renderStroke [] None CanvasScenarios.penLine false
  /\ Stroke.brushType CanvasScenarios.markerLine = marker
  /\ renderStroke [] None
       (withPressures (fun _ => 1%float) CanvasScenarios.markerLine) false
     = renderStroke [] None CanvasScenarios.markerLine false.
Proof.
  destruct calligraphy_widths_follow_pressure as (Hcal & _ & Hother).
  split; [reflexivity|]. split; [cbn; lia|].
  split.
  { apply (Hcal CanvasScenarios.calligraphyLine [] None false);
      [reflexivity | cbn; lia]. }
  split; [reflexivity|].
  split.
  { apply (Hother CanvasScenarios.penLine); left; reflexivity. }
  split; [reflexivity|].
  apply (Hother CanvasScenarios.markerLine); right; reflexivity.
Defined.

End SkiaCanvasFacts.



(** ** The nearest-stroke hit test *)

Module SketchScreenFacts.
Import SketchScreen JsNumberFacts.

Lemma visitStroke_scan (x y : number) (stroke : Stroke) (best : Best) :
  visitStroke x y best stroke
  = scan best
      (map (fun pt => (Stroke.id stroke, distanceTo x y pt)) (Stroke.points stroke)).
Proof.
  unfold visitStroke, scan. revert best.
  induction (Stroke.points stroke) as [|pt pts IH]; intros best; [reflexivity|].
  cbn [fold_left map]. rewrite <- IH. reflexivity.
Qed.

Lemma findNearestStrokeId_scan (x y : number) (strokes : list Stroke)
  (radius : number) :
  findNearestStrokeId x y strokes radius
  = fst (scan (None, radius) (candidates x y strokes)).
Proof.
  unfold findNearestStrokeId, candidates. f_equal.
  generalize (@None string, radius) as best.
  induction strokes as [|s strokes IH]; intros best; [reflexivity|].
  cbn [fold_left flat_map]. unfold scan in *.
  rewrite fold_left_app, <- IH. f_equal. apply visitStroke_scan.
Qed.

Lemma scan_cons (best : Best) (c : string * number) (cands : list (string * number)) :
  scan best (c :: cands)
  = scan (if (snd c <? snd best)%float then (Some (fst c), snd c) else best) cands.
Proof. reflexivity. Qed.

(** What one pass leaves in [bestId] and [bestDist]: the start values when
    no candidate is below the start distance; otherwise the first candidate
    among those of least distance. *)
Lemma scan_spec (cands : list (string * number)) :
  forall best,
    (scan best cands = best
     /\ forall c, In c cands -> (snd c <? snd best)%float = false)
    \/ exists pre id d post,
         cands = (pre ++ (id, d) :: post)%list
         /\ scan best cands = (Some id, d)
         /\ (d <? snd best)%float = true
         /\ (forall c, In c cands -> (snd c <? d)%float = false)
         /\ (forall c, In c pre -> (snd c <? snd best)%float = true ->
                       (d <? snd c)%float = true).
Proof.
  induction cands as [|c cands IH]; intros best.
  - left. split; [reflexivity | intros ? []].
  - rewrite scan_cons.
    destruct (snd c <? snd best)%float eqn:Hc.
    + right. destruct (IH (Some (fst c), snd c)) as [(Hs & Hnone) | Hsome].
      * exists [], (fst c), (snd c), cands. cbn [snd] in Hnone.
        repeat split.
        -- now destruct c.
        -- exact Hs.
        -- exact Hc.
        -- intros c' [<- | Hin]; [apply ltb_irrefl | now apply Hnone].
        -- intros ? [].
      * destruct Hsome as (pre & id & d & post & -> & Hs & Hd & Hmin & Hfirst).
        cbn [snd] in Hd, Hfirst.
        exists (c :: pre), id, d, post. repeat split.
        -- exact Hs.
        -- exact (ltb_trans _ _ _ Hd Hc).
        -- intros c' [<- | Hin]; [now apply ltb_asym | now apply Hmin].
        -- intros c' [<- | Hin] Hc'; [exact Hd|].
           destruct (ltb_cotrans _ _ _ _ Hd Hc') as [H | H]; [exact H|].
           now apply Hfirst.
    + destruct (IH best) as [(Hs & Hnone) | Hsome].
      * left. split; [exact Hs|].
        intros c' [<- | Hin]; [exact Hc | now apply Hnone].
      * right.
        destruct Hsome as (pre & id & d & post & -> & Hs & Hd & Hmin & Hfirst).
        exists (c :: pre), id, d, post. repeat split.
        -- exact Hs.
        -- exact Hd.
        -- intros c' [<- | Hin]; [|now apply Hmin].
           destruct (snd c <? d)%float eqn:Hcd; [|reflexivity].
           now rewrite (ltb_trans _ _ _ Hcd Hd) in Hc.
        -- intros c' [<- | Hin] Hc'; [congruence | now apply Hfirst].
Qed.

Lemma candidates_In (x y : number) (strokes : list Stroke) (id : string)
  (d : number) :
  In (id, d) (candidates x y strokes) <->
  exists s pt,
    In s strokes /\ In pt (Stroke.points s)
    /\ Stroke.id s = id /\ distanceTo x y pt = d.
Proof.
  unfold candidates. rewrite in_flat_map. split.
  - intros (s & Hs & Hin). apply in_map_iff in Hin as (pt & Heq & Hpt).
    injection Heq as <- <-. now exists s, pt.
  - intros (s & pt & Hs & Hpt & <- & <-). exists s. split; [exact Hs|].
    apply in_map_iff. now exists pt.
Qed.

Lemma candidates_pointsInOrder (x y : number) (strokes : list Stroke) :
  candidates x y strokes
  = map (fun c => (fst c, distanceTo x y (snd c))) (pointsInOrder strokes).
Proof.
  unfold candidates, pointsInOrder.
  induction strokes as [|s strokes IH]; [reflexivity|].
  cbn [flat_map]. rewrite map_app, IH, map_map. reflexivity.
Qed.

Lemma pointsInOrder_In (strokes : list Stroke) (id : string) (pt : Point) :
  In (id, pt) (pointsInOrder strokes) <->
  exists s, In s strokes /\ In pt (Stroke.points s) /\ Stroke.id s = id.
Proof.
  unfold pointsInOrder. rewrite in_flat_map. split.
  - intros (s & Hs & Hin). apply in_map_iff in Hin as (q & Heq & Hq).
    injection Heq as <- <-. now exists s.
  - intros (s & Hs & Hpt & <-). exists s. split; [exact Hs|].
    apply in_map_iff. now exists pt.
Qed.

(** C7 (as stated, refuted): the stroke returned is the nearest one by the
    distances the loop computes in double arithmetic, not by the distances
    themselves.  The dot at (3 + 2^-51, 4) is strictly farther from the
    origin than the dot at (3, 4), yet both distances are computed as 5;
    standing first in the document, the farther dot is the one returned.
    And a point at exactly the radius is not found: the dot at (3, 4), at
    distance 5 from the origin, is not returned for the radius 5. *)
Lemma farther_stroke_wins_rounding_tie :
  findNearestStrokeId 0%float 0%float HitTestScenarios.roundingTie 20%float
  = Some "far"
  /\ (exists far near,
         exactSquaredDistance 0%float 0%float
           (Point.mk 3.0000000000000004%float 4%float 0.5%float) = Some far
         /\ exactSquaredDistance 0%float 0%float
              (Point.mk 3%float 4%float 0.5%float) = Some near
         /\ fracLt near far = true)
  /\ PrimFloat.sqrt (3.0000000000000004 * 3.0000000000000004 + 4 * 4)%float
     = 5%float
  /\ PrimFloat.sqrt (3 * 3 + 4 * 4)%float = 5%float
  /\ findNearestStrokeId 0%float 0%float
       [HitTestScenarios.single "a" 3%float 4%float] 5%float = None.
Proof.
  split; [vm_compute; reflexivity|]. split.
  - do 2 eexists. split; [vm_compute; reflexivity|].
    split; [vm_compute; reflexivity|]. vm_compute. reflexivity.
  - split; [vm_compute; reflexivity|]. split; vm_compute; reflexivity.
Qed.

(** C7 (amended): [findNearestStrokeId] goes through every point of every
    stroke, in document order, and computes for each the double
    [Math.sqrt((pt.x - x) ** 2 + (pt.y - y) ** 2)].  It returns no id
    exactly when no point has a computed distance strictly below the
    radius.  Otherwise it returns the id of the stroke owning a point whose
    computed distance is strictly below the radius and is undercut by the
    computed distance of no point of any stroke, and that point is the first
    such: every point met before it whose computed distance is below the
    radius is strictly farther by computed distance, so among strokes that
    tie for the least computed distance the one met first wins. *)
Theorem findNearestStrokeId_nearest_first (x y : number) (strokes : list Stroke)
  (radius : number) :
  let dist := fun pt : Point =>
    PrimFloat.sqrt
      ((Point.x pt - x) * (Point.x pt - x)
       + (Point.y pt - y) * (Point.y pt - y))%float in
  match findNearestStrokeId x y strokes radius with
  | None =>
      forall s pt,
        In s strokes -> In pt (Stroke.points s) ->
        (dist pt <? radius)%float = false
  | Some id =>
      exists pre pt post,
        pointsInOrder strokes = (pre ++ (id, pt) :: post)%list
        /\ (exists s, In s strokes /\ In pt (Stroke.points s) /\ Stroke.id s = id)
        /\ (dist pt <? radius)%float = true
        /\ (forall s' pt',
              In s' strokes -> In pt' (Stroke.points s') ->
              (dist pt' <? dist pt)%float = false)
        /\ (forall c,
              In c pre -> (dist (snd c) <? radius)%float = true ->
              (dist pt <? dist (snd c))%float = true)
  end.
Proof.
  cbn zeta.
  change (fun pt : Point =>
            PrimFloat.sqrt
              ((Point.x pt - x) * (Point.x pt - x)
               + (Point.y pt - y) * (Point.y pt - y))%float)
    with (distanceTo x y).
  rewrite findNearestStrokeId_scan.
  destruct (scan_spec (candidates x y strokes) (None, radius))
    as [(Hs & Hnone) | (pre & id & d & post & Hc & Hs & Hd & Hmin & Hfirst)];
    rewrite Hs; cbn [fst snd] in *.
  - intros s pt Hin Hpt.
    apply (Hnone (Stroke.id s, distanceTo x y pt)).
    apply candidates_In. now exists s, pt.
  - rewrite candidates_pointsInOrder in Hc.
    apply map_eq_app in Hc as (pre0 & rest & Horder & Hpre & Hrest).
    apply map_eq_cons in Hrest as (c & post0 & -> & Hc0 & Hpost).
    destruct c as (id0 & pt). cbn [fst snd] in Hc0. injection Hc0 as -> <-.
    exists pre0, pt, post0. split; [exact Horder|]. split.
    { apply (pointsInOrder_In strokes id pt). rewrite Horder.
      apply in_or_app. right. now left. }
    split; [exact Hd|]. split.
    + intros s' pt' Hin Hpt.
      apply (Hmin (Stroke.id s', distanceTo x y pt')).
      apply candidates_In. now exists s', pt'.
    + intros c Hin Hwithin.
      apply (Hfirst (fst c, distanceTo x y (snd c))); [|exact Hwithin].
      rewrite <- Hpre. apply in_map_iff. now exists c.
Qed.

(** In the scenario of two strokes at the least computed distance, the id
    returned is that of the first one, and no point met before its point is
    as near. *)
Lemma findNearestStrokeId_nearest_first_witness :
  exists pre pt post,
    pointsInOrder HitTestScenarios.tied = (pre ++ ("a", pt) :: post)%list
    /\ (PrimFloat.sqrt ((Point.x pt - 0) * (Point.x pt - 0)
                        + (Point.y pt - 0) * (Point.y pt - 0)) <? 20)%float
       = true
    /\ (forall c,
          In c pre ->
          (PrimFloat.sqrt ((Point.x (snd c) - 0) * (Point.x (snd c) - 0)
                           + (Point.y (snd c) - 0) * (Point.y (snd c) - 0))
           <? 20)%float = true ->
          (PrimFloat.sqrt ((Point.x pt - 0) * (Point.x pt - 0)
                           + (Point.y pt - 0) * (Point.y pt - 0))
           <? PrimFloat.sqrt ((Point.x (snd c) - 0) * (Point.x (snd c) - 0)
                              + (Point.y (snd c) - 0) * (Point.y (snd c) - 0)))%float
          = true).
Proof.
  pose proof (findNearestStrokeId_nearest_first 0%float 0%float
                HitTestScenarios.tied 20%float) as H.
  cbn zeta in H.
  replace (findNearestStrokeId 0%float 0%float HitTestScenarios.tied 20%float)
    with (Some "a") in H by (vm_compute; reflexivity).
  destruct H as (pre & pt & post & Horder & _ & Hd & _ & Hfirst).
  exists pre, pt, post. split; [exact Horder|]. split; [exact Hd | exact Hfirst].
Defined.

(** Two strokes at the same least distance: the first in document order is
    returned; the nearest stroke is found wherever it stands; a point at
    exactly the radius is not within it. *)
Example findNearestStrokeId_examples :
  findNearestStrokeId 0%float 0%float HitTestScenarios.tied 20%float = Some "a"
  /\ findNearestStrokeId 0%float 0%float HitTestScenarios.nearestSecond 20%float
     = Some "near"
  /\ findNearestStrokeId 0%float 0%float HitTestScenarios.tied 5%float = None
  /\ findNearestStrokeId 0%float 0%float [] 20%float = None.
Proof. vm_compute. repeat split. Qed.

End SketchScreenFacts.


(** ** The gallery loader *)

Module useDrawingStorageFacts.
Import useDrawingStorage.

Section LoaderFacts.
Variable getItem : string -> Outcome (option string).
Variable parseIds : string -> Outcome (list string).
Variable parseDrawing : string -> Outcome Drawing.
Variable sortByUpdatedAtDesc : list Drawing -> list Drawing.

Lemma present_nonempty (json : string) :
  json <> EmptyString -> present (Some json) = Some json.
Proof. intros Hne. cbn. destruct json; [congruence | reflexivity]. Qed.

(** The loop has no handler of its own: a record that does not decode makes
    the whole loop throw, whatever was loaded before it. *)
Lemma loadEach_throws (ids : list string) (id json e : string) :
  In id ids ->
  getItem (DRAWING_PREFIX ++ id) = Returned (Some json) ->
  json <> EmptyString ->
  parseDrawing json = Thrown e ->
  forall loadedDrawings,
    exists e', loadEach getItem parseDrawing ids loadedDrawings = Thrown e'.
Proof.
  intros Hin Hget Hne Hparse.
  induction ids as [|id0 ids IH]; intros loaded; [destruct Hin|].
  cbn [loadEach]. destruct Hin as [-> | Hin].
  - rewrite Hget. cbn [bind]. rewrite (present_nonempty json Hne), Hparse.
    now exists e.
  - destruct (getItem (DRAWING_PREFIX ++ id0)) as [r | e0]; cbn [bind];
      [|now exists e0].
    destruct (present r) as [json0|]; [|now apply IH].
    destruct (parseDrawing json0) as [d | e0]; cbn [bind]; [|now exists e0].
    now apply IH.
Qed.

(** C9: when the index decodes to a list of ids and the record stored for
    one of them is present but does not decode ([JSON.parse] throws), the
    load is abandoned as a whole: the error message is set, loading is
    over, and [drawings] is left as it was before the call, so that none of
    the other records is delivered (from the hook's initial state the list
    stays empty). *)
Theorem loadDrawings_aborts_on_corrupt_record
  (st : State) (indexJson : string) (ids : list string) (id json e : string) :
  getItem DRAWINGS_INDEX_KEY = Returned (Some indexJson) ->
  indexJson <> EmptyString ->
  parseIds indexJson = Returned ids ->
  In id ids ->
  getItem (DRAWING_PREFIX ++ id) = Returned (Some json) ->
  json <> EmptyString ->
  parseDrawing json = Thrown e ->
  loadDrawings getItem parseIds parseDrawing sortByUpdatedAtDesc st
  = mkState (drawings st) false (Some "Erreur lors du chargement des dessins")
  /\ drawings
       (loadDrawings getItem parseIds parseDrawing sortByUpdatedAtDesc
          initialState) = [].
Proof.
  intros Hidx Hne Hids Hin Hget Hjne Hparse.
  assert (Habort : forall st0,
             loadDrawings getItem parseIds parseDrawing sortByUpdatedAtDesc st0
             = mkState (drawings st0) false
                 (Some "Erreur lors du chargement des dessins")).
  { intros st0. unfold loadDrawings, tryLoad. rewrite Hidx. cbn [bind].
    rewrite (present_nonempty indexJson Hne), Hids. cbn [bind].
    destruct (loadEach_throws ids id json e Hin Hget Hjne Hparse []) as (e' & ->).
    reflexivity. }
  split; [apply Habort|]. now rewrite Habort.
Qed.

End LoaderFacts.

(** In the store of the scenario the second of three records is corrupt and
    nothing is loaded; once that record is gone the other two are. *)
Lemma loadDrawings_aborts_on_corrupt_record_witness :
  loadDrawings StorageScenarios.store StorageScenarios.decodeIds
    StorageScenarios.decodeDrawing StorageScenarios.keepOrder initialState
  = mkState [] false (Some "Erreur lors du chargement des dessins")
  /\ map Drawing.name
       (drawings
          (loadDrawings StorageScenarios.repairedStore StorageScenarios.decodeIds
             StorageScenarios.decodeDrawing StorageScenarios.keepOrder
             initialState))
     = ["first"; "third"].
Proof.
  split; [|vm_compute; reflexivity].
  apply (loadDrawings_aborts_on_corrupt_record
           StorageScenarios.store StorageScenarios.decodeIds
           StorageScenarios.decodeDrawing StorageScenarios.keepOrder
           initialState "[a,b,c]" ["a"; "b"; "c"] "b" "{broken" "SyntaxError").
  - reflexivity.
  - discriminate.
  - reflexivity.
  - cbn. auto.
  - reflexivity.
  - discriminate.
  - reflexivity.
Defined.

End useDrawingStorageFacts.


(** * Further properties *)

(** ** Order and [Math.min] / [Math.max] on doubles *)

Module JsOrderFacts.
Import JsNumberFacts.

Lemma SFleb_key (x y : spec_float) :
  SFleb x y = true <->
  exists kx ky, sfKey x = Some kx /\ sfKey y = Some ky /\ ~ keyLt ky kx.
Proof.
  unfold SFleb, SFcompare.
  destruct x as [sx|sx| |sx mx ex], y as [sy|sy| |sy my ey]; cbn [sfKey];
    repeat match goal with s : bool |- _ => destruct s end;
    (split; [intros H | intros (kx & ky & Hx & Hy & Hlt)]);
    try discriminate;
    try (do 2 eexists; split; [reflexivity|split; [reflexivity|]]; cbn; lia);
    try (injection Hx as <-; injection Hy as <-; cbn in Hlt;
         try reflexivity; try lia).
  all: try (do 2 eexists; split; [reflexivity|split; [reflexivity|]]; cbn;
            destruct (Z.compare_spec ex ey); try discriminate; try lia;
            rewrite Pos.compare_cont_spec in H; cbn in H;
            destruct (Pos.compare_spec mx my); try discriminate; lia).
  all: try (destruct (Z.compare_spec ex ey); try reflexivity; try lia;
            rewrite Pos.compare_cont_spec; cbn;
            destruct (Pos.compare_spec mx my); try reflexivity; lia).
Qed.

Lemma leb_key (a b : number) :
  (a <=? b)%float = true <->
  exists ka kb,
    sfKey (Prim2SF a) = Some ka /\ sfKey (Prim2SF b) = Some kb /\ ~ keyLt kb ka.
Proof. rewrite leb_spec. apply SFleb_key. Qed.

Lemma is_nan_key (a : number) :
  is_nan a = false <-> exists ka, sfKey (Prim2SF a) = Some ka.
Proof.
  unfold is_nan. rewrite Bool.negb_false_iff, eqb_spec.
  unfold SFeqb, SFcompare.
  destruct (Prim2SF a) as [s|s| |s m e]; cbn [sfKey].
  - split; [eauto | reflexivity].
  - split; [eauto | now destruct s].
  - split; [discriminate | intros (? & ?); discriminate].
  - split; [eauto|]. intros _. destruct s; rewrite Z.compare_refl, Pos.compare_cont_refl; reflexivity.
Qed.

Ltac to_keys :=
  repeat match goal with
         | H : (_ <? _)%float = true |- _ =>
             apply ltb_key in H; destruct H as (? & ? & ? & ? & H)
         | H : (_ <=? _)%float = true |- _ =>
             apply leb_key in H; destruct H as (? & ? & ? & ? & H)
         | H : is_nan _ = false |- _ =>
             apply is_nan_key in H; destruct H as (? & H)
         end;
  repeat match goal with
         | H1 : sfKey ?v = Some ?k1, H2 : sfKey ?v = Some ?k2 |- _ =>
             rewrite H1 in H2; injection H2 as <-
         end.

Ltac open_keys :=
  repeat match goal with k : (Z * Z * Z)%type |- _ => destruct k as ((?, ?), ?) end;
  cbn [keyLt] in *.

Lemma ltb_false_key (a b : number) (ka kb : Z * Z * Z) :
  sfKey (Prim2SF a) = Some ka -> sfKey (Prim2SF b) = Some kb ->
  (a <? b)%float = false -> ~ keyLt ka kb.
Proof.
  intros Ha Hb Hf Hlt.
  assert (Ht : (a <? b)%float = true) by (apply ltb_key; eauto).
  congruence.
Qed.

Lemma leb_refl (a : number) : is_nan a = false -> (a <=? a)%float = true.
Proof.
  intros Ha. to_keys. apply leb_key. do 2 eexists.
  split; [eassumption|]. split; [eassumption|]. open_keys. lia.
Qed.

Lemma leb_trans (a b c : number) :
  (a <=? b)%float = true -> (b <=? c)%float = true -> (a <=? c)%float = true.
Proof.
  intros Hab Hbc. to_keys. apply leb_key. do 2 eexists.
  split; [eassumption|]. split; [eassumption|]. open_keys. lia.
Qed.

Lemma ltb_leb (a b : number) :
  (a <? b)%float = true -> (a <=? b)%float = true.
Proof.
  intros Hab. to_keys. apply leb_key. do 2 eexists.
  split; [eassumption|]. split; [eassumption|]. open_keys. lia.
Qed.

Lemma not_ltb_leb (a b : number) :
  is_nan a = false -> is_nan b = false ->
  (a <? b)%float = false -> (b <=? a)%float = true.
Proof.
  intros Ha Hb Hf. to_keys.
  match goal with
  | Ka : sfKey (Prim2SF a) = Some ?ka, Kb : sfKey (Prim2SF b) = Some ?kb |- _ =>
      pose proof (ltb_false_key a b ka kb Ka Kb Hf) as Hn
  end.
  apply leb_key. do 2 eexists.
  split; [eassumption|]. split; [eassumption|]. exact Hn.
Qed.

Lemma leb_not_nan (a b : number) :
  (a <=? b)%float = true -> is_nan a = false /\ is_nan b = false.
Proof.
  intros H. apply leb_key in H as (ka & kb & Ha & Hb & _).
  split; apply is_nan_key; eauto.
Qed.

Lemma ltb_not_nan (a b : number) :
  (a <? b)%float = true -> is_nan a = false /\ is_nan b = false.
Proof. intros H. apply leb_not_nan. now apply ltb_leb. Qed.

(** Two doubles neither of which is below the other are the same double,
    or the two zeros. *)
Lemma sfKey_inj (x y : spec_float) (k : Z * Z * Z) :
  sfKey x = Some k -> sfKey y = Some k ->
  x = y \/ (exists s t, x = S754_zero s /\ y = S754_zero t).
Proof.
  destruct x as [sx|sx| |sx mx ex], y as [sy|sy| |sy my ey]; cbn [sfKey];
    intros Hx Hy; try discriminate; rewrite <- Hy in Hx;
    repeat match goal with s : bool |- _ => destruct s end;
    try discriminate; try (left; reflexivity);
    try (right; do 2 eexists; split; reflexivity).
  all: injection Hx as He Hm; left; f_equal; lia.
Qed.

Lemma zero_cases (a : number) (s : bool) :
  Prim2SF a = S754_zero s -> a = (if s then (-0)%float else 0%float).
Proof.
  intros H. rewrite <- (SF2Prim_Prim2SF a), H. now destruct s.
Qed.

Lemma incomparable_cases (a b : number) :
  is_nan a = false -> is_nan b = false ->
  (a <? b)%float = false -> (b <? a)%float = false ->
  a = b \/ ((a = 0%float \/ a = (-0)%float) /\ (b = 0%float \/ b = (-0)%float)).
Proof.
  intros Ha Hb Hab Hba. to_keys.
  match goal with
  | Ka : sfKey (Prim2SF a) = Some ?ka, Kb : sfKey (Prim2SF b) = Some ?kb |- _ =>
      pose proof (ltb_false_key a b ka kb Ka Kb Hab) as Hn1;
      pose proof (ltb_false_key b a kb ka Kb Ka Hba) as Hn2;
      assert (ka = kb) as -> by
        (destruct ka as ((?, ?), ?), kb as ((?, ?), ?); cbn in *;
         repeat f_equal; lia);
      destruct (sfKey_inj _ _ _ Ka Kb) as [Heq | (s & t & Hs & Ht)]
  end.
  - left. now apply Prim2SF_inj.
  - right. apply zero_cases in Hs, Ht. destruct s, t; subst; auto.
Qed.

Lemma Math_min_comm (a b : number) : Math_min a b = Math_min b a.
Proof.
  unfold Math_min. rewrite (orb_comm (is_nan b)).
  destruct (is_nan a || is_nan b) eqn:Hn; [reflexivity|].
  apply orb_false_elim in Hn as (Ha & Hb).
  destruct (a <? b)%float eqn:Hab.
  - now rewrite (ltb_asym _ _ Hab).
  - destruct (b <? a)%float eqn:Hba; [reflexivity|].
    destruct (incomparable_cases a b Ha Hb Hab Hba)
      as [-> | ([-> | ->] & [-> | ->])]; reflexivity.
Qed.

Lemma Math_max_comm (a b : number) : Math_max a b = Math_max b a.
Proof.
  unfold Math_max. rewrite (orb_comm (is_nan b)).
  destruct (is_nan a || is_nan b) eqn:Hn; [reflexivity|].
  apply orb_false_elim in Hn as (Ha & Hb).
  destruct (a <? b)%float eqn:Hab.
  - now rewrite (ltb_asym _ _ Hab).
  - destruct (b <? a)%float eqn:Hba; [reflexivity|].
    destruct (incomparable_cases a b Ha Hb Hab Hba)
      as [-> | ([-> | ->] & [-> | ->])]; reflexivity.
Qed.

Lemma Math_min_le (a b : number) :
  is_nan a = false -> is_nan b = false ->
  (Math_min a b <=? a)%float = true /\ (Math_min a b <=? b)%float = true.
Proof.
  intros Ha Hb. unfold Math_min. rewrite Ha, Hb. cbn [orb].
  destruct (a <? b)%float eqn:Hab.
  - split; [now apply leb_refl | now apply ltb_leb].
  - destruct (b <? a)%float eqn:Hba.
    + split; [now apply ltb_leb | now apply leb_refl].
    + destruct (get_sign a); split;
        auto using leb_refl, not_ltb_leb.
Qed.

Lemma Math_max_ge (a b : number) :
  is_nan a = false -> is_nan b = false ->
  (a <=? Math_max a b)%float = true /\ (b <=? Math_max a b)%float = true.
Proof.
  intros Ha Hb. unfold Math_max. rewrite Ha, Hb. cbn [orb].
  destruct (a <? b)%float eqn:Hab.
  - split; [now apply ltb_leb | now apply leb_refl].
  - destruct (b <? a)%float eqn:Hba.
    + split; [now apply leb_refl | now apply ltb_leb].
    + destruct (get_sign a); split;
        auto using leb_refl, not_ltb_leb.
Qed.

End JsOrderFacts.


(** ** Bounding boxes and rectangles *)

Module GeometryFacts.
Import drawingUtils JsNumberFacts JsOrderFacts.

Lemma numeric_iff (v : number) : numeric v = true <-> is_nan v = false.
Proof. unfold numeric. apply Bool.negb_true_iff. Qed.

Lemma lower_step (m x q : number) :
  is_nan m = false -> is_nan x = false ->
  let m' := if (x <? m)%float then x else m in
  is_nan m' = false
  /\ (m' <=? x)%float = true
  /\ ((m <=? q)%float = true -> (m' <=? q)%float = true).
Proof.
  intros Hm Hx. cbn zeta. destruct (x <? m)%float eqn:Hlt.
  - repeat split; auto using leb_refl.
    intros Hq. eapply leb_trans; [apply ltb_leb; eassumption | exact Hq].
  - repeat split; auto using not_ltb_leb.
Qed.

Lemma upper_step (M x q : number) :
  is_nan M = false -> is_nan x = false ->
  let M' := if (M <? x)%float then x else M in
  is_nan M' = false
  /\ (x <=? M')%float = true
  /\ ((q <=? M)%float = true -> (q <=? M')%float = true).
Proof.
  intros HM Hx. cbn zeta. destruct (M <? x)%float eqn:Hlt.
  - repeat split; auto using leb_refl.
    intros Hq. eapply leb_trans; [exact Hq | apply ltb_leb; eassumption].
  - repeat split; auto using not_ltb_leb.
Qed.

Lemma growBox_covers (bb : BoundingBox) (pt : Point) :
  boxNumeric bb = true -> numericPoint pt = true ->
  boxNumeric (growBox bb pt) = true
  /\ boxCovers (growBox bb pt) pt = true
  /\ (forall q, boxCovers bb q = true -> boxCovers (growBox bb pt) q = true).
Proof.
  unfold boxNumeric, numericPoint, boxCovers, growBox. cbn.
  intros Hb Hp.
  repeat (apply andb_prop in Hb as (Hb & ?)).
  apply andb_prop in Hp as (Hpx & Hpy).
  rewrite numeric_iff in *.
  destruct (lower_step (BoundingBox.minX bb) (Point.x pt) (Point.x pt)) as (a1 & a2 & _); auto.
  destruct (lower_step (BoundingBox.minY bb) (Point.y pt) (Point.y pt)) as (b1 & b2 & _); auto.
  destruct (upper_step (BoundingBox.maxX bb) (Point.x pt) (Point.x pt)) as (c1 & c2 & _); auto.
  destruct (upper_step (BoundingBox.maxY bb) (Point.y pt) (Point.y pt)) as (d1 & d2 & _); auto.
  cbn zeta in *.
  split; [|split].
  - unfold numeric. now rewrite a1, b1, c1, d1.
  - now rewrite a2, b2, c2, d2.
  - intros q Hq. repeat (apply andb_prop in Hq as (Hq & ?)).
    destruct (lower_step (BoundingBox.minX bb) (Point.x pt) (Point.x q)) as (_ & _ & e1); auto.
    destruct (lower_step (BoundingBox.minY bb) (Point.y pt) (Point.y q)) as (_ & _ & e2); auto.
    destruct (upper_step (BoundingBox.maxX bb) (Point.x pt) (Point.x q)) as (_ & _ & e3); auto.
    destruct (upper_step (BoundingBox.maxY bb) (Point.y pt) (Point.y q)) as (_ & _ & e4); auto.
    cbn zeta in *. rewrite e1, e2, e3, e4; auto.
Qed.

Lemma fold_growBox_covers (pts : list Point) :
  forall bb,
    boxNumeric bb = true ->
    forallb numericPoint pts = true ->
    boxNumeric (fold_left growBox pts bb) = true
    /\ (forall q, boxCovers bb q = true ->
                  boxCovers (fold_left growBox pts bb) q = true)
    /\ (forall q, In q pts -> boxCovers (fold_left growBox pts bb) q = true).
Proof.
  induction pts as [|pt pts IH]; intros bb Hb Hall.
  - cbn. repeat split; auto; intros q [].
  - cbn [forallb] in Hall. apply andb_prop in Hall as (Hpt & Hall).
    destruct (growBox_covers bb pt Hb Hpt) as (Hb' & Hc & Hk).
    destruct (IH (growBox bb pt) Hb' Hall) as (Hn & Hkeep & Hin).
    cbn [fold_left]. repeat split; auto.
    intros q [<- | Hq]; auto.
Qed.

Lemma bbox_covers (stroke : Stroke) (pt : Point) :
  forallb numericPoint (Stroke.points stroke) = true ->
  In pt (Stroke.points stroke) ->
  boxCovers (getStrokeBoundingBox stroke) pt = true.
Proof.
  intros Hall Hin. unfold getStrokeBoundingBox.
  destruct (Stroke.points stroke) as [|p ps] eqn:Hp; [destruct Hin|].
  rewrite <- Hp in *.
  apply (fold_growBox_covers (Stroke.points stroke)); auto.
Qed.

Lemma between_bounds (a b v : number) :
  between a b v = true ->
  (Math_min a b <=? v)%float = true /\ (v <=? Math_max a b)%float = true.
Proof.
  unfold between. intros H.
  assert (Hab : is_nan a = false /\ is_nan b = false).
  { apply orb_prop in H as [H | H]; apply andb_prop in H as (H1 & H2);
      apply leb_not_nan in H1, H2; tauto. }
  destruct Hab as (Ha & Hb).
  destruct (Math_min_le a b Ha Hb) as (Hm1 & Hm2).
  destruct (Math_max_ge a b Ha Hb) as (HM1 & HM2).
  apply orb_prop in H as [H | H]; apply andb_prop in H as (H1 & H2);
    split; eauto using leb_trans.
Qed.

Lemma inRect_meets (rect : SelectionRect) (stroke : Stroke) (pt : Point) :
  forallb numericPoint (Stroke.points stroke) = true ->
  In pt (Stroke.points stroke) ->
  inRect rect pt = true ->
  boxMeetsRect rect stroke = true.
Proof.
  intros Hall Hin Hr. pose proof (bbox_covers stroke pt Hall Hin) as Hc.
  unfold boxCovers in Hc. repeat (apply andb_prop in Hc as (Hc & ?)).
  unfold inRect in Hr. apply andb_prop in Hr as (Hx & Hy).
  apply between_bounds in Hx as (Hx1 & Hx2), Hy as (Hy1 & Hy2).
  unfold boxMeetsRect.
  repeat (apply andb_true_intro; split); eauto using leb_trans.
Qed.

Lemma boxMeetsRect_swap (x1 y1 x2 y2 : number) (stroke : Stroke) :
  boxMeetsRect (SelectionRect.mk x1 y1 x2 y2) stroke
  = boxMeetsRect (SelectionRect.mk x2 y2 x1 y1) stroke.
Proof.
  unfold boxMeetsRect. cbn.
  now rewrite (Math_min_comm x1 x2), (Math_max_comm x1 x2),
    (Math_min_comm y1 y2), (Math_max_comm y1 y2).
Qed.

End GeometryFacts.


(** ** More on the document *)

Module SketchpadMoreFacts.
Import useSketchpad SketchpadFacts.

(** *** Undo and redo *)

Lemma recorded_top (cur : list Stroke) (st : State) :
  exists older,
    undoStack (saveStateToUndo cur st) = (older ++ [cur])%list.
Proof.
  destruct (sliceLast_keeps 50 (undoStack st) [cur]) as (pre & Hpre);
    [cbn; lia|].
  exists pre. exact Hpre.
Qed.

(** X1: undo and redo are inverse to each other: with something to undo,
    undo followed by redo gives back the strokes and both stacks as they
    were, and with something to redo so does redo followed by undo. *)
Theorem undo_redo_round_trip (st : State) :
  (undoStack st <> [] ->
   strokes (redo (undo st)) = strokes st
   /\ undoStack (redo (undo st)) = undoStack st
   /\ redoStack (redo (undo st)) = redoStack st)
  /\ (redoStack st <> [] ->
      strokes (undo (redo st)) = strokes st
      /\ undoStack (undo (redo st)) = undoStack st
      /\ redoStack (undo (redo st)) = redoStack st).
Proof.
  split; intros Hne.
  - destruct (snoc_cases (undoStack st)) as [He | (us & u & Hu)]; [congruence|].
    destruct (undo_pops st us u Hu) as (Hs & Hu' & Hr').
    destruct (redo_pushes (undo st) _ _ Hr') as (Hs2 & Hr2 & Hu2).
    rewrite Hs2, Hr2, Hu2, Hu', Hs, Hu. auto.
  - destruct (snoc_cases (redoStack st)) as [He | (rs & r & Hr)]; [congruence|].
    destruct (redo_pushes st rs r Hr) as (Hs & Hr' & Hu').
    destruct (undo_pops (redo st) _ _ Hu') as (Hs2 & Hu2 & Hr2).
    rewrite Hs2, Hr2, Hu2, Hr', Hs, Hr. auto.
Qed.

Lemma undo_after_record (st st' : State) (cur : list Stroke) (older : list (list Stroke)) :
  undoStack st' = (older ++ [cur])%list -> strokes (undo st') = cur.
Proof. intros Hu. now destruct (undo_pops st' older cur Hu). Qed.

(** X2: every change that records a snapshot is taken back by one undo:
    after erasing a stroke, committing a stroke, clearing a document that
    has strokes, or deleting a selection, undo gives back the strokes
    there were before the change. *)
Theorem recorded_changes_are_undone (st : State) :
  (forall id, strokes (undo (removeStroke id st)) = strokes st)
  /\ (forall s, hasPoints s = true -> strokes (undo (commit s st)) = strokes st)
  /\ (strokes st <> [] -> strokes (undo (clear st)) = strokes st)
  /\ (selection st <> [] -> strokes (undo (deleteSelected st)) = strokes st).
Proof.
  destruct (recorded_top (strokes st) st) as (older & Htop).
  repeat split.
  - intros id. apply (undo_after_record st _ _ older). exact Htop.
  - intros s Hp. apply (undo_after_record st _ _ older).
    rewrite (commit_commits s st Hp). exact Htop.
  - intros Hne. apply (undo_after_record st _ _ older).
    unfold clear. destruct (strokes st); [congruence|]. exact Htop.
  - intros Hne. apply (undo_after_record st _ _ older).
    unfold deleteSelected. destruct (selection st); [congruence|]. exact Htop.
Qed.

(** *** Selection *)

Lemma includes_In (id : string) (ids : list string) :
  includes id ids = true <-> In id ids.
Proof.
  unfold includes. rewrite existsb_exists. split.
  - intros (x & Hin & Heq). apply String.eqb_eq in Heq. now subst.
  - intros Hin. exists id. split; [exact Hin | apply String.eqb_refl].
Qed.

Lemma filter_absent (id : string) (ids : list string) :
  ~ In id ids -> filter (fun sId => negb (String.eqb sId id)) ids = ids.
Proof.
  induction ids as [|x ids IH]; intros Hn; [reflexivity|].
  cbn. destruct (String.eqb_spec x id) as [->|Hne].
  - exfalso. apply Hn. now left.
  - cbn. rewrite IH; [reflexivity|]. intros H. apply Hn. now right.
Qed.

Lemma filter_app_self (id : string) (ids : list string) :
  filter (fun sId => negb (String.eqb sId id)) (ids ++ [id])
  = filter (fun sId => negb (String.eqb sId id)) ids.
Proof.
  rewrite filter_app. cbn. rewrite String.eqb_refl. cbn. apply app_nil_r.
Qed.

(** X3: toggling the selection of a stroke twice leaves the same strokes
    selected (and the very same list when the stroke was not selected),
    without touching the document or its history; one toggle never
    introduces a duplicate into the selection. *)
Theorem toggleSelection_twice (id : string) (st : State) :
  let st2 := toggleSelection id (toggleSelection id st) in
  (forall other, In other (selection st2) <-> In other (selection st))
  /\ (~ In id (selection st) -> selection st2 = selection st)
  /\ (NoDup (selection st) -> NoDup (selection (toggleSelection id st)))
  /\ strokes st2 = strokes st
  /\ undoStack st2 = undoStack st.
Proof.
  cbn zeta. unfold toggleSelection. cbn [selection setSelection setFocusedId
    strokes undoStack focusedId].
  destruct (includes id (selection st)) eqn:Hinc.
  - apply includes_In in Hinc.
    assert (Hout : includes id
                     (filter (fun sId => negb (String.eqb sId id)) (selection st))
                   = false).
    { destruct (includes id _) eqn:E; [|reflexivity].
      apply includes_In, filter_other_id in E. tauto. }
    rewrite Hout. repeat split.
    + intros Hin. apply in_app_or in Hin as [Hin | [<- | []]]; [|exact Hinc].
      now apply filter_In in Hin.
    + intros Hin. apply in_or_app.
      destruct (String.eqb_spec other id) as [->|Hne]; [right; now left|].
      left. apply filter_In. split; [exact Hin|].
      now apply Bool.negb_true_iff, String.eqb_neq.
    + tauto.
    + intros Hnd. now apply NoDup_filter.
  - assert (Hn : ~ In id (selection st)).
    { intros H. apply includes_In in H. congruence. }
    assert (Hin2 : includes id (selection st ++ [id]) = true).
    { apply includes_In, in_or_app. right. now left. }
    rewrite Hin2, filter_app_self, (filter_absent id _ Hn).
    repeat split; auto.
    intros Hnd. apply NoDup_app; [exact Hnd | repeat constructor; intros [] |].
    intros a Ha [<- | []]. contradiction.
Qed.

(** X4: erasing a stroke removes it everywhere: no stroke of the document
    carries the id any more, the id is neither selected nor focused, and
    nothing else is lost: every other stroke is kept, every other selected
    id stays selected, and a focus on another stroke stays. *)
Theorem removeStroke_removes (id : string) (st : State) :
  let st' := removeStroke id st in
  ~ In id (strokeIds st')
  /\ ~ In id (selection st')
  /\ focusedId st' <> Some id
  /\ strokes st' = filter (fun s => negb (String.eqb (Stroke.id s) id)) (strokes st)
  /\ (forall s, In s (strokes st) -> Stroke.id s <> id -> In s (strokes st'))
  /\ (forall other, other <> id ->
        (In other (selection st') <-> In other (selection st))
        /\ (focusedId st = Some other -> focusedId st' = Some other)).
Proof.
  cbn zeta. unfold removeStroke, strokeIds.
  cbn [strokes selection focusedId setStrokes setSelection setFocusedId
       saveStateToUndo markDirty setIsDirty setRedoStack setUndoStack].
  repeat split.
  - intros Hin. apply in_map_iff in Hin as (s & Hid & Hin).
    apply filter_In in Hin as (_ & Hneq). subst.
    now rewrite String.eqb_refl in Hneq.
  - intros Hin. apply filter_other_id in Hin. tauto.
  - destruct (focusedId st) as [f|]; [|discriminate].
    destruct (String.eqb_spec f id); congruence.
  - intros s Hin Hne. apply filter_In. split; [exact Hin|].
    now apply Bool.negb_true_iff, String.eqb_neq.
  - intros Hin. now apply filter_In in Hin.
  - intros Hin. apply filter_In. split; [exact Hin|].
    now apply Bool.negb_true_iff, String.eqb_neq.
  - intros ->. destruct (String.eqb_spec other id); congruence.
Qed.

(** X5: deleting a non-empty selection removes exactly the strokes whose
    ids are selected, keeping all others; it leaves the selection
    empty and the focus cleared, and records one snapshot within the cap
    of 50. *)
Theorem deleteSelected_deletes (st : State) :
  selection st <> [] ->
  let st' := deleteSelected st in
  strokes st'
  = filter (fun s => negb (includes (Stroke.id s) (selection st))) (strokes st)
  /\ (forall s, In s (strokes st') ->
                In s (strokes st) /\ ~ In (Stroke.id s) (selection st))
  /\ (forall s, In s (strokes st) -> ~ In (Stroke.id s) (selection st) ->
                In s (strokes st'))
  /\ selection st' = [] /\ focusedId st' = None
  /\ List.length (undoStack st') = Nat.min 50 (S (List.length (undoStack st))).
Proof.
  intros Hne. cbn zeta. unfold deleteSelected.
  destruct (selection st) as [|x sel] eqn:Hsel; [congruence|].
  cbn [List.length Nat.eqb strokes selection focusedId undoStack setStrokes
       setSelection setFocusedId saveStateToUndo markDirty setIsDirty
       setRedoStack setUndoStack].
  repeat split.
  - now apply filter_In in H.
  - apply filter_In in H as (_ & H). apply Bool.negb_true_iff in H.
    intros Hin. apply includes_In in Hin. congruence.
  - intros s Hin Hn. apply filter_In. split; [exact Hin|].
    apply Bool.negb_true_iff. destruct (includes _ _) eqn:E; [|reflexivity].
    apply includes_In in E. contradiction.
  - rewrite sliceLast_length, length_app. cbn [List.length]. lia.
Qed.

Lemma filter_all_selected (all l : list Stroke) :
  (forall x, In x l -> In x all) ->
  filter (fun s => negb (includes (Stroke.id s) (map Stroke.id all))) l = [].
Proof.
  induction l as [|a l IH]; intros Hsub; [reflexivity|].
  cbn [filter].
  replace (includes (Stroke.id a) (map Stroke.id all)) with true.
  - cbn. apply IH. intros x Hx. apply Hsub. now right.
  - symmetry. apply includes_In, in_map, Hsub. now left.
Qed.

(** X6: on a document that has strokes, selecting everything and deleting
    the selection is the same as clearing: the two paths end in the same
    state, history included. *)
Theorem select_all_then_delete_is_clear (st : State) :
  strokes st <> [] ->
  deleteSelected (selectAll st) = clear st.
Proof.
  intros Hne. unfold deleteSelected, selectAll, clear.
  cbn [selection setSelection strokes].
  rewrite length_map.
  destruct (List.length (strokes st) =? 0)%nat eqn:Hlen.
  - apply Nat.eqb_eq, length_zero_iff_nil in Hlen. congruence.
  - unfold saveStateToUndo, markDirty.
    cbn [strokes undoStack redoStack currentStroke currentTool currentColor
         currentWidth selection focusedId isDirty setStrokes setSelection
         setFocusedId setIsDirty setRedoStack setUndoStack].
    rewrite (filter_all_selected (strokes st) (strokes st)) by auto.
    reflexivity.
Qed.

(** A release with no stroke in progress does nothing more. *)
Lemma endDrawing_idempotent (st : State) :
  endDrawing (endDrawing st) = endDrawing st
  /\ currentStroke (endDrawing st) = None.
Proof.
  unfold endDrawing. destruct (currentStroke st) as [prev|] eqn:Hc.
  - destruct (0 <? List.length (Stroke.points prev))%nat; cbn; auto.
  - cbn. auto.
Qed.

(** In the scenario of two strokes with the first one selected, deleting
    the selection leaves the second stroke. *)
Lemma deleteSelected_deletes_witness :
  strokeIds (deleteSelected Scenarios.twoStrokes) = ["b"]
  /\ selection (deleteSelected Scenarios.twoStrokes) = [].
Proof.
  pose proof (deleteSelected_deletes Scenarios.twoStrokes) as H.
  cbn zeta in H.
  destruct H as (Hs & _ & _ & Hsel & _); [vm_compute; discriminate|].
  split; [|exact Hsel]. unfold strokeIds. rewrite Hs. vm_compute. reflexivity.
Defined.

Lemma select_all_then_delete_is_clear_witness :
  deleteSelected (selectAll Scenarios.twoStrokes) = clear Scenarios.twoStrokes.
Proof.
  apply (select_all_then_delete_is_clear Scenarios.twoStrokes).
  vm_compute. discriminate.
Defined.

End SketchpadMoreFacts.


(** ** Well-formed strokes *)

Module WellFormedFacts.
Import useSketchpad SketchpadFacts.

Lemma Forall_sliceLast {A} (P : A -> Prop) (n : nat) (l : list A) :
  Forall P l -> Forall P (sliceLast n l).
Proof.
  intros H. destruct (sliceLast_suffix n l) as (ev & Heq & _).
  rewrite Heq in H. now apply Forall_app in H.
Qed.

Lemma Forall_sliceInit {A} (P : A -> Prop) (l : list A) :
  Forall P l -> Forall P (sliceInit l).
Proof.
  intros H. unfold sliceInit.
  destruct (snoc_cases l) as [-> | (front & x & ->)]; [exact H|].
  rewrite removelast_last. now apply Forall_app in H.
Qed.

Lemma Forall_last {A} (P : A -> Prop) (l : list A) (d : A) :
  Forall P l -> P d -> P (List.last l d).
Proof.
  intros H Hd.
  destruct (snoc_cases l) as [-> | (front & x & ->)]; [exact Hd|].
  rewrite last_last. apply Forall_app in H as (_ & H). now inversion H.
Qed.

Lemma Forall_snoc {A} (P : A -> Prop) (l : list A) (x : A) :
  Forall P l -> P x -> Forall P (l ++ [x]).
Proof. intros H Hx. apply Forall_app. split; [exact H | now constructor]. Qed.

Lemma Forall_filter {A} (P : A -> Prop) (f : A -> bool) (l : list A) :
  Forall P l -> Forall P (filter f l).
Proof.
  rewrite !Forall_forall. intros H x Hin. apply H. now apply filter_In in Hin.
Qed.

Lemma record_wellFormed (st : State) :
  documentWellFormed st ->
  Forall (Forall wellFormed) (undoStack (saveStateToUndo (strokes st) st)).
Proof.
  intros (Hs & Hu & _). cbn. apply Forall_sliceLast. now apply Forall_snoc.
Qed.

Lemma step_wellFormed (op : Op) (st : State) :
  documentWellFormed st -> loadsWellFormed op ->
  documentWellFormed (step op st).
Proof.
  intros Hw Hload. pose proof Hw as (Hs & Hu & Hr & Hc).
  destruct op; cbn [step]; try exact Hw.
  - (* startDrawing *)
    unfold startDrawing.
    destruct (currentTool st) eqn:Ht; try exact Hw;
      (split; [exact Hs|]; split; [exact Hu|]; split; [exact Hr|];
       cbn; intros s Heq; injection Heq as <-; repeat split).
  - (* continueDrawing *)
    unfold continueDrawing. destruct (currentStroke st) as [prev|] eqn:Hp;
      [|exact Hw].
    split; [exact Hs|]. split; [exact Hu|]. split; [exact Hr|].
    cbn. intros s Heq. injection Heq as <-.
    destruct (Hc prev eq_refl) as (_ & Hb & _).
    unfold wellFormed, hasPoints. cbn [Stroke.points Stroke.brushType Stroke.pathData].
    repeat split; [destruct (Stroke.points prev); reflexivity | exact Hb].
  - (* endDrawing *)
    unfold endDrawing. destruct (currentStroke st) as [prev|] eqn:Hp.
    + destruct (0 <? List.length (Stroke.points prev))%nat eqn:Hlen.
      * split; [|split; [|split]]; cbn.
        -- apply Forall_snoc; [exact Hs | now apply Hc].
        -- now apply (record_wellFormed st).
        -- constructor.
        -- discriminate.
      * split; [exact Hs|]. split; [exact Hu|]. split; [exact Hr|].
        cbn. discriminate.
    + split; [exact Hs|]. split; [exact Hu|]. split; [exact Hr|].
      cbn. discriminate.
  - (* undo *)
    unfold undo. destruct (List.length (undoStack st) =? 0)%nat; [exact Hw|].
    split; [|split; [|split]]; cbn.
    + apply Forall_last; [exact Hu | constructor].
    + now apply Forall_sliceInit.
    + now apply Forall_snoc.
    + exact Hc.
  - (* redo *)
    unfold redo. destruct (List.length (redoStack st) =? 0)%nat; [exact Hw|].
    split; [|split; [|split]]; cbn.
    + apply Forall_last; [exact Hr | constructor].
    + now apply Forall_snoc.
    + now apply Forall_sliceInit.
    + exact Hc.
  - (* clear *)
    unfold clear. destruct (List.length (strokes st) =? 0)%nat; [exact Hw|].
    split; [|split; [|split]]; cbn.
    + constructor.
    + now apply (record_wellFormed st).
    + constructor.
    + exact Hc.
  - (* removeStroke *)
    unfold removeStroke. split; [|split; [|split]]; cbn.
    + now apply Forall_filter.
    + now apply (record_wellFormed st).
    + constructor.
    + exact Hc.
  - (* deleteSelected *)
    unfold deleteSelected.
    destruct (List.length (selection st) =? 0)%nat; [exact Hw|].
    split; [|split; [|split]]; cbn.
    + now apply Forall_filter.
    + now apply (record_wellFormed st).
    + constructor.
    + exact Hc.
  - (* loadStrokes *)
    cbn in Hload. split; [|split; [|split]]; cbn.
    + exact Hload.
    + constructor.
    + constructor.
    + discriminate.
Qed.

Lemma initialState_wellFormed : documentWellFormed initialState.
Proof.
  split; [|split; [|split]]; cbn;
    [constructor | constructor | constructor | discriminate].
Qed.

Lemma run_wellFormed (ops : list Op) :
  forall st,
    documentWellFormed st -> Forall loadsWellFormed ops ->
    documentWellFormed (run ops st).
Proof.
  induction ops as [|op ops IH]; intros st Hw Hl; [exact Hw|].
  inversion Hl; subst. apply IH; [|assumption].
  now apply step_wellFormed.
Qed.

(** X7: whatever calls are made on the hook from its initial state, as
    long as the strokes handed to [loadStrokes] are well-formed, every
    stroke of the document has at least one point, was drawn with a drawing
    tool (never the eraser or the selection tool), and carries as
    [pathData] the SVG path of its own points; the same holds of every
    snapshot on the undo and redo stacks and of the stroke in progress. *)
Theorem strokes_stay_wellFormed (ops : list Op) :
  Forall loadsWellFormed ops ->
  let st := run ops initialState in
  (forall s, In s (strokes st) ->
     Stroke.points s <> []
     /\ Stroke.brushType s <> eraser /\ Stroke.brushType s <> select
     /\ Stroke.pathData s = drawingUtils.getSvgPathFromPoints (Stroke.points s))
  /\ documentWellFormed st.
Proof.
  intros Hl st.
  assert (Hw : documentWellFormed st).
  { apply run_wellFormed; [apply initialState_wellFormed | exact Hl]. }
  split; [|exact Hw].
  destruct Hw as (Hs & _). rewrite Forall_forall in Hs.
  intros s Hin. destruct (Hs s Hin) as (Hp & Hb & Hd).
  unfold hasPoints in Hp.
  repeat split; try exact Hd.
  - intros E. now rewrite E in Hp.
  - intros E. now rewrite E in Hb.
  - intros E. now rewrite E in Hb.
Qed.

(** A drawing is opened, a stroke of two points is drawn, a touch with the
    eraser in hand starts nothing, and the stroke is undone and redone. *)
Lemma strokes_stay_wellFormed_witness :
  documentWellFormed
    (run [OpLoadStrokes [Scenarios.dot "a" 1%float 2%float];
          OpStartDrawing "b" (Point.mk 3%float 4%float 0.5%float);
          OpContinueDrawing (Point.mk 5%float 6%float 0.5%float);
          OpEndDrawing;
          OpSetCurrentTool eraser;
          OpStartDrawing "c" (Point.mk 7%float 8%float 0.5%float);
          OpEndDrawing;
          OpUndo;
          OpRedo]
       initialState).
Proof.
  pose proof (strokes_stay_wellFormed
                [OpLoadStrokes [Scenarios.dot "a" 1%float 2%float];
                 OpStartDrawing "b" (Point.mk 3%float 4%float 0.5%float);
                 OpContinueDrawing (Point.mk 5%float 6%float 0.5%float);
                 OpEndDrawing;
                 OpSetCurrentTool eraser;
                 OpStartDrawing "c" (Point.mk 7%float 8%float 0.5%float);
                 OpEndDrawing;
                 OpUndo;
                 OpRedo]) as H.
  cbn zeta in H. destruct H as (_ & Hw); [|exact Hw].
  repeat constructor.
Defined.

End WellFormedFacts.

(** ** Selecting by rectangle, and thumbnails *)

Module SelectionGeometryFacts.
Import drawingUtils useSketchpad JsNumberFacts JsOrderFacts GeometryFacts.

(** X8: a selection rectangle is read by its two corners only: dragging
    from the second corner to the first, or along the other diagonal,
    selects the same strokes, in [getStrokesInRect] and in the hook's
    [selectByRect]. *)
Theorem rect_selection_ignores_corner_order
  (x1 y1 x2 y2 : number) (strokes : list Stroke) (st : State) :
  getStrokesInRect strokes (SelectionRect.mk x1 y1 x2 y2)
  = getStrokesInRect strokes (SelectionRect.mk x2 y2 x1 y1)
  /\ getStrokesInRect strokes (SelectionRect.mk x1 y1 x2 y2)
     = getStrokesInRect strokes (SelectionRect.mk x1 y2 x2 y1)
  /\ selectByRect (SelectionRect.mk x1 y1 x2 y2) st
     = selectByRect (SelectionRect.mk x2 y2 x1 y1) st.
Proof.
  assert (Hswap : forall l,
             filter (boxMeetsRect (SelectionRect.mk x1 y1 x2 y2)) l
             = filter (boxMeetsRect (SelectionRect.mk x2 y2 x1 y1)) l).
  { intros l. apply filter_ext. intros s. apply boxMeetsRect_swap. }
  assert (Hflip : forall l,
             filter (boxMeetsRect (SelectionRect.mk x1 y1 x2 y2)) l
             = filter (boxMeetsRect (SelectionRect.mk x1 y2 x2 y1)) l).
  { intros l. apply filter_ext. intros s. unfold boxMeetsRect. cbn.
    now rewrite (Math_min_comm y1 y2), (Math_max_comm y1 y2). }
  unfold getStrokesInRect, selectByRect.
  split; [now rewrite Hswap|]. split; [now rewrite Hflip | now rewrite Hswap].
Qed.

(** X9: a stroke whose coordinates are all numbers (no NaN) and one of
    whose points lies inside the dragged rectangle, borders included and
    whatever the order of the corners, is selected: its bounding box covers
    the point, its id is returned by [getStrokesInRect] and is in the
    selection after [selectByRect]. *)
Theorem stroke_with_point_in_rect_is_selected
  (rect : SelectionRect) (st : State) (stroke : Stroke) (pt : Point) :
  In stroke (strokes st) ->
  In pt (Stroke.points stroke) ->
  forallb numericPoint (Stroke.points stroke) = true ->
  inRect rect pt = true ->
  boxCovers (getStrokeBoundingBox stroke) pt = true
  /\ In (Stroke.id stroke) (getStrokesInRect (strokes st) rect)
  /\ In (Stroke.id stroke) (selection (selectByRect rect st)).
Proof.
  intros Hs Hp Hnum Hin.
  split; [now apply bbox_covers|].
  assert (H : In (Stroke.id stroke)
                (map Stroke.id (filter (boxMeetsRect rect) (strokes st)))).
  { apply in_map, filter_In. split; [exact Hs|].
    now apply (inRect_meets rect stroke pt). }
  split; exact H.
Qed.

(** The stroke through (1, 2) and (5, 8) is selected by the rectangle
    dragged from (4, 9) to (0, 0). *)
Lemma stroke_with_point_in_rect_is_selected_witness :
  In "d" (selection (selectByRect SelectionScenarios.dragged
                       SelectionScenarios.document)).
Proof.
  apply (stroke_with_point_in_rect_is_selected SelectionScenarios.dragged
           SelectionScenarios.document SelectionScenarios.diagonal
           (Point.mk 1%float 2%float 0.5%float)).
  - left. reflexivity.
  - left. reflexivity.
  - vm_compute. reflexivity.
  - vm_compute. reflexivity.
Defined.

(** X10: the gallery thumbnail is the empty string exactly for a document
    without strokes, and otherwise is drawn from the first ten strokes
    only: strokes after the tenth change neither its view box nor its
    content. *)
Theorem thumbnail_uses_first_ten (strokes more : list Stroke)
  (width height : number) :
  (generateThumbnailSvg strokes width height = EmptyString <-> strokes = [])
  /\ generateThumbnailSvg strokes width height
     = generateThumbnailSvg (firstn 10 strokes) width height
  /\ (10 <= List.length strokes ->
      generateThumbnailSvg (strokes ++ more) width height
      = generateThumbnailSvg strokes width height).
Proof.
  assert (Hfirst : forall l,
             generateThumbnailSvg l width height
             = generateThumbnailSvg (firstn 10 l) width height).
  { intros l. unfold generateThumbnailSvg.
    destruct l as [|s l]; [reflexivity|].
    rewrite firstn_firstn. cbn [Nat.min].
    change (firstn 10 (s :: l)) with (s :: firstn 9 l) at 1 2. reflexivity. }
  split; [|split].
  - split; [|now intros ->].
    destruct strokes; [reflexivity | discriminate].
  - apply Hfirst.
  - intros Hlen. rewrite (Hfirst (strokes ++ more)%list), (Hfirst strokes).
    rewrite firstn_app.
    replace (10 - List.length strokes) with 0 by lia.
    cbn [firstn]. now rewrite app_nil_r.
Qed.

End SelectionGeometryFacts.

(** ** Pressure and geometry *)

Module PressureFacts.
Import drawingUtils useSketchpad SketchScreen SkiaCanvas JsNumberFacts
  JsOrderFacts SketchScreenFacts.

Lemma quadSegments_pressure (f : Point -> number) (pts : list Point) :
  quadSegments (map (repressure f) pts) = quadSegments pts.
Proof.
  induction pts as [|p pts IH]; [reflexivity|].
  destruct pts as [|q pts]; [reflexivity|].
  cbn [map quadSegments] in *. now rewrite IH.
Qed.

Lemma last_repressure (f : Point -> number) (l : list Point) (d : Point) :
  List.last (map (repressure f) l) (repressure f d)
  = repressure f (List.last l d).
Proof.
  induction l as [|a l IH]; [reflexivity|].
  destruct l; [reflexivity|]. cbn [map] in *. exact IH.
Qed.

Lemma path_pressure (f : Point -> number) (pts : list Point) :
  getSvgPathFromPoints (map (repressure f) pts) = getSvgPathFromPoints pts.
Proof.
  destruct pts as [|p0 pts]; [reflexivity|].
  destruct pts as [|p1 pts]; [reflexivity|].
  unfold getSvgPathFromPoints. cbn [map].
  change (repressure f p1 :: map (repressure f) pts)
    with (map (repressure f) (p1 :: pts)).
  rewrite quadSegments_pressure, (last_repressure f).
  reflexivity.
Qed.

Lemma fold_growBox_pressure (f : Point -> number) (pts : list Point) :
  forall bb, fold_left growBox (map (repressure f) pts) bb = fold_left growBox pts bb.
Proof. induction pts as [|p pts IH]; intros bb; [reflexivity|]. cbn. apply IH. Qed.

Lemma bbox_pressure (f : Point -> number) (s : Stroke) :
  getStrokeBoundingBox (withPressures f s) = getStrokeBoundingBox s.
Proof.
  unfold getStrokeBoundingBox, withPressures. cbn [Stroke.points].
  destruct (Stroke.points s) as [|p pts] eqn:E; [reflexivity|].
  change (map (fun pt => Point.mk (Point.x pt) (Point.y pt) (f pt)) (p :: pts))
    with (map (repressure f) (p :: pts)).
  rewrite <- (fold_growBox_pressure f (p :: pts)). reflexivity.
Qed.

Lemma candidates_pressure (f : Point -> number) (x y : number) (strokes : list Stroke) :
  candidates x y (map (withPressures f) strokes) = candidates x y strokes.
Proof.
  unfold candidates. induction strokes as [|s strokes IH]; [reflexivity|].
  cbn [map flat_map]. rewrite IH. f_equal.
  unfold withPressures. cbn [Stroke.points Stroke.id]. rewrite map_map.
  reflexivity.
Qed.

(** X11: the pressure readings of a stroke play no part in its geometry:
    with any other pressures at the same points the SVG path is the same,
    and so are the bounding box, the stroke returned by the hit test
    [findNearestStrokeId] and the strokes returned by [getStrokesInRect]. *)
Theorem geometry_ignores_pressure (f : Point -> number)
  (strokes : list Stroke) :
  (forall pts,
      getSvgPathFromPoints (map (repressure f) pts) = getSvgPathFromPoints pts)
  /\ (forall s, getStrokeBoundingBox (withPressures f s) = getStrokeBoundingBox s)
  /\ (forall x y radius,
        findNearestStrokeId x y (map (withPressures f) strokes) radius
        = findNearestStrokeId x y strokes radius)
  /\ (forall rect,
        getStrokesInRect (map (withPressures f) strokes) rect
        = getStrokesInRect strokes rect).
Proof.
  split; [apply path_pressure|]. split; [apply bbox_pressure|]. split.
  - intros x y radius.
    now rewrite !findNearestStrokeId_scan, candidates_pressure.
  - intros rect. unfold getStrokesInRect.
    induction strokes as [|s l IH]; [reflexivity|].
    cbn [map filter].
    replace (boxMeetsRect rect (withPressures f s)) with (boxMeetsRect rect s)
      by (unfold boxMeetsRect; now rewrite bbox_pressure).
    destruct (boxMeetsRect rect s); cbn [map]; now rewrite IH.
Qed.

End PressureFacts.

(** ** Calligraphy widths *)

Module WidthFacts.
Import SkiaCanvas SkiaCanvasFacts JsNumberFacts JsOrderFacts.

Lemma Math_max_floor (lo v : number) :
  is_nan lo = false ->
  (is_nan v = true -> is_nan (Math_max lo v) = true)
  /\ (is_nan v = false ->
      (lo <=? Math_max lo v)%float = true /\ (v <=? Math_max lo v)%float = true).
Proof.
  intros Hlo. split; intros Hv.
  - unfold Math_max. rewrite Hlo, Hv. reflexivity.
  - now apply Math_max_ge.
Qed.

(** X12: every segment of a calligraphy stroke of two points or more is
    drawn at a width of at least 1, whatever the stored width and the
    pressures, as long as the width is a number: thin or unpressed
    segments never vanish. *)
Theorem calligraphy_segments_at_least_one (stroke : Stroke)
  (sel : list string) (foc : option string) (cur : bool) (w : number) :
  Stroke.brushType stroke = calligraphy ->
  2 <= List.length (Stroke.points stroke) ->
  In w (lineWidths (renderStroke sel foc stroke cur)) ->
  is_nan w = false ->
  (1 <=? w)%float = true.
Proof.
  intros Hb Hlen Hin Hw.
  rewrite (calligraphy_lineWidths stroke sel foc cur Hb Hlen) in Hin.
  apply In_mapAdjacent in Hin as (pt & next & _ & _ & ->).
  unfold segmentWidth in *.
  set (v := (Stroke.strokeWidth stroke
             * ((Point.pressure pt + Point.pressure next) / 2) * 1.5)%float) in *.
  destruct (Math_max_floor 1%float v eq_refl) as (Hnan & Hok).
  destruct (is_nan v) eqn:Hv.
  - rewrite (Hnan eq_refl) in Hw. discriminate.
  - now apply Hok.
Qed.

(** A calligraphy stroke of stored width 0.5 with pressure 0.2 at both
    ends would compute 0.15 for its segment, and is drawn at 1. *)
Lemma calligraphy_segments_at_least_one_witness :
  (1 <=? 1)%float = true
  /\ lineWidths
       (renderStroke [] None
          (Stroke.mk "thin" (Stroke.points CanvasScenarios.calligraphyLine)
             "#000000" 0.5%float calligraphy EmptyString) false)
     = [1%float].
Proof.
  split; [|vm_compute; reflexivity].
  apply (calligraphy_segments_at_least_one
           (Stroke.mk "thin" (Stroke.points CanvasScenarios.calligraphyLine)
              "#000000" 0.5%float calligraphy EmptyString) [] None false 1%float).
  - reflexivity.
  - cbn. lia.
  - vm_compute. left. reflexivity.
  - reflexivity.
Defined.

End WidthFacts.

(** ** The hit test and its radius *)

Module RadiusFacts.
Import SketchScreen SketchScreenFacts JsNumberFacts JsOrderFacts.

Lemma ltb_leb_trans (a b c : number) :
  (a <? b)%float = true -> (b <=? c)%float = true -> (a <? c)%float = true.
Proof.
  intros Hab Hbc. to_keys. apply ltb_key. do 2 eexists.
  split; [eassumption|]. split; [eassumption|]. open_keys. lia.
Qed.

Lemma split_positions {A} (pre pre' post post' : list A) (x x' : A) :
  (pre ++ x :: post = pre' ++ x' :: post')%list ->
  (pre = pre' /\ x = x') \/ In x pre' \/ In x' pre.
Proof.
  revert pre'. induction pre as [|a pre IH]; intros pre' Heq.
  - destruct pre' as [|a' pre'].
    + left. cbn in Heq. injection Heq as -> _. auto.
    + right. left. cbn in Heq. injection Heq as -> _. now left.
  - destruct pre' as [|a' pre'].
    + right. right. cbn in Heq. injection Heq as -> _. now left.
    + cbn in Heq. injection Heq as -> Heq.
      destruct (IH pre' Heq) as [(-> & ->) | [H | H]]; auto.
      * right. left. now right.
      * right. right. now right.
Qed.

(** X13: the radius of the hit test only decides whether a stroke is
    found, not which one: a stroke found within a radius is the stroke
    found within any larger radius.  The eraser (radius 20) and the
    selection tap (radius 30) therefore agree wherever the eraser finds a
    stroke. *)
Theorem larger_radius_same_stroke (x y : number) (strokes : list Stroke)
  (radius radius' : number) (id : string) :
  findNearestStrokeId x y strokes radius = Some id ->
  (radius <=? radius')%float = true ->
  findNearestStrokeId x y strokes radius' = Some id.
Proof.
  rewrite !findNearestStrokeId_scan. intros Hfound Hle.
  destruct (scan_spec (candidates x y strokes) (None, radius))
    as [(Hs & _) | (pre & i & d & post & Hc & Hs & Hd & Hmin & Hfirst)];
    rewrite Hs in Hfound; cbn [fst snd] in *; [discriminate|].
  injection Hfound as ->.
  pose proof (ltb_leb_trans _ _ _ Hd Hle) as Hd'.
  destruct (scan_spec (candidates x y strokes) (None, radius'))
    as [(_ & Hnone) | (pre' & i' & d' & post' & Hc' & Hs' & Hd2 & Hmin' & Hfirst')];
    cbn [fst snd] in *.
  - assert (Hin : In (id, d) (candidates x y strokes)).
    { rewrite Hc. apply in_or_app. right. now left. }
    specialize (Hnone _ Hin). cbn in Hnone. congruence.
  - rewrite Hs'. cbn [fst]. f_equal.
    assert (Hin : In (id, d) (candidates x y strokes)).
    { rewrite Hc. apply in_or_app. right. now left. }
    assert (Hin' : In (i', d') (candidates x y strokes)).
    { rewrite Hc'. apply in_or_app. right. now left. }
    pose proof (Hmin _ Hin') as Hn1. pose proof (Hmin' _ Hin) as Hn2.
    cbn [snd] in Hn1, Hn2.
    rewrite Hc in Hc'.
    destruct (split_positions _ _ _ _ _ _ Hc') as [(_ & Heq) | [H | H]].
    + now injection Heq.
    + specialize (Hfirst' _ H Hd'). cbn [snd] in Hfirst'. congruence.
    + destruct (ltb_cotrans _ _ _ _ Hd Hd2) as [Hlt | Hlt]; [congruence|].
      specialize (Hfirst _ H Hlt). cbn [snd] in Hfirst. congruence.
Qed.

(** In the scenario of three strokes the eraser's radius finds the first of
    the two nearest strokes, and so does the radius of the selection tap. *)
Lemma larger_radius_same_stroke_witness :
  findNearestStrokeId 0%float 0%float HitTestScenarios.tied 30%float
  = Some "a".
Proof.
  apply (larger_radius_same_stroke 0%float 0%float HitTestScenarios.tied
           20%float 30%float "a").
  - vm_compute. reflexivity.
  - vm_compute. reflexivity.
Defined.

End RadiusFacts.

(** ** The sketch screen *)

Module SketchScreenEventsFacts.
Import useSketchpad SketchScreen SketchScreenEvents SketchpadFacts
  SketchScreenFacts SketchpadMoreFacts.

Lemma findNearestStrokeId_present (x y : number) (strokes : list Stroke)
  (radius : number) (id : string) :
  findNearestStrokeId x y strokes radius = Some id ->
  In id (map Stroke.id strokes).
Proof.
  rewrite findNearestStrokeId_scan. intros Hfound.
  destruct (scan_spec (candidates x y strokes) (None, radius))
    as [(Hs & _) | (pre & i & d & post & Hc & Hs & _)];
    rewrite Hs in Hfound; cbn [fst] in Hfound; [discriminate|].
  injection Hfound as ->.
  assert (Hin : In (id, d) (candidates x y strokes)).
  { rewrite Hc. apply in_or_app. right. now left. }
  apply candidates_In in Hin as (s & pt & Hs' & _ & <- & _).
  now apply in_map.
Qed.

Lemma truthy_Some (nearId : option string) (id : string) :
  truthy nearId = Some id -> nearId = Some id.
Proof.
  destruct nearId as [i|]; [|discriminate]. cbn.
  destruct (String.length i =? 0)%nat; [discriminate | congruence].
Qed.

Lemma selectedStrokes_present (strokes : list Stroke) (selection : list string)
  (position : nat) (stroke : Stroke) :
  nth_error (SelectionPanel.selectedStrokes strokes selection) position
  = Some stroke ->
  In (Stroke.id stroke) (map Stroke.id strokes)
  /\ includes (Stroke.id stroke) selection = true.
Proof.
  intros Hn. apply nth_error_In in Hn. apply filter_In in Hn as (Hin & Hsel).
  split; [now apply in_map | exact Hsel].
Qed.

Lemma continueDrawing_points (pts : list Point) :
  forall (st : State) (s : Stroke),
    currentStroke st = Some s ->
    exists s',
      Stroke.points s' = (Stroke.points s ++ pts)%list
      /\ Stroke.id s' = Stroke.id s
      /\ fold_left (fun a p => continueDrawing p a) pts st
         = setCurrentStroke (Some s') st.
Proof.
  induction pts as [|p pts IH]; intros st s Hcur.
  - exists s. rewrite app_nil_r. repeat split. destruct st; cbn in *. now subst.
  - cbn [fold_left]. unfold continueDrawing at 2. rewrite Hcur.
    match goal with
    | |- context [setCurrentStroke (Some ?n) st] => set (s1 := n)
    end.
    destruct (IH (setCurrentStroke (Some s1) st) s1 eq_refl)
      as (s' & Hp & Hid & Heq).
    exists s'. split; [|split].
    + rewrite Hp. subst s1. cbn. now rewrite <- app_assoc.
    + rewrite Hid. reflexivity.
    + rewrite Heq. reflexivity.
Qed.

Section Handlers.
Variable android : bool.

Lemma handle_wellReferenced (ev : UiEvent) (scr : Screen) :
  wellReferenced (sketch scr) ->
  wellReferenced (sketch (handle android ev scr)).
Proof.
  intros Hw.
  assert (Hstep : forall op, idsPresent op (sketch scr) ->
                             wellReferenced (step op (sketch scr)))
    by (intros op; now apply step_wellReferenced).
  destruct ev as [nid evt|evt|evt| |layout| | | |tool|c|w|position|position| | | ];
    cbn [handle].
  - (* grant *)
    unfold onPanResponderGrant.
    destruct (currentTool (sketch scr)) eqn:Ht; cbn [sketch withSketch withDrag];
      try exact Hw;
      apply (Hstep (OpStartDrawing nid _)); exact I.
  - (* move *)
    unfold onPanResponderMove.
    destruct (currentTool (sketch scr)) eqn:Ht;
      try (apply (Hstep (OpContinueDrawing _)); exact I).
    + destruct (truthy _) as [nearId|]; [|exact Hw].
      apply (Hstep (OpRemoveStroke nearId)). exact I.
    + destruct (dragStartRef scr); [exact Hw|].
      apply (Hstep (OpContinueDrawing _)). exact I.
  - (* release *)
    unfold onPanResponderRelease.
    destruct (currentTool (sketch scr)) eqn:Ht;
      try (apply (Hstep OpEndDrawing); exact I).
    destruct (dragStartRef scr) as [ds|];
      [|apply (Hstep OpEndDrawing); exact I].
    cbn [sketch withDrag].
    destruct (_ <? DRAG_THRESHOLD)%float.
    + destruct (truthy _) as [nearId|] eqn:Hn; [|exact Hw].
      apply truthy_Some, findNearestStrokeId_present in Hn.
      apply (Hstep (OpToggleSelection nearId)). exact Hn.
    + apply (Hstep (OpSelectByRect _)). exact I.
  - apply (Hstep OpEndDrawing). exact I.
  - exact Hw.
  - apply (Hstep OpUndo). exact I.
  - apply (Hstep OpRedo). exact I.
  - apply (Hstep OpClear). exact I.
  - apply (Hstep (OpSetCurrentTool tool)). exact I.
  - apply (Hstep (OpSetCurrentColor c)). exact I.
  - apply (Hstep (OpSetCurrentWidth w)). exact I.
  - unfold panelPress. destruct (SelectionPanel.shown _); [|exact Hw].
    destruct (nth_error _ position) as [stroke|] eqn:Hn; [|exact Hw].
    apply selectedStrokes_present in Hn as (Hn & _).
    apply (Hstep (OpToggleFocused _)). exact Hn.
  - unfold panelPress. destruct (SelectionPanel.shown _); [|exact Hw].
    destruct (nth_error _ position) as [stroke|] eqn:Hn; [|exact Hw].
    apply selectedStrokes_present in Hn as (Hn & _).
    apply (Hstep (OpToggleSelection _)). exact Hn.
  - unfold panelButton. destruct (SelectionPanel.shown _); [|exact Hw].
    apply (Hstep OpDeleteSelected). exact I.
  - unfold panelButton. destruct (SelectionPanel.shown _); [|exact Hw].
    apply (Hstep OpClearSelection). exact I.
  - apply (Hstep OpMarkClean). exact I.
Qed.

Lemma handleAll_wellReferenced (evs : list UiEvent) :
  forall scr,
    wellReferenced (sketch scr) ->
    wellReferenced (sketch (handleAll android evs scr)).
Proof.
  induction evs as [|ev evs IH]; intros scr Hw; [exact Hw|].
  apply IH. now apply handle_wellReferenced.
Qed.

(** X14: whatever the user does on the sketch screen (touches with any
    tool, undo, redo, clear, tool, colour and width changes, presses in the
    selection panel, saving), in any order and from any opened drawing, the
    selection and the focus only ever name strokes of the document: the
    screen hands the hook only ids it read off the current strokes. *)
Theorem screen_keeps_references_valid (layout : Layout)
  (initialStrokes : list Stroke) (evs : list UiEvent) :
  wellReferenced (sketch (handleAll android evs (mount layout initialStrokes))).
Proof.
  apply handleAll_wellReferenced. unfold mount. cbn [sketch].
  destruct (0 <? List.length initialStrokes)%nat;
    (split; [intros ? [] | intros ? ?; discriminate]).
Qed.

(** *** A whole stroke *)

Lemma moves_continue (evs : list NativeEvent) :
  forall scr,
    isDrawingTool (currentTool (sketch scr)) = true ->
    handleAll android (map PanMove evs) scr
    = withSketch
        (fun st =>
           fold_left (fun a p => continueDrawing p a)
             (map (fun evt => pointOf android evt scr) evs) st)
        scr.
Proof.
  induction evs as [|evt evs IH]; intros scr Htool.
  - destruct scr. reflexivity.
  - cbn [map handleAll fold_left handle].
    assert (Hmove : onPanResponderMove android evt scr
                    = withSketch (continueDrawing (pointOf android evt scr)) scr).
    { unfold onPanResponderMove.
      destruct (currentTool (sketch scr)); try discriminate Htool; reflexivity. }
    rewrite Hmove. unfold handleAll in IH. rewrite IH.
    + reflexivity.
    + cbn [sketch withSketch]. unfold continueDrawing.
      destruct (currentStroke (sketch scr)); exact Htool.
Qed.

(** X15: with a drawing tool in hand, a touch that goes down, moves any
    number of times and is released commits exactly one stroke: the
    document gains one stroke at its end, carrying the id drawn at touch
    down and one point per touch-down and move event, in canvas
    coordinates; no stroke stays in progress, and one undo gives back the
    strokes there were before the touch. *)
Theorem pen_gesture_commits_one_stroke (nid : string)
  (down : NativeEvent) (moves : list NativeEvent) (up : NativeEvent)
  (scr : Screen) :
  isDrawingTool (currentTool (sketch scr)) = true ->
  let scr' :=
    handleAll android
      (PanGrant nid down :: map PanMove moves ++ [PanRelease up]) scr in
  sketch scr'
  = draw (mkGesture nid (pointOf android down scr)
            (map (fun evt => pointOf android evt scr) moves))
      (sketch scr)
  /\ exists s,
       strokes (sketch scr') = (strokes (sketch scr) ++ [s])%list
       /\ Stroke.id s = nid
       /\ List.length (Stroke.points s) = S (List.length moves)
       /\ currentStroke (sketch scr') = None
       /\ strokes (undo (sketch scr')) = strokes (sketch scr).
Proof.
  intros Htool. cbn zeta.
  set (st := sketch scr) in *.
  set (p0 := pointOf android down scr).
  set (pts := map (fun evt => pointOf android evt scr) moves).
  assert (Hgrant : onPanResponderGrant android nid down scr
                   = withSketch (startDrawing nid p0) scr).
  { unfold onPanResponderGrant. fold st in Htool |- *.
    destruct (currentTool st); try discriminate Htool; reflexivity. }
  assert (Htool1 : isDrawingTool
                     (currentTool (sketch (withSketch (startDrawing nid p0) scr)))
                   = true).
  { cbn [sketch withSketch]. fold st.
    replace (currentTool (startDrawing nid p0 st)) with (currentTool st);
      [exact Htool|].
    unfold startDrawing. destruct (currentTool st) eqn:E; cbn; congruence. }
  assert (Hsketch :
            sketch (handleAll android
                      (PanGrant nid down :: map PanMove moves ++ [PanRelease up])
                      scr)
            = draw (mkGesture nid p0 pts) st).
  { unfold handleAll. cbn [fold_left handle]. rewrite Hgrant, fold_left_app.
    fold (handleAll android (map PanMove moves)
            (withSketch (startDrawing nid p0) scr)).
    rewrite (moves_continue moves _ Htool1).
    cbn [fold_left handle]. unfold onPanResponderRelease.
    set (scr2 := withSketch _ (withSketch (startDrawing nid p0) scr)).
    assert (Ht2 : isDrawingTool (currentTool (sketch scr2)) = true).
    { subst scr2. cbn [sketch withSketch].
      destruct (draw_fields (mkGesture nid p0 pts) st Htool) as (? & _).
      clear -Htool1.
      cbn [sketch withSketch] in Htool1.
      generalize dependent (startDrawing nid p0 (sketch scr)).
      induction (map (fun evt => pointOf android evt
                                   (withSketch (startDrawing nid p0) scr)) moves)
        as [|p l IH]; intros s0 H0; [exact H0|].
      cbn [fold_left]. apply IH. unfold continueDrawing.
      destruct (currentStroke s0); exact H0. }
    destruct (currentTool (sketch scr2)) eqn:Ht; try discriminate Ht2;
      reflexivity. }
  split; [exact Hsketch|]. rewrite Hsketch.
  unfold draw. cbn [newId first rest].
  assert (Hstart : exists s0,
             Stroke.points s0 = [p0] /\ Stroke.id s0 = nid
             /\ startDrawing nid p0 st = setCurrentStroke (Some s0) st).
  { unfold startDrawing.
    destruct (currentTool st); try discriminate Htool;
      eexists; (split; [|split; [|reflexivity]]); reflexivity. }
  destruct Hstart as (s0 & Hp0 & Hid0 & ->).
  destruct (continueDrawing_points pts (setCurrentStroke (Some s0) st) s0 eq_refl)
    as (s & Hp & Hid & ->).
  assert (Hhas : hasPoints s = true).
  { unfold hasPoints. rewrite Hp, Hp0. reflexivity. }
  change (endDrawing (setCurrentStroke (Some s) (setCurrentStroke (Some s0) st)))
    with (commit s st).
  destruct (commit_fields s st Hhas) as (Hs & Hu & _).
  exists s. repeat split.
  - exact Hs.
  - congruence.
  - rewrite Hp, Hp0. subst pts. cbn. now rewrite length_map.
  - now rewrite (commit_commits s st Hhas).
  - destruct (recorded_top (strokes st) st) as (older & Htop).
    apply (undo_after_record st _ _ older).
    rewrite (commit_commits s st Hhas). exact Htop.
Qed.

(** *** The eraser *)

Lemma filter_shorter {A} (f : A -> bool) (l : list A) (x : A) :
  In x l -> f x = false ->
  List.length (filter f l) < List.length l.
Proof.
  induction l as [|a l IH]; intros Hin Hf; [destruct Hin|].
  cbn [filter]. pose proof (filter_length_le f l) as Hle.
  destruct Hin as [-> | Hin].
  - rewrite Hf. cbn [List.length]. lia.
  - specialize (IH Hin Hf). destruct (f a); cbn [List.length]; lia.
Qed.

Lemma findNearestStrokeId_none (x y : number) (strokes : list Stroke)
  (radius : number) :
  (forall s pt, In s strokes -> In pt (Stroke.points s) ->
                (distanceTo x y pt <? radius)%float = false) ->
  findNearestStrokeId x y strokes radius = None.
Proof.
  intros Hfar. rewrite findNearestStrokeId_scan.
  destruct (scan_spec (candidates x y strokes) (None, radius))
    as [(Hs & _) | (pre & i & d & post & Hc & _ & Hd & _)];
    [now rewrite Hs|].
  assert (Hin : In (i, d) (candidates x y strokes)).
  { rewrite Hc. apply in_or_app. right. now left. }
  apply candidates_In in Hin as (s & pt & Hs' & Hpt & _ & <-).
  cbn [snd] in Hd. rewrite (Hfar s pt Hs' Hpt) in Hd. discriminate.
Qed.

(** X16: with the eraser in hand, a move of the finger removes the stroke
    the hit test finds within 20 px of it, and only that: the stroke was in
    the document and is no longer, the document is shorter, and one undo
    brings the strokes back; when every point of every stroke is 20 px away
    or more, the move changes nothing at all. *)
Theorem eraser_move_removes_nearest (evt : NativeEvent) (scr : Screen) :
  currentTool (sketch scr) = eraser ->
  let x := localX evt scr in
  let y := localY evt scr in
  let scr' := onPanResponderMove android evt scr in
  (forall id,
      truthy (findNearestStrokeId x y (strokes (sketch scr)) 20%float) = Some id ->
      In id (strokeIds (sketch scr))
      /\ sketch scr' = removeStroke id (sketch scr)
      /\ ~ In id (strokeIds (sketch scr'))
      /\ List.length (strokes (sketch scr')) < List.length (strokes (sketch scr))
      /\ strokes (undo (sketch scr')) = strokes (sketch scr))
  /\ ((forall s pt, In s (strokes (sketch scr)) -> In pt (Stroke.points s) ->
                    (distanceTo x y pt <? 20)%float = false) ->
      scr' = scr).
Proof.
  intros Htool. cbn zeta. unfold onPanResponderMove. rewrite Htool. split.
  - intros id Hnear. rewrite Hnear. cbn [sketch withSketch].
    pose proof (findNearestStrokeId_present _ _ _ _ _ (truthy_Some _ _ Hnear))
      as Hin.
    split; [exact Hin|]. split; [reflexivity|].
    assert (Hgone : ~ In id (strokeIds (removeStroke id (sketch scr)))).
    { unfold removeStroke, strokeIds. cbn [strokes setStrokes].
      intros H. apply in_map_iff in H as (s & Hid & Hs).
      apply filter_In in Hs as (_ & Hneq). subst.
      now rewrite String.eqb_refl in Hneq. }
    split; [exact Hgone|]. split.
    + unfold strokeIds in Hin. apply in_map_iff in Hin as (s & Hid & Hs).
      unfold removeStroke. cbn [strokes setStrokes].
      apply (filter_shorter _ _ s Hs). subst. now rewrite String.eqb_refl.
    + destruct (recorded_top (strokes (sketch scr)) (sketch scr))
        as (older & Htop).
      apply (undo_after_record (sketch scr) _ _ older). exact Htop.
  - intros Hfar. now rewrite (findNearestStrokeId_none _ _ _ _ Hfar).
Qed.

End Handlers.

(** On a new drawing a touch down at page position (10, 110), two moves and
    a release leave one stroke of three points. *)
Lemma pen_gesture_commits_one_stroke_witness :
  map (fun s => (Stroke.id s, List.length (Stroke.points s)))
    (strokes
       (sketch
          (handleAll false
             [PanGrant "s1" (ScreenScenarios.touch 10%float 110%float);
              PanMove (ScreenScenarios.touch 20%float 120%float);
              PanMove (ScreenScenarios.touch 30%float 130%float);
              PanRelease (ScreenScenarios.touch 30%float 130%float)]
             ScreenScenarios.blank)))
  = [("s1", 3)].
Proof.
  pose proof (pen_gesture_commits_one_stroke false "s1"
                (ScreenScenarios.touch 10%float 110%float)
                [ScreenScenarios.touch 20%float 120%float;
                 ScreenScenarios.touch 30%float 130%float]
                (ScreenScenarios.touch 30%float 130%float)
                ScreenScenarios.blank eq_refl) as H.
  cbn zeta in H. destruct H as (_ & s & Hs & Hid & Hlen & _).
  cbn [map app] in Hs. rewrite Hs.
  change (strokes (sketch ScreenScenarios.blank)) with (@nil Stroke).
  cbn [map app]. rewrite Hid, Hlen. reflexivity.
Defined.

(** In the scenario of three strokes, a move of the eraser at the origin
    of the canvas removes the first of the two nearest strokes. *)
Lemma eraser_move_removes_nearest_witness :
  strokeIds
    (sketch (onPanResponderMove false (ScreenScenarios.touch 0%float 100%float)
               ScreenScenarios.erasing))
  = ["b"; "c"].
Proof.
  pose proof (eraser_move_removes_nearest false
                (ScreenScenarios.touch 0%float 100%float)
                ScreenScenarios.erasing eq_refl) as H.
  cbn zeta in H. destruct H as (Hnear & _).
  destruct (Hnear "a") as (_ & Heq & _); [vm_compute; reflexivity|].
  rewrite Heq. vm_compute. reflexivity.
Defined.

End SketchScreenEventsFacts.

(** ** Saving, opening, deleting and renaming drawings *)

Module PersistenceFacts.
Import useDrawingStorage useDrawingStorageFacts.

Lemma record_key_not_index (id : string) :
  String.eqb (DRAWING_PREFIX ++ id) DRAWINGS_INDEX_KEY = false
  /\ String.eqb DRAWINGS_INDEX_KEY (DRAWING_PREFIX ++ id) = false.
Proof. split; reflexivity. Qed.

Lemma record_keys_differ (id other : string) :
  String.eqb (DRAWING_PREFIX ++ other) (DRAWING_PREFIX ++ id)
  = String.eqb other id.
Proof. reflexivity. Qed.

Lemma other_key (id other : string) :
  other <> id ->
  String.eqb (DRAWING_PREFIX ++ other) (DRAWING_PREFIX ++ id) = false.
Proof. intros Hne. rewrite record_keys_differ. now apply String.eqb_neq. Qed.

(** *** The schedule of the store *)

Lemma resolves_next (n : nat) (store : Store) :
  resolves (S n) store = true ->
  outcome store = None /\ resolves n (advance store) = true.
Proof.
  unfold resolves, outcome, advance. cbn [schedule].
  destruct (schedule store) as [|[e|] rest]; cbn [firstn forallb hd tl andb].
  - intros _. split; [reflexivity|]. now destruct n.
  - discriminate.
  - auto.
Qed.

(** The steps of the callbacks, unfolded down to the schedule. *)
Ltac run_task :=
  unfold swallowing, andThen, await, evaluate, update, ret,
    getItem, setItem, removeItem, outcome, advance, readIndex in *;
  cbn [storage hook items schedule hd tl fst snd] in *.

Ltac open_schedule w :=
  let its := fresh "its" in
  let sched := fresh "sched" in
  let st := fresh "st" in
  destruct w as [[its sched] st];
  destruct sched as [|[?e|] [|[?e|] [|[?e|] ?rest]]];
  cbn [storage hook items schedule hd tl fst snd firstn forallb andb] in *;
  try discriminate.

Ltac simpl_world :=
  cbn [storage hook items schedule hd tl fst snd drawings setDrawings
       firstn forallb andb] in *.

Ltac split_cases :=
  repeat match goal with
         | |- context [match idsOf ?p ?x with _ => _ end] =>
             destruct (idsOf p x) eqn:?
         | |- context [if includes ?a ?b then _ else _] =>
             destruct (includes a b) eqn:?
         end;
  cbn [storage hook items schedule hd tl fst snd] in *.

Section Persistence.
Variable stringifyDrawing : Drawing -> string.
Variable parseDrawing : string -> Outcome Drawing.
Variable stringifyIds : list string -> string.
Variable parseIds : string -> Outcome (list string).
Variable sortByUpdatedAtDesc : list Drawing -> list Drawing.

Local Abbreviation save := (saveDrawing stringifyDrawing stringifyIds parseIds).
Local Abbreviation open := (loadDrawingById parseDrawing).
Local Abbreviation index := (readIndex parseIds).

(** *** Opening *)

Lemma open_reads (id json : string) (d : Drawing) (w : World) :
  outcome (storage w) = None ->
  items (storage w) (DRAWING_PREFIX ++ id) = Some json ->
  json <> EmptyString ->
  parseDrawing json = Returned d ->
  snd (open id w) = Some d.
Proof.
  intros Hout Hitem Hne Hparse. unfold loadDrawingById.
  unfold andThen, await, evaluate, ret, getItem. rewrite Hout.
  cbn [storage hook]. rewrite Hitem, (present_nonempty _ Hne), Hparse.
  reflexivity.
Qed.

Lemma open_nothing (id : string) (w : World) :
  items (storage w) (DRAWING_PREFIX ++ id) = None \/ outcome (storage w) <> None ->
  snd (open id w) = None.
Proof.
  intros H. unfold loadDrawingById.
  unfold andThen, await, evaluate, ret, getItem.
  destruct (outcome (storage w)) as [e|] eqn:Hout; [reflexivity|].
  destruct H as [Hitem | Hcontra]; [|congruence].
  cbn [storage hook]. rewrite Hitem. reflexivity.
Qed.

(** *** Saving *)

Lemma save_stores_record (newId now : string) (strokes : list Stroke)
  (cw ch : number) (name : string) (existingId : option string) (w : World) :
  let d := recordToSave newId now strokes cw ch name existingId w in
  let w' := fst (save newId now strokes cw ch name existingId w) in
  (resolves 1 (storage w) = true ->
   items (storage w') (DRAWING_PREFIX ++ Drawing.id d)
   = Some (stringifyDrawing d))
  /\ (forall other, other <> Drawing.id d ->
        items (storage w') (DRAWING_PREFIX ++ other)
        = items (storage w) (DRAWING_PREFIX ++ other)).
Proof.
  cbn zeta. unfold saveDrawing.
  remember (recordToSave newId now strokes cw ch name existingId w) as d eqn:Hd.
  clear Hd. unfold resolves. run_task.
  split.
  - intros Hres. open_schedule w; split_cases.
    all: rewrite ?(proj1 (record_key_not_index _)).
    all: now rewrite String.eqb_refl.
  - intros other Hne. pose proof (other_key _ _ Hne) as Hkey.
    open_schedule w; split_cases.
    all: rewrite ?(proj1 (record_key_not_index _)), ?Hkey; reflexivity.
Qed.

(** X17: what [saveDrawing] has written, [loadDrawingById] reads back.
    When the write of the record resolves and the record survives
    [JSON.stringify] followed by [JSON.parse], the record is in the store
    under the id the save used, whatever becomes of the index update that
    follows; opening that id returns the record whenever the read
    resolves, with the strokes and the name that were saved and the
    thumbnail of those strokes, and [null] when the read rejects; the
    records of other drawings are as before. *)
Theorem saved_drawing_opens (newId now : string) (strokes : list Stroke)
  (cw ch : number) (name : string) (existingId : option string) (w : World) :
  let d := recordToSave newId now strokes cw ch name existingId w in
  parseDrawing (stringifyDrawing d) = Returned d ->
  stringifyDrawing d <> EmptyString ->
  resolves 1 (storage w) = true ->
  let w' := fst (save newId now strokes cw ch name existingId w) in
  items (storage w') (DRAWING_PREFIX ++ Drawing.id d)
  = Some (stringifyDrawing d)
  /\ (resolves 1 (storage w') = true -> snd (open (Drawing.id d) w') = Some d)
  /\ (outcome (storage w') <> None -> snd (open (Drawing.id d) w') = None)
  /\ Drawing.strokes d = strokes
  /\ Drawing.name d = name
  /\ Drawing.thumbnailSvg d = drawingUtils.generateThumbnailSvg strokes cw ch
  /\ (forall other, other <> Drawing.id d ->
        items (storage w') (DRAWING_PREFIX ++ other)
        = items (storage w) (DRAWING_PREFIX ++ other)).
Proof.
  cbn zeta. intros Hrt Hne Hres.
  destruct (save_stores_record newId now strokes cw ch name existingId w)
    as (Hrec & Hother).
  cbn zeta in Hrec, Hother. specialize (Hrec Hres).
  split; [exact Hrec|]. split; [|split].
  - intros Hread. apply resolves_next in Hread as (Hout & _).
    now apply (open_reads _ _ _ _ Hout Hrec Hne Hrt).
  - intros Hout. apply open_nothing. now right.
  - repeat split. exact Hother.
Qed.

(** X18: when the three store calls of a save resolve and the stored index
    decodes (or there is none), [saveDrawing] resolves to the id of the
    drawing and leaves that id in the index: appended at the end when it
    was not listed, provided the new index survives the JSON round trip,
    and otherwise the index is left as it was.  Every id listed before is
    still listed, an index without duplicates stays without duplicates,
    and the drawing, without its strokes, heads the list of the hook. *)
Theorem save_keeps_index_without_duplicates (newId now : string)
  (strokes : list Stroke) (cw ch : number) (name : string)
  (existingId : option string) (w : World) (ids : list string) :
  let d := recordToSave newId now strokes cw ch name existingId w in
  let id := Drawing.id d in
  let newIds := if includes id ids then ids else (ids ++ [id])%list in
  resolves 3 (storage w) = true ->
  index (storage w) = Returned ids ->
  (includes id ids = false ->
   parseIds (stringifyIds newIds) = Returned newIds
   /\ stringifyIds newIds <> EmptyString) ->
  let result := save newId now strokes cw ch name existingId w in
  snd result = Returned id
  /\ index (storage (fst result)) = Returned newIds
  /\ In id newIds
  /\ (NoDup ids -> NoDup newIds)
  /\ (forall other, In other ids -> In other newIds)
  /\ drawings (hook (fst result))
     = withoutStrokes d
       :: filter (fun x => negb (String.eqb (Drawing.id x) id))
            (drawings (hook w)).
Proof using stringifyDrawing stringifyIds parseIds.
  cbn zeta. intros Hres Hidx Hcodec. unfold saveDrawing.
  remember (recordToSave newId now strokes cw ch name existingId w) as d eqn:Hd.
  clear Hd. unfold resolves in Hres. run_task.
  open_schedule w.
  all: rewrite ?(proj2 (record_key_not_index _)), Hidx; simpl_world.
  all: destruct (includes (Drawing.id d) ids) eqn:Hinc; simpl_world.
  all: split; [reflexivity|].
  all: split;
    [first [ rewrite ?(proj2 (record_key_not_index _)); exact Hidx
           | destruct (Hcodec eq_refl) as (Hrt & Hne);
             unfold idsOf; rewrite String.eqb_refl;
             now rewrite (present_nonempty _ Hne) ]|].
  all: split;
    [first [ unfold includes in Hinc;
             apply existsb_exists in Hinc as (x & Hx & Heq);
             apply String.eqb_eq in Heq; now subst
           | apply in_or_app; right; now left ]|].
  all: split;
    [first [ (intros Hnd; exact Hnd)
           | intros Hnd; apply NoDup_app;
             [exact Hnd | repeat constructor; intros [] |];
             intros a Ha [<- | []];
             assert (Hin : includes (Drawing.id d) ids = true)
               by (unfold includes; apply existsb_exists;
                   exists (Drawing.id d);
                   split; [exact Ha | apply String.eqb_refl]);
             rewrite Hin in Hinc; discriminate Hinc ]|].
  all: split; [|reflexivity].
  all: first [ (intros other Hin; exact Hin)
             | intros other Hin; apply in_or_app; now left ].
Qed.

Lemma rejected_save_frame (newId now : string) (strokes : list Stroke)
  (cw ch : number) (name : string) (existingId : option string) (w : World)
  (e : string) :
  let result := save newId now strokes cw ch name existingId w in
  snd result = Thrown e ->
  hook (fst result) = hook w
  /\ items (storage (fst result)) DRAWINGS_INDEX_KEY
     = items (storage w) DRAWINGS_INDEX_KEY.
Proof.
  cbn zeta. unfold saveDrawing.
  remember (recordToSave newId now strokes cw ch name existingId w) as d eqn:Hd.
  clear Hd. run_task. open_schedule w; split_cases; simpl_world;
    intros Hthrown; try discriminate Hthrown;
    rewrite ?(proj2 (record_key_not_index _)); split; reflexivity.
Qed.

(** X19: [saveDrawing] has no handler of its own, so it rejects at the
    first store call that rejects and when the stored index does not
    decode.  A rejected save never touches the list of the hook nor the
    stored index.  When the write of the record rejects, nothing is stored;
    once that write has resolved the record is in the store even though
    the save rejects afterwards (on the read of the index, on an index that
    does not decode, or on the write of the index): stored but not
    listed. *)
Theorem save_rejections (newId now : string) (strokes : list Stroke)
  (cw ch : number) (name : string) (existingId : option string) (w : World) :
  let d := recordToSave newId now strokes cw ch name existingId w in
  let result := save newId now strokes cw ch name existingId w in
  (forall e, snd result = Thrown e ->
     hook (fst result) = hook w
     /\ items (storage (fst result)) DRAWINGS_INDEX_KEY
        = items (storage w) DRAWINGS_INDEX_KEY)
  /\ (forall e, outcome (storage w) = Some e ->
        snd result = Thrown e
        /\ items (storage (fst result)) = items (storage w))
  /\ (resolves 1 (storage w) = true ->
      items (storage (fst result)) (DRAWING_PREFIX ++ Drawing.id d)
      = Some (stringifyDrawing d))
  /\ (forall e, resolves 1 (storage w) = true ->
        nth 1 (schedule (storage w)) None = Some e ->
        snd result = Thrown e)
  /\ (forall e, resolves 2 (storage w) = true ->
        index (storage w) = Thrown e ->
        snd result = Thrown e)
  /\ (forall e ids, resolves 2 (storage w) = true ->
        index (storage w) = Returned ids ->
        includes (Drawing.id d) ids = false ->
        nth 2 (schedule (storage w)) None = Some e ->
        snd result = Thrown e).
Proof.
  cbn zeta.
  pose proof (save_stores_record newId now strokes cw ch name existingId w)
    as Hrec.
  cbn zeta in Hrec. destruct Hrec as (Hrec & _).
  split; [|split; [|split; [exact Hrec|]]]; clear Hrec.
  - intros e. apply rejected_save_frame.
  - intros e Hout. unfold saveDrawing.
    remember (recordToSave newId now strokes cw ch name existingId w) as d eqn:Hd.
    clear Hd. run_task. rewrite Hout. split; reflexivity.
  - unfold saveDrawing.
    remember (recordToSave newId now strokes cw ch name existingId w) as d eqn:Hd.
    clear Hd. unfold resolves. run_task.
    split; [|split].
    + intros e Hres Hnth. open_schedule w; cbn [nth] in Hnth;
        try discriminate Hnth; injection Hnth as ->; reflexivity.
    + intros e Hres Hidx. open_schedule w;
        rewrite ?(proj2 (record_key_not_index _)), Hidx; reflexivity.
    + intros e ids Hres Hidx Hinc Hnth. open_schedule w; cbn [nth] in Hnth;
        try discriminate Hnth; injection Hnth as ->;
        rewrite ?(proj2 (record_key_not_index _)), Hidx; simpl_world;
        rewrite Hinc; reflexivity.
Qed.

(** *** Deleting *)

(** X20: [deleteDrawing] swallows every error.  When the removal of the
    record resolves, the record is gone and the drawing opens as [null],
    whatever becomes of the index; when the removal rejects, nothing
    changes: the record, the index and the list stay as they were.  In
    every case the records of other drawings are untouched and the list
    only loses entries; when the three store calls resolve and the index
    decodes, no listed drawing carries the id and the index is rewritten
    without it. *)
Theorem deleted_drawing_is_gone (id : string) (w : World) :
  let w' := deleteDrawing stringifyIds parseIds id w in
  (resolves 1 (storage w) = true ->
   items (storage w') (DRAWING_PREFIX ++ id) = None
   /\ snd (open id w') = None)
  /\ (outcome (storage w) <> None ->
      items (storage w') = items (storage w) /\ hook w' = hook w)
  /\ (forall other, other <> id ->
        items (storage w') (DRAWING_PREFIX ++ other)
        = items (storage w) (DRAWING_PREFIX ++ other))
  /\ (forall d, In d (drawings (hook w')) -> In d (drawings (hook w)))
  /\ (forall ids,
        resolves 3 (storage w) = true ->
        index (storage w) = Returned ids ->
        let newIds := filter (fun i => negb (String.eqb i id)) ids in
        (forall d, In d (drawings (hook w')) -> Drawing.id d <> id)
        /\ items (storage w') DRAWINGS_INDEX_KEY = Some (stringifyIds newIds)
        /\ ~ In id newIds).
Proof.
  cbn zeta.
  assert (Hgone : resolves 1 (storage w) = true ->
                  items (storage (deleteDrawing stringifyIds parseIds id w))
                    (DRAWING_PREFIX ++ id) = None).
  { unfold deleteDrawing, resolves. run_task. intros Hres.
    open_schedule w; split_cases;
      rewrite ?(proj1 (record_key_not_index _)); now rewrite String.eqb_refl. }
  split; [|split; [|split; [|split]]].
  - intros Hres. split; [now apply Hgone|].
    apply open_nothing. left. now apply Hgone.
  - intros Hout. unfold deleteDrawing. run_task.
    destruct (hd None (schedule (storage w))) as [e|]; [|congruence].
    split; reflexivity.
  - intros other Hne. pose proof (other_key _ _ Hne) as Hkey.
    unfold deleteDrawing. run_task.
    open_schedule w; split_cases;
      rewrite ?(proj1 (record_key_not_index _)), ?Hkey; reflexivity.
  - intros d. unfold deleteDrawing. run_task.
    open_schedule w; split_cases; auto;
      intros Hin; now apply filter_In in Hin.
  - intros ids Hres Hidx. cbn zeta. revert Hres.
    unfold deleteDrawing, resolves. run_task. intros Hres.
    open_schedule w;
      rewrite ?(proj2 (record_key_not_index _)), Hidx; simpl_world.
    all: split; [|split].
    all: try (intros d Hin; apply filter_In in Hin as (_ & Hneq);
              apply Bool.negb_true_iff, String.eqb_neq in Hneq; exact Hneq).
    all: try (now rewrite String.eqb_refl).
    all: intros Hin; apply filter_In in Hin as (_ & Hneq);
      now rewrite String.eqb_refl in Hneq.
Qed.

(** *** Renaming *)

Ltac rename_cases w :=
  unfold renameDrawing, resolves in *; run_task; open_schedule w;
  repeat match goal with
         | |- context [match present ?x with _ => _ end] =>
             destruct (present x) eqn:?
         | |- context [match parseDrawing ?x with _ => _ end] =>
             destruct (parseDrawing x) eqn:?
         end;
  simpl_world.

(** X21: [renameDrawing] changes the name and the update time of the
    stored record, and nothing else, and swallows every error.  When the
    read and the write resolve and the stored record decodes, the store
    holds that record under the new name with its strokes, canvas size,
    thumbnail and creation time; when moreover the renamed record survives
    the JSON round trip, the drawing opens as that record whenever the read
    resolves.  When the read rejects or there is no record, nothing
    changes.  In every case the other records and the index are untouched,
    and the list of the hook keeps its ids, in order, and its strokes. *)
Theorem rename_keeps_strokes (now id newName : string) (w : World) :
  let w' := renameDrawing stringifyDrawing parseDrawing now id newName w in
  (forall json d,
      resolves 2 (storage w) = true ->
      items (storage w) (DRAWING_PREFIX ++ id) = Some json ->
      json <> EmptyString ->
      parseDrawing json = Returned d ->
      let renamed :=
        Drawing.mk (Drawing.id d) newName (Drawing.strokes d)
          (Drawing.canvasWidth d) (Drawing.canvasHeight d)
          (Drawing.thumbnailSvg d) (Drawing.createdAt d) now in
      items (storage w') (DRAWING_PREFIX ++ id)
      = Some (stringifyDrawing renamed)
      /\ (parseDrawing (stringifyDrawing renamed) = Returned renamed ->
          stringifyDrawing renamed <> EmptyString ->
          resolves 1 (storage w') = true ->
          snd (open id w') = Some renamed))
  /\ (outcome (storage w) <> None
      \/ items (storage w) (DRAWING_PREFIX ++ id) = None ->
      items (storage w') = items (storage w) /\ hook w' = hook w)
  /\ (forall other, other <> id ->
        items (storage w') (DRAWING_PREFIX ++ other)
        = items (storage w) (DRAWING_PREFIX ++ other))
  /\ items (storage w') DRAWINGS_INDEX_KEY = items (storage w) DRAWINGS_INDEX_KEY
  /\ map Drawing.id (drawings (hook w')) = map Drawing.id (drawings (hook w))
  /\ map Drawing.strokes (drawings (hook w'))
     = map Drawing.strokes (drawings (hook w)).
Proof.
  cbn zeta. split; [|split; [|split; [|split; [|split]]]].
  - intros json d Hres Hget Hne Hparse.
    assert (Hitem : items
                      (storage (renameDrawing stringifyDrawing parseDrawing now
                                  id newName w))
                      (DRAWING_PREFIX ++ id)
                    = Some (stringifyDrawing
                              (Drawing.mk (Drawing.id d) newName
                                 (Drawing.strokes d) (Drawing.canvasWidth d)
                                 (Drawing.canvasHeight d)
                                 (Drawing.thumbnailSvg d) (Drawing.createdAt d)
                                 now))).
    { revert Hres. unfold renameDrawing, resolves. run_task. intros Hres.
      open_schedule w; rewrite Hget, (present_nonempty _ Hne), Hparse;
        simpl_world; now rewrite String.eqb_refl. }
    split; [exact Hitem|].
    intros Hrt Hne' Hread. apply resolves_next in Hread as (Hout & _).
    now apply (open_reads _ _ _ _ Hout Hitem Hne' Hrt).
  - intros H. unfold renameDrawing. run_task.
    destruct (hd None (schedule (storage w))) as [e|] eqn:Hout;
      [split; reflexivity|].
    destruct H as [H | H]; [congruence|].
    simpl_world. rewrite H. split; reflexivity.
  - intros other Hneq. pose proof (other_key _ _ Hneq) as Hkey.
    rename_cases w; rewrite ?Hkey; reflexivity.
  - rename_cases w; rewrite ?(proj2 (record_key_not_index _)); reflexivity.
  - rename_cases w; try reflexivity;
      rewrite map_map; apply map_ext; intros entry;
      now destruct (String.eqb (Drawing.id entry) id).
  - rename_cases w; try reflexivity;
      rewrite map_map; apply map_ext; intros entry;
      now destruct (String.eqb (Drawing.id entry) id).
Qed.

(** *** The gallery list holds no strokes *)

Lemma loadEachFrom_cons (id : string) (ids : list string)
  (loaded : list Drawing) (w : World) :
  loadEachFrom parseDrawing (id :: ids) loaded w
  = match outcome (storage w) with
    | Some e => (mkWorld (advance (storage w)) (hook w), Thrown e)
    | None =>
        match present (items (storage w) (DRAWING_PREFIX ++ id)) with
        | Some json =>
            match parseDrawing json with
            | Returned d =>
                loadEachFrom parseDrawing ids
                  (loaded ++ [withoutStrokes d])%list
                  (mkWorld (advance (storage w)) (hook w))
            | Thrown e => (mkWorld (advance (storage w)) (hook w), Thrown e)
            end
        | None =>
            loadEachFrom parseDrawing ids loaded
              (mkWorld (advance (storage w)) (hook w))
        end
    end.
Proof.
  cbn [loadEachFrom]. unfold andThen, await, getItem, evaluate.
  destruct (outcome (storage w)) as [e|]; [reflexivity|].
  destruct (present (items (storage w) (DRAWING_PREFIX ++ id))) as [json|];
    [|reflexivity].
  now destruct (parseDrawing json).
Qed.

Lemma loadEachFrom_listed (ids : list string) :
  forall loaded w,
    Forall listed loaded ->
    hook (fst (loadEachFrom parseDrawing ids loaded w)) = hook w
    /\ forall result,
         snd (loadEachFrom parseDrawing ids loaded w) = Returned result ->
         Forall listed result.
Proof.
  induction ids as [|id ids IH]; intros loaded w Hl.
  - cbn. split; [reflexivity|]. intros result H. now injection H as <-.
  - rewrite loadEachFrom_cons.
    destruct (outcome (storage w)) as [e|]; [split; [reflexivity | discriminate]|].
    destruct (present (items (storage w) (DRAWING_PREFIX ++ id))) as [json|].
    + destruct (parseDrawing json) as [d | e];
        [|split; [reflexivity | discriminate]].
      apply (IH (loaded ++ [withoutStrokes d])%list
               (mkWorld (advance (storage w)) (hook w))).
      apply Forall_app. split; [exact Hl|]. now repeat constructor.
    + apply (IH loaded (mkWorld (advance (storage w)) (hook w)) Hl).
Qed.

Lemma tryLoadFrom_steps (w : World) :
  tryLoadFrom parseDrawing parseIds sortByUpdatedAtDesc w
  = match outcome (storage w) with
    | Some e => (mkWorld (advance (storage w)) (hook w), Thrown e)
    | None =>
        let w1 := mkWorld (advance (storage w)) (hook w) in
        match present (items (storage w) DRAWINGS_INDEX_KEY) with
        | None => (mkWorld (storage w1) (setDrawings [] (hook w1)), Returned tt)
        | Some json =>
            match parseIds json with
            | Thrown e => (w1, Thrown e)
            | Returned ids =>
                match loadEachFrom parseDrawing ids [] w1 with
                | (w2, Returned loaded) =>
                    (mkWorld (storage w2)
                       (setDrawings (sortByUpdatedAtDesc loaded) (hook w2)),
                     Returned tt)
                | (w2, Thrown e) => (w2, Thrown e)
                end
            end
        end
    end.
Proof.
  unfold tryLoadFrom, andThen, await, getItem, evaluate, update.
  destruct (outcome (storage w)) as [e|]; [reflexivity|]. cbn zeta.
  destruct (present (items (storage w) DRAWINGS_INDEX_KEY)) as [json|];
    [|reflexivity].
  destruct (parseIds json) as [ids | e]; [|reflexivity].
  now destruct (loadEachFrom parseDrawing ids [] _) as (w2 & [loaded | e]).
Qed.

Hypothesis sort_keeps :
  forall l d, In d (sortByUpdatedAtDesc l) -> In d l.

Lemma perform_listed (op : StorageOp) (w : World) :
  Forall listed (drawings (hook w)) ->
  Forall listed
    (drawings (hook (perform stringifyDrawing parseDrawing stringifyIds
                       parseIds sortByUpdatedAtDesc op w))).
Proof.
  intros Hl.
  destruct op as [|newId now strokes cw ch name existingId|id|now id newName];
    cbn [perform].
  - unfold reload. rewrite tryLoadFrom_steps. cbn [storage hook].
    destruct (outcome (storage w)) as [e|]; [exact Hl|]. cbn zeta.
    destruct (present (items (storage w) DRAWINGS_INDEX_KEY)) as [json|];
      [|constructor].
    destruct (parseIds json) as [ids | e]; [|exact Hl].
    match goal with
    | |- context [loadEachFrom parseDrawing ids [] ?w0] =>
        destruct (loadEachFrom_listed ids [] w0 (Forall_nil _)) as (Hhook & Hres);
        destruct (loadEachFrom parseDrawing ids [] w0) as (w1 & [loaded | e])
    end; cbn [fst snd] in *.
    + cbn [hook storage drawings setDrawings setIsLoading].
      apply Forall_forall. intros d Hin. apply sort_keeps in Hin.
      now apply (proj1 (Forall_forall _ _) (Hres loaded eq_refl)).
    + cbn [hook storage drawings setError setIsLoading]. rewrite Hhook.
      exact Hl.
  - unfold saveDrawing.
    remember (recordToSave newId now strokes cw ch name existingId w) as d eqn:Hd.
    clear Hd. run_task. open_schedule w; split_cases; try exact Hl.
    all: constructor; [reflexivity|].
    all: apply Forall_forall; intros x Hin; apply filter_In in Hin as (Hin & _).
    all: now apply (proj1 (Forall_forall _ _) Hl).
  - unfold deleteDrawing. run_task. open_schedule w; split_cases; try exact Hl.
    all: apply Forall_forall; intros x Hin; apply filter_In in Hin as (Hin & _).
    all: now apply (proj1 (Forall_forall _ _) Hl).
  - rename_cases w; try exact Hl.
    all: apply Forall_forall; intros entry Hin;
      apply in_map_iff in Hin as (old & <- & Hold);
      pose proof (proj1 (Forall_forall _ _) Hl old Hold) as Hstrokes;
      now destruct (String.eqb (Drawing.id old) id).
Qed.

(** With nothing scheduled to reject, the load over the store is the
    loader of the hook on the reads of that store. *)
Lemma loadEachFrom_loadEach (ids : list string) :
  forall loaded w,
    schedule (storage w) = [] ->
    loadEachFrom parseDrawing ids loaded w
    = (w,
       loadEach (fun key => Returned (items (storage w) key)) parseDrawing ids
         loaded).
Proof.
  induction ids as [|id ids IH]; intros loaded w Hs; [reflexivity|].
  rewrite loadEachFrom_cons. cbn [loadEach].
  unfold outcome, advance. rewrite Hs. cbn [hd tl bind].
  assert (Hw : mkWorld (mkStore (items (storage w)) []) (hook w) = w)
    by (destruct w as [[its sched] st]; cbn in *; now subst).
  rewrite Hw.
  destruct (present (items (storage w) (DRAWING_PREFIX ++ id))) as [json|].
  - destruct (parseDrawing json) as [d | e]; [|reflexivity].
    cbn [bind]. now apply IH.
  - now apply IH.
Qed.

Lemma reload_is_loadDrawings (w : World) :
  schedule (storage w) = [] ->
  reload parseDrawing parseIds sortByUpdatedAtDesc w
  = mkWorld (storage w)
      (loadDrawings (fun key => Returned (items (storage w) key)) parseIds
         parseDrawing sortByUpdatedAtDesc (hook w)).
Proof.
  intros Hs. destruct w as [[its sched] st]. cbn in Hs. subst sched.
  unfold reload, loadDrawings, tryLoad. rewrite tryLoadFrom_steps.
  unfold outcome, advance.
  cbn [storage hook items schedule hd tl bind].
  destruct (present (its DRAWINGS_INDEX_KEY)) as [json|]; [|reflexivity].
  destruct (parseIds json) as [ids | e]; cbn [bind]; [|reflexivity].
  rewrite loadEachFrom_loadEach by reflexivity. cbn [storage hook].
  now destruct (loadEach _ parseDrawing ids []) as [loaded | e].
Qed.

End Persistence.

(** X22: the gallery list never holds strokes.  Whatever sequence of
    loads, saves, deletions and renamings is performed, on any store and
    with any decoder, every drawing in the hook's [drawings] has an empty
    [strokes] array, as long as sorting only rearranges the loaded
    drawings: strokes are only delivered by [loadDrawingById]. *)
Theorem gallery_list_holds_no_strokes
  (stringifyDrawing : Drawing -> string)
  (parseDrawing : string -> Outcome Drawing)
  (stringifyIds : list string -> string)
  (parseIds : string -> Outcome (list string))
  (sortByUpdatedAtDesc : list Drawing -> list Drawing)
  (ops : list StorageOp) (w : World) :
  (forall l d, In d (sortByUpdatedAtDesc l) -> In d l) ->
  Forall listed (drawings (hook w)) ->
  Forall listed
    (drawings (hook (performAll stringifyDrawing parseDrawing stringifyIds
                       parseIds sortByUpdatedAtDesc ops w))).
Proof.
  intros Hsort. revert w. unfold performAll.
  induction ops as [|op ops IH]; intros w Hl; [exact Hl|].
  cbn [fold_left]. apply IH. now apply perform_listed.
Qed.

(** *** The scenario of one saved drawing *)

(** The first save of the sketch, in a store whose third call (the write
    of the index) rejects: the save rejects, and the drawing opens. *)
Lemma saved_drawing_opens_witness :
  let w :=
    PersistenceScenarios.scheduled [None; None; Some "QuotaExceededError"]
      PersistenceScenarios.emptyWorld in
  let result :=
    saveDrawing PersistenceScenarios.encodeDrawing
      PersistenceScenarios.encodeIds PersistenceScenarios.decodeIds
      "n1" "2026-02-01" [CanvasScenarios.penLine] 100%float 80%float
      "Sketch" None w in
  snd result = Thrown "QuotaExceededError"
  /\ snd (loadDrawingById PersistenceScenarios.decodeDrawing "n1" (fst result))
     = Some PersistenceScenarios.sketchRecord
  /\ Drawing.strokes PersistenceScenarios.sketchRecord
     = [CanvasScenarios.penLine].
Proof.
  cbn zeta. split; [vm_compute; reflexivity|].
  pose proof (saved_drawing_opens
                PersistenceScenarios.encodeDrawing
                PersistenceScenarios.decodeDrawing
                PersistenceScenarios.encodeIds PersistenceScenarios.decodeIds
                "n1" "2026-02-01" [CanvasScenarios.penLine] 100%float 80%float
                "Sketch" None
                (PersistenceScenarios.scheduled
                   [None; None; Some "QuotaExceededError"]
                   PersistenceScenarios.emptyWorld)) as H.
  cbn zeta in H.
  destruct H as (_ & Hopen & _ & Hstrokes & _);
    [reflexivity | discriminate | reflexivity |].
  split; [apply Hopen; vm_compute; reflexivity | exact Hstrokes].
Defined.

(** The first save puts the id in the index; saving the drawing again
    under its id leaves the index as it is. *)
Lemma save_keeps_index_without_duplicates_witness :
  readIndex PersistenceScenarios.decodeIds
    (storage PersistenceScenarios.saved) = Returned ["n1"]
  /\ readIndex PersistenceScenarios.decodeIds
       (storage
          (fst (saveDrawing PersistenceScenarios.encodeDrawing
                  PersistenceScenarios.encodeIds PersistenceScenarios.decodeIds
                  "n2" "2026-03-02" [] 100%float 80%float "Sketch" (Some "n1")
                  PersistenceScenarios.saved)))
     = Returned ["n1"].
Proof.
  split.
  - pose proof (save_keeps_index_without_duplicates
                  PersistenceScenarios.encodeDrawing
                  PersistenceScenarios.encodeIds PersistenceScenarios.decodeIds
                  "n1" "2026-02-01" [CanvasScenarios.penLine] 100%float 80%float
                  "Sketch" None PersistenceScenarios.emptyWorld []) as H.
    cbn zeta in H.
    destruct H as (_ & Hidx & _);
      [reflexivity | reflexivity
       | intros _; split; [reflexivity | discriminate] |].
    exact Hidx.
  - pose proof (save_keeps_index_without_duplicates
                  PersistenceScenarios.encodeDrawing
                  PersistenceScenarios.encodeIds PersistenceScenarios.decodeIds
                  "n2" "2026-03-02" [] 100%float 80%float
                  "Sketch" (Some "n1") PersistenceScenarios.saved ["n1"]) as H.
    cbn zeta in H.
    destruct H as (_ & Hidx & _);
      [reflexivity | reflexivity | intros Habs; discriminate Habs |].
    exact Hidx.
Defined.

(** In a store whose first call rejects, the save rejects and stores
    nothing; with an index that is not JSON it rejects, the record is
    stored, and the gallery lists nothing. *)
Lemma save_rejections_witness :
  let failing :=
    saveDrawing PersistenceScenarios.encodeDrawing
      PersistenceScenarios.encodeIds PersistenceScenarios.decodeIds
      "n1" "2026-02-01" [CanvasScenarios.penLine] 100%float 80%float
      "Sketch" None
      (PersistenceScenarios.scheduled [Some "QuotaExceededError"]
         PersistenceScenarios.emptyWorld) in
  let corrupt :=
    saveDrawing PersistenceScenarios.encodeDrawing
      PersistenceScenarios.encodeIds PersistenceScenarios.decodeIds
      "n1" "2026-02-01" [CanvasScenarios.penLine] 100%float 80%float
      "Sketch" None PersistenceScenarios.corruptIndex in
  snd failing = Thrown "QuotaExceededError"
  /\ items (storage (fst failing)) "drawing_n1" = None
  /\ snd corrupt = Thrown "SyntaxError"
  /\ drawings (hook (fst corrupt)) = []
  /\ items (storage (fst corrupt)) "drawing_n1" = Some "ok:Sketch".
Proof.
  cbn zeta.
  pose proof (save_rejections
                PersistenceScenarios.encodeDrawing
                PersistenceScenarios.encodeIds PersistenceScenarios.decodeIds
                "n1" "2026-02-01" [CanvasScenarios.penLine] 100%float 80%float
                "Sketch" None
                (PersistenceScenarios.scheduled [Some "QuotaExceededError"]
                   PersistenceScenarios.emptyWorld)) as Hfail.
  pose proof (save_rejections
                PersistenceScenarios.encodeDrawing
                PersistenceScenarios.encodeIds PersistenceScenarios.decodeIds
                "n1" "2026-02-01" [CanvasScenarios.penLine] 100%float 80%float
                "Sketch" None PersistenceScenarios.corruptIndex) as Hcorrupt.
  cbn zeta in Hfail, Hcorrupt.
  destruct Hfail as (_ & Hfirst & _).
  destruct (Hfirst "QuotaExceededError" eq_refl) as (Hthrown & Hitems).
  destruct Hcorrupt as (Hkept & _ & Hrec & _ & Hparse & _).
  specialize (Hparse "SyntaxError" eq_refl eq_refl).
  destruct (Hkept "SyntaxError" Hparse) as (Hhook & _).
  split; [exact Hthrown|]. split; [now rewrite Hitems|].
  split; [exact Hparse|]. split; [now rewrite Hhook|].
  exact (Hrec eq_refl).
Defined.

(** The saved drawing is deleted and opens as [null]; when the removal
    rejects, the record stays. *)
Lemma deleted_drawing_is_gone_witness :
  snd (loadDrawingById PersistenceScenarios.decodeDrawing "n1"
         (deleteDrawing PersistenceScenarios.encodeIds
            PersistenceScenarios.decodeIds "n1" PersistenceScenarios.saved))
  = None
  /\ items
       (storage
          (deleteDrawing PersistenceScenarios.encodeIds
             PersistenceScenarios.decodeIds "n1"
             (PersistenceScenarios.scheduled [Some "IOError"]
                PersistenceScenarios.saved)))
       "drawing_n1"
     = Some "ok:Sketch".
Proof.
  pose proof (deleted_drawing_is_gone PersistenceScenarios.decodeDrawing
                PersistenceScenarios.encodeIds PersistenceScenarios.decodeIds
                "n1" PersistenceScenarios.saved) as Hgone.
  pose proof (deleted_drawing_is_gone PersistenceScenarios.decodeDrawing
                PersistenceScenarios.encodeIds PersistenceScenarios.decodeIds
                "n1"
                (PersistenceScenarios.scheduled [Some "IOError"]
                   PersistenceScenarios.saved)) as Hstays.
  cbn zeta in Hgone, Hstays.
  destruct Hgone as (Hgone & _). destruct (Hgone eq_refl) as (_ & Hopen).
  destruct Hstays as (_ & Hstays & _).
  destruct Hstays as (Hitems & _); [discriminate|].
  split; [exact Hopen|]. rewrite Hitems. reflexivity.
Defined.

(** The saved drawing is renamed and opens under its new name, with its
    stroke. *)
Lemma rename_keeps_strokes_witness :
  snd (loadDrawingById PersistenceScenarios.decodeDrawing "n1"
         (renameDrawing PersistenceScenarios.encodeDrawing
            PersistenceScenarios.decodeDrawing "2026-03-01" "n1" "Croquis"
            PersistenceScenarios.saved))
  = Some PersistenceScenarios.renamedRecord
  /\ Drawing.strokes PersistenceScenarios.renamedRecord
     = [CanvasScenarios.penLine].
Proof.
  split; [|reflexivity].
  pose proof (rename_keeps_strokes
                PersistenceScenarios.encodeDrawing
                PersistenceScenarios.decodeDrawing
                "2026-03-01" "n1" "Croquis" PersistenceScenarios.saved) as H.
  cbn zeta in H. destruct H as (Hrenamed & _).
  destruct (Hrenamed "ok:Sketch" PersistenceScenarios.sketchRecord)
    as (_ & Hopen); [reflexivity | reflexivity | discriminate | reflexivity |].
  apply Hopen; [reflexivity | discriminate | reflexivity].
Defined.

(** After a session of saves, a reload, a renaming and a deletion, in a
    store where some calls reject, the gallery lists one drawing, without
    strokes. *)
Lemma gallery_list_holds_no_strokes_witness :
  let w :=
    performAll PersistenceScenarios.encodeDrawing
      PersistenceScenarios.decodeDrawing
      PersistenceScenarios.encodeIds PersistenceScenarios.decodeIds
      StorageScenarios.keepOrder PersistenceScenarios.session
      (PersistenceScenarios.scheduled
         [None; None; None; None; Some "IOError"]
         PersistenceScenarios.emptyWorld) in
  Forall listed (drawings (hook w))
  /\ List.length (drawings (hook w)) = 1.
Proof.
  cbn zeta. split; [|vm_compute; reflexivity].
  apply (gallery_list_holds_no_strokes
           PersistenceScenarios.encodeDrawing PersistenceScenarios.decodeDrawing
           PersistenceScenarios.encodeIds PersistenceScenarios.decodeIds
           StorageScenarios.keepOrder PersistenceScenarios.session
           (PersistenceScenarios.scheduled
              [None; None; None; None; Some "IOError"]
              PersistenceScenarios.emptyWorld)).
  - intros l d Hin. exact Hin.
  - constructor.
Defined.

End PersistenceFacts.

(** ** Saving from the sketch screen and opening again *)

Module SketchSessionFacts.
Import SketchScreenEvents SketchScreenSaving EditSketch.
Import useDrawingStorage useDrawingStorageFacts PersistenceFacts.

Lemma mount_strokes (layout : Layout) (initialStrokes : list Stroke) :
  useSketchpad.strokes (sketch (mount layout initialStrokes)) = initialStrokes
  /\ useSketchpad.isDirty (sketch (mount layout initialStrokes)) = false
  /\ useSketchpad.undoStack (sketch (mount layout initialStrokes)) = []
  /\ useSketchpad.redoStack (sketch (mount layout initialStrokes)) = []
  /\ useSketchpad.selection (sketch (mount layout initialStrokes)) = [].
Proof.
  unfold mount. cbn [sketch].
  destruct initialStrokes as [|s l]; cbn; repeat split.
Qed.

Section Session.
Variable stringifyDrawing : Drawing -> string.
Variable parseDrawing : string -> Outcome Drawing.
Variable stringifyIds : list string -> string.
Variable parseIds : string -> Outcome (list string).
Variable android : bool.

Local Abbreviation start := (handleSaveStart).
Local Abbreviation settle :=
  (handleSaveSettle stringifyDrawing stringifyIds parseIds).

(** A save whose three store calls resolve, on an index that decodes,
    resolves to the id of the record and puts the record, without its
    strokes, at the head of the list. *)
Lemma save_resolves (newId now : string) (strokes : list Stroke)
  (cw ch : number) (name : string) (existingId : option string) (w : World)
  (ids : list string) :
  resolves 3 (storage w) = true ->
  readIndex parseIds (storage w) = Returned ids ->
  exists w',
    saveDrawing stringifyDrawing stringifyIds parseIds newId now strokes cw ch
      name existingId w
    = (w', Returned (Drawing.id (recordToSave newId now strokes cw ch name
                                   existingId w)))
    /\ drawings (hook w')
       = withoutStrokes (recordToSave newId now strokes cw ch name existingId w)
         :: filter (fun d => negb (String.eqb (Drawing.id d)
                                     (Drawing.id (recordToSave newId now strokes
                                                    cw ch name existingId w))))
              (drawings (hook w)).
Proof.
  intros Hres Hidx. unfold saveDrawing.
  remember (recordToSave newId now strokes cw ch name existingId w) as d eqn:Hd.
  assert (Hhook : drawings (hook w) = drawings (hook w)) by reflexivity.
  revert Hhook. generalize (drawings (hook w)) at 1 3. intros list0 Hlist.
  clear Hd. unfold resolves in Hres. run_task.
  open_schedule w; cbn [hook] in Hlist; subst list0;
    rewrite ?(proj2 (record_key_not_index _)), Hidx; simpl_world;
    destruct (includes (Drawing.id d) ids); simpl_world;
    eexists; split; reflexivity.
Qed.

(** The three phases of a save, in the fields they touch. *)
Lemma start_fields (newId now : string) (app : App) :
  isSaving app = false ->
  start newId now app
  = mkApp (screen app) (world app) (name app) (currentDrawingId app) true
      (Some (mkSaveCall newId now
               (useSketchpad.strokes (sketch (screen app)))
               (layoutWidth (canvasLayout (screen app)))
               (layoutHeight (canvasLayout (screen app))) (name app)
               (currentDrawingId app))).
Proof. intros Hbusy. unfold handleSaveStart. now rewrite Hbusy. Qed.

Lemma save_cycle (newId now : string) (app : App) (evs : list UiEvent) :
  isSaving app = false ->
  settle (during android evs (start newId now app))
  = match saveDrawing stringifyDrawing stringifyIds parseIds newId now
            (useSketchpad.strokes (sketch (screen app)))
            (layoutWidth (canvasLayout (screen app)))
            (layoutHeight (canvasLayout (screen app))) (name app)
            (currentDrawingId app) (world app) with
    | (w, Returned savedId) =>
        mkApp (withSketch useSketchpad.markClean
                 (handleAll android evs (screen app)))
          w (name app) (Some savedId) false None
    | (w, Thrown _) =>
        mkApp (handleAll android evs (screen app)) w (name app)
          (currentDrawingId app) false None
    end.
Proof. intros Hbusy. rewrite (start_fields _ _ _ Hbusy). reflexivity. Qed.

(** X23: what is saved from the sketch screen is what the edit route shows
    when the drawing is opened again.  When no save is under way, the three
    store calls of the save resolve, the index decodes and the record
    survives the JSON round trip, a press on the save button saves the
    strokes the document holds at that moment: whatever the user does on
    the canvas while the save is under way, once it settles the screen has
    the id of the record, the busy flag is down and the document is marked
    clean, with the strokes the user has left it with; and the edit route
    opened on that id, when its read resolves, mounts a sketch screen with
    the strokes of the moment of the press, nothing to undo or redo,
    nothing selected and nothing to save. *)
Theorem saved_sketch_reopens (newId now : string) (app : App)
  (evs : list UiEvent) (ids : list string) (routeName : option string)
  (layout' : Layout) :
  let st := sketch (screen app) in
  let d :=
    recordToSave newId now (useSketchpad.strokes st)
      (layoutWidth (canvasLayout (screen app)))
      (layoutHeight (canvasLayout (screen app))) (name app)
      (currentDrawingId app) (world app) in
  isSaving app = false ->
  resolves 3 (storage (world app)) = true ->
  readIndex parseIds (storage (world app)) = Returned ids ->
  parseDrawing (stringifyDrawing d) = Returned d ->
  stringifyDrawing d <> EmptyString ->
  Drawing.id d <> EmptyString ->
  let app' := settle (during android evs (start newId now app)) in
  currentDrawingId app' = Some (Drawing.id d)
  /\ isSaving app' = false
  /\ useSketchpad.isDirty (sketch (screen app')) = false
  /\ useSketchpad.strokes (sketch (screen app'))
     = useSketchpad.strokes (sketch (handleAll android evs (screen app)))
  /\ (resolves 1 (storage (world app')) = true ->
      exists reopened,
        open parseDrawing (Some (Drawing.id d)) routeName layout'
          (storage (world app')) = Some reopened
        /\ useSketchpad.strokes (sketch (screen reopened))
           = useSketchpad.strokes st
        /\ currentDrawingId reopened = Some (Drawing.id d)
        /\ useSketchpad.isDirty (sketch (screen reopened)) = false
        /\ useSketchpad.undoStack (sketch (screen reopened)) = []
        /\ useSketchpad.redoStack (sketch (screen reopened)) = []
        /\ useSketchpad.selection (sketch (screen reopened)) = []).
Proof.
  cbn zeta. intros Hbusy Hres Hidx Hrt Hne Hid.
  set (st := sketch (screen app)) in *.
  set (cw := layoutWidth (canvasLayout (screen app))) in *.
  set (ch := layoutHeight (canvasLayout (screen app))) in *.
  set (d := recordToSave newId now (useSketchpad.strokes st) cw ch (name app)
              (currentDrawingId app) (world app)) in *.
  pose proof (save_stores_record stringifyDrawing stringifyIds parseIds
                newId now (useSketchpad.strokes st) cw ch (name app)
                (currentDrawingId app) (world app)) as Hrec.
  cbn zeta in Hrec. destruct Hrec as (Hrec & _). fold d in Hrec.
  assert (Hres1 : resolves 1 (storage (world app)) = true).
  { revert Hres. unfold resolves.
    destruct (schedule (storage (world app))) as [|[e|] rest]; cbn; auto. }
  specialize (Hrec Hres1).
  destruct (save_resolves newId now (useSketchpad.strokes st) cw ch (name app)
              (currentDrawingId app) (world app) ids Hres Hidx)
    as (w' & Hsave & _).
  fold d in Hsave. rewrite (save_cycle _ _ _ _ Hbusy). fold st cw ch.
  rewrite Hsave in *. cbn [fst] in Hrec.
  cbn [currentDrawingId screen world sketch withSketch isSaving].
  split; [reflexivity|]. split; [reflexivity|]. split; [reflexivity|].
  split; [reflexivity|].
  intros Hread. apply resolves_next in Hread as (Hout & _).
  unfold open. rewrite (present_nonempty _ Hid).
  pose proof (open_reads parseDrawing (Drawing.id d) _ d
                (mkWorld (storage w') initialState) Hout Hrec Hne Hrt) as Hopen.
  destruct (loadDrawingById parseDrawing (Drawing.id d)
              (mkWorld (storage w') initialState)) as (w1 & r).
  cbn [snd] in Hopen. subst r.
  eexists. split; [reflexivity|].
  cbn [enter screen currentDrawingId initialStrokesOf].
  destruct (mount_strokes layout' (Drawing.strokes d))
    as (Hs & Hd & Hu & Hr & Hsel).
  rewrite Hs, Hd, Hu, Hr, Hsel. repeat split.
Qed.


(** X25: a save that rejects leaves the document as the user has it.
    Whatever makes [saveDrawing] reject (a store call that rejects, an
    index that does not decode), once it has settled the screen has the id
    it had before, the document is not marked clean, the list of the
    storage hook is unchanged and the busy flag is down, so the save can be
    tried again; and while a save is under way, a press on the save button
    does nothing. *)
Theorem rejected_save_keeps_document_dirty (newId now : string) (app : App)
  (evs : list UiEvent) :
  let call :=
    saveDrawing stringifyDrawing stringifyIds parseIds newId now
      (useSketchpad.strokes (sketch (screen app)))
      (layoutWidth (canvasLayout (screen app)))
      (layoutHeight (canvasLayout (screen app))) (name app)
      (currentDrawingId app) (world app) in
  let app' := settle (during android evs (start newId now app)) in
  (forall e,
      isSaving app = false -> snd call = Thrown e ->
      currentDrawingId app' = currentDrawingId app
      /\ screen app' = handleAll android evs (screen app)
      /\ hook (world app') = hook (world app)
      /\ isSaving app' = false)
  /\ (isSaving app = true ->
      forall newId2 now2, start newId2 now2 app = app).
Proof.
  cbn zeta. split.
  - intros e Hbusy Hthrown.
    destruct (rejected_save_frame stringifyDrawing stringifyIds parseIds
                newId now (useSketchpad.strokes (sketch (screen app)))
                (layoutWidth (canvasLayout (screen app)))
                (layoutHeight (canvasLayout (screen app))) (name app)
                (currentDrawingId app) (world app) e Hthrown) as (Hhook & _).
    rewrite (save_cycle _ _ _ _ Hbusy).
    revert Hthrown Hhook.
    destruct (saveDrawing stringifyDrawing stringifyIds parseIds newId now
                (useSketchpad.strokes (sketch (screen app)))
                (layoutWidth (canvasLayout (screen app)))
                (layoutHeight (canvasLayout (screen app))) (name app)
                (currentDrawingId app) (world app))
      as (w' & [savedId | e']); cbn [fst snd]; intros Hthrown Hhook;
      [discriminate|].
    cbn [currentDrawingId screen world isSaving]. repeat split. exact Hhook.
  - intros Hbusy newId2 now2. unfold handleSaveStart. now rewrite Hbusy.
Qed.

End Session.

(** A sketch of one pen stroke is saved for the first time under the id
    n1, and a dot is drawn while the save is under way: the document ends
    with two strokes and marked clean, and the edit route shows the one
    stroke that was saved. *)
Lemma saved_sketch_reopens_witness :
  let app' :=
    handleSaveSettle PersistenceScenarios.encodeDrawing
      PersistenceScenarios.encodeIds PersistenceScenarios.decodeIds
      (during false SessionScenarios.dotting
         (handleSaveStart "n1" "2026-02-01" SessionScenarios.unsaved)) in
  List.length (useSketchpad.strokes (sketch (screen app'))) = 2
  /\ useSketchpad.isDirty (sketch (screen app')) = false
  /\ exists reopened,
       open PersistenceScenarios.decodeDrawing (Some "n1") (Some "Sketch")
         SessionScenarios.layout (storage (world app'))
       = Some reopened
       /\ useSketchpad.strokes (sketch (screen reopened))
          = [CanvasScenarios.penLine].
Proof.
  cbn zeta. split; [vm_compute; reflexivity|].
  pose proof (saved_sketch_reopens
                PersistenceScenarios.encodeDrawing
                PersistenceScenarios.decodeDrawing
                PersistenceScenarios.encodeIds PersistenceScenarios.decodeIds
                false "n1" "2026-02-01" SessionScenarios.unsaved
                SessionScenarios.dotting []
                (Some "Sketch") SessionScenarios.layout) as H.
  cbn zeta in H.
  destruct H as (_ & _ & Hclean & _ & Hopen);
    [reflexivity | reflexivity | reflexivity | reflexivity | discriminate
     | discriminate |].
  split; [exact Hclean|].
  destruct Hopen as (reopened & Hopen & Hstrokes & _);
    [vm_compute; reflexivity|].
  exists reopened. split; [exact Hopen | exact Hstrokes].
Defined.


(** In a store whose first call rejects, the sketch is not saved: the
    screen still has no id for it, and the save button is free again. *)
Lemma rejected_save_keeps_document_dirty_witness :
  let app :=
    enter None (Some "Sketch") SessionScenarios.layout [CanvasScenarios.penLine]
      (mkStore (fun _ => None) [Some "QuotaExceededError"]) in
  let app' :=
    handleSaveSettle PersistenceScenarios.encodeDrawing
      PersistenceScenarios.encodeIds PersistenceScenarios.decodeIds
      (during false SessionScenarios.dotting
         (handleSaveStart "n1" "2026-02-01" app)) in
  currentDrawingId app' = None
  /\ isSaving app' = false
  /\ useSketchpad.isDirty (sketch (screen app')) = true.
Proof.
  cbn zeta.
  pose proof (rejected_save_keeps_document_dirty
                PersistenceScenarios.encodeDrawing
                PersistenceScenarios.encodeIds PersistenceScenarios.decodeIds
                false "n1" "2026-02-01"
                (enter None (Some "Sketch") SessionScenarios.layout
                   [CanvasScenarios.penLine]
                   (mkStore (fun _ => None) [Some "QuotaExceededError"]))
                SessionScenarios.dotting) as H.
  cbn zeta in H. destruct H as (Hrejected & _).
  destruct (Hrejected "QuotaExceededError" eq_refl eq_refl)
    as (Hid & Hscreen & _ & Hbusy).
  split; [exact Hid|]. split; [exact Hbusy|].
  rewrite Hscreen. vm_compute. reflexivity.
Defined.

End SketchSessionFacts.
